(** * plxscripting: the proxy / identity-cache / query-cache layer

    A shallow embedding of [server.py], [plxproxyfactory.py] and the parts
    of [plxproxy.py] that the session layer is built from.  Python objects
    with identity live on an explicit heap; every method of the source that
    mutates [self] or raises becomes a computation in a state-and-exception
    monad over the session state.  The HTTP connection is an external
    collaborator: it is a parameter of the development ([gateway]). *)

From Stdlib Require Import ZArith Ascii String List Bool Lia.
From stdpp Require Import base option list gmap strings pretty.

Local Open Scope string_scope.
Local Open Scope Z_scope.
Set Warnings "-register-all".

(** ** Python values *)

(** JSON data decoded by the connection and the values handed back to the
    caller share one universe, as they do in Python: the result interpreter
    passes non-dict payloads through unchanged.  [VRef] is a reference to a
    proxy object on the heap, [VMethod] a bound [PlxProxyObjectMethod].
    JSON numbers are modelled as integers. *)
Inductive PyVal : Type :=
| VNone
| VBool (b : bool)
| VInt (z : Z)
| VStr (s : string)
| VList (l : list PyVal)
| VDict (d : list (string * PyVal))
| VRef (id : nat)
| VMethod (proxy_object : nat) (method_name : string).

Inductive Exn : Type :=
| PlxScriptingError (msg : string)
| PlxScriptingLocalError (msg : string)
| AttributeError (msg : string)
| IndexError (msg : string)
| TypeError (msg : string)
| ValueError (msg : string)
| KeyError (key : string)
| Exception (msg : string).

(** Insertion-ordered dictionaries with string keys. *)
Fixpoint dict_get {A} (k : string) (d : list (string * A)) : option A :=
  match d with
  | [] => None
  | (k', v) :: d' => if String.eqb k k' then Some v else dict_get k d'
  end.

Fixpoint dict_set {A} (k : string) (v : A) (d : list (string * A)) : list (string * A) :=
  match d with
  | [] => [(k, v)]
  | (k', v') :: d' =>
      if String.eqb k k' then (k, v) :: d' else (k', v') :: dict_set k v d'
  end.

Definition dict_mem {A} (k : string) (d : list (string * A)) : bool :=
  match dict_get k d with Some _ => true | None => false end.

Definition dict_keys {A} (d : list (string * A)) : list string := map fst d.

(** Python [==] on the values above.  Booleans compare as the integers 0
    and 1; proxies compare by identity. *)
Fixpoint py_eq (a b : PyVal) {struct a} : bool :=
  match a, b with
  | VNone, VNone => true
  | VBool x, VBool y => Bool.eqb x y
  | VBool x, VInt y => Z.eqb (Z.b2z x) y
  | VInt x, VBool y => Z.eqb x (Z.b2z y)
  | VInt x, VInt y => Z.eqb x y
  | VStr x, VStr y => String.eqb x y
  | VList x, VList y =>
      (fix go (x y : list PyVal) {struct x} : bool :=
         match x, y with
         | [], [] => true
         | u :: x', w :: y' => py_eq u w && go x' y'
         | _, _ => false
         end) x y
  | VDict x, VDict y =>
      Nat.eqb (length x) (length y)
      && forallb (fun kv => match dict_get (fst kv) y with
                            | Some w => py_eq (snd kv) w
                            | None => false
                            end) x
  | VRef i, VRef j => Nat.eqb i j
  | VMethod o m, VMethod o' m' => Nat.eqb o o' && String.eqb m m'
  | _, _ => false
  end.

(** Truth value of the values a connection can return. *)
Definition truthy (v : PyVal) : bool :=
  match v with
  | VNone => false
  | VBool b => b
  | VInt z => negb (Z.eqb z 0)
  | VStr s => negb (String.eqb s "")
  | VList l => match l with [] => false | _ => true end
  | VDict d => match d with [] => false | _ => true end
  | VRef _ | VMethod _ _ => true
  end.

(** ** String helpers ([str.startswith], [in] on strings) *)

Fixpoint startswith (s p : string) : bool :=
  match p, s with
  | EmptyString, _ => true
  | String c p', String d s' => Ascii.eqb c d && startswith s' p'
  | String _ _, EmptyString => false
  end.

Fixpoint str_contains (s p : string) : bool :=
  startswith s p ||
  match s with
  | EmptyString => false
  | String _ s' => str_contains s' p
  end.

Fixpoint str_drop (n : nat) (s : string) : string :=
  match n, s with
  | O, _ => s
  | S n', String _ s' => str_drop n' s'
  | S _, EmptyString => EmptyString
  end.

Fixpoint str_join (sep : string) (l : list string) : string :=
  match l with
  | [] => ""
  | [x] => x
  | x :: l' => x ++ sep ++ str_join sep l'
  end.

Fixpoint str_filter (f : ascii -> bool) (s : string) : string :=
  match s with
  | EmptyString => EmptyString
  | String c s' => if f c then String c (str_filter f s') else str_filter f s'
  end.

(** [sorted] on a list of strings (insertion sort, code-point order). *)
Fixpoint insert_sorted (x : string) (l : list string) : list string :=
  match l with
  | [] => [x]
  | y :: l' => if String.leb x y then x :: l else y :: insert_sorted x l'
  end.

Definition sorted (l : list string) : list string :=
  fold_right insert_sorted [] l.

(** ** const.py *)

Definition PLX_CMD_NEW := "new".
Definition PLX_CMD_CLOSE := "close".
Definition PLX_CMD_RECOVER := "recover".
Definition PLX_CMD_OPEN := "open".
Definition COUNT := "count".
Definition SUBLIST := "sublist".
Definition MEMBERSUBLIST := "membersublist".
Definition INDEX := "index".
Definition MEMBERINDEX := "memberindex".
Definition STAGED_PREFIX := "staged.".
Definition SELECTION := "selection".
Definition JSON_COMMANDS := "commands".
Definition JSON_FEEDBACK := "feedback".
Definition JSON_SUCCESS := "success".
Definition JSON_EXTRAINFO := "extrainfo".
Definition JSON_GUID := "guid".
Definition JSON_RETURNED_OBJECTS := "returnedobjects".
Definition JSON_RETURNED_OBJECT := "returnedobject".
Definition JSON_RETURNED_VALUES := "returnedvalues".
Definition JSON_SELECTION := "selection".
Definition JSON_TYPE := "type".
Definition JSON_VALUE := "value".
Definition JSON_QUERIES := "queries".
Definition JSON_PROPERTIES := "properties".
Definition JSON_NAMEDOBJECTS := "namedobjects".
Definition JSON_ISLISTABLE := "islistable".
Definition JSON_OWNERGUID := "ownerguid".
Definition JSON_LISTQUERIES := "listqueries".
Definition JSON_METHODNAME := "methodname".
Definition JSON_OUTPUTDATA := "outputdata".
Definition JSON_MEMBERNAMES := "membernames".
Definition JSON_ENUMVALUES := "enumvalues".
Definition JSON_TYPE_JSON := "JSON".
Definition JSON_KEY_JSON := "json".
Definition JSON_KEY_CONTENT_TYPE := "ContentType".
Definition NULL_GUID := "{00000000-0000-0000-0000-000000000000}".
Definition SELECTION_GET := "get".

(** plxproxyfactory.py *)
Definition TYPE_BOOLEAN := "Boolean".
Definition TYPE_TEXT := "Text".
Definition TYPE_NUMBER := "Number".
Definition TYPE_INTEGER := "Integer".
Definition TYPE_OBJECT := "Object".
Definition ENUM := "enum".
Definition STAGED := "staged".

(** plxproxy.py *)
Definition ITER_CACHE_COUNT : Z := 100.

(** ** Requests to the connection (connection.py) *)

(** One dictionary of [request_list]: the keys [guid] and [method] plus the
    optional [startindex], [stopindex] and [membernames]. *)
Record ListQuery : Type := mkListQuery {
  lq_guid : string;
  lq_method : string;
  lq_startindex : option Z;
  lq_stopindex : option Z;
  lq_membernames : option (list string)
}.

Inductive Request : Type :=
| ReqEnvironment (command_string filename : string)
| ReqCommands (commands : list string)
| ReqMembers (guids : list string)
| ReqNamedObjects (object_names : list string)
| ReqPropertyValues (owner_guids : list string) (property_name : option string)
    (phase_guid : string)
| ReqList (list_queries : list ListQuery)
| ReqEnumeration (guids : list string)
| ReqSelection (command : string) (guids : list string).

(** What the session did, in order: an invalidation of the three query
    caches ([reset_caches]) or a request handed to the connection. *)
Inductive Event : Type :=
| Invalidate
| Sent (r : Request).

Fixpoint requests_of (evs : list Event) : list Request :=
  match evs with
  | [] => []
  | Invalidate :: evs' => requests_of evs'
  | Sent r :: evs' => r :: requests_of evs'
  end.

(** ** Proxy objects (plxproxy.py) *)

(** The classes a proxy can be an instance of; the [mix_in] classes of the
    factory are listed under the names the factory gives them.  An
    enumeration class carries its class dictionary, the attributes set by
    [_create_proxy_enumeration]. *)
Inductive ProxyClass : Type :=
| PlxProxyGlobalObject
| PlxProxyObject
| PlxProxyObjectListable
| PlxProxyObjectValues
| PlxProxyObjectMaterial
| PlxProxyObjectProperty
| PlxProxyObjectPropertyListable
| PlxProxyIPBoolean
| PlxProxyIPInteger
| PlxProxyIPDouble
| PlxProxyIPObject
| PlxProxyIPObjectListable
| PlxProxyIPText
| PlxProxyIPStaged
| PlxProxyIPEnumerationLocal (name : string) (type_dict : list (string * PyVal)).

(** Instance attributes.  [_attr_cache] is [None] after
    [PlxProxyMaterial.reset_cache]; [_owner], [_property_name] and
    [_stagedIP_value] exist on property proxies only. *)
Record Proxy : Type := mkProxy {
  p_class : ProxyClass;
  _guid : string;
  _plx_type : string;
  _attr_cache : option (list (string * PyVal));
  _owner : option nat;
  _property_name : option string;
  _stagedIP_value : PyVal
}.

Definition set_attr_cache (c : option (list (string * PyVal))) (p : Proxy) : Proxy :=
  mkProxy (p_class p) (_guid p) (_plx_type p) c (_owner p) (_property_name p)
          (_stagedIP_value p).

Definition set_stagedIP_value (v : PyVal) (p : Proxy) : Proxy :=
  mkProxy (p_class p) (_guid p) (_plx_type p) (_attr_cache p) (_owner p)
          (_property_name p) v.

(** isinstance tests *)
Definition is_PlxProxyListable (c : ProxyClass) : bool :=
  match c with
  | PlxProxyObjectListable | PlxProxyObjectValues | PlxProxyObjectPropertyListable
  | PlxProxyIPObjectListable => true
  | _ => false
  end.

Definition is_PlxProxyObjectProperty (c : ProxyClass) : bool :=
  match c with
  | PlxProxyObjectProperty | PlxProxyObjectPropertyListable | PlxProxyIPBoolean
  | PlxProxyIPInteger | PlxProxyIPDouble | PlxProxyIPObject | PlxProxyIPObjectListable
  | PlxProxyIPText | PlxProxyIPStaged | PlxProxyIPEnumerationLocal _ _ => true
  | _ => false
  end.

Definition is_PlxProxyIPObject (c : ProxyClass) : bool :=
  match c with
  | PlxProxyIPObject | PlxProxyIPObjectListable => true
  | _ => false
  end.

(** Classes that define [__eq__] and therefore have no [__hash__]. *)
Definition is_unhashable (c : ProxyClass) : bool :=
  match c with
  | PlxProxyIPBoolean | PlxProxyIPInteger | PlxProxyIPDouble | PlxProxyIPText
  | PlxProxyIPEnumerationLocal _ _ => true
  | _ => false
  end.

(** ** Session state *)

(** The [Server], its [PlxProxyFactory] and [ResultHandler] share one
    state: the heap of proxies, the identity cache [proxy_object_cache],
    the enumeration classes, the three query caches and the volatile
    registry [_proxies_to_reset].  [log] records invalidations and requests
    in the order they happen. *)
Record State : Type := mkState {
  heap : list Proxy;
  proxy_object_cache : gmap string nat;
  _proxy_enum_classes : gmap string ProxyClass;
  allow_caching : bool;
  globals_cache : gmap string PyVal;
  values_cache : gmap (string * option string * option nat) PyVal;
  listables_cache : gmap (string * string * option Z * option Z * option string) PyVal;
  _proxies_to_reset : list nat;
  _last_response : PyVal;
  log : list Event
}.

Definition with_heap (h : list Proxy) (s : State) : State :=
  mkState h (proxy_object_cache s) (_proxy_enum_classes s) (allow_caching s)
    (globals_cache s) (values_cache s) (listables_cache s) (_proxies_to_reset s)
    (_last_response s) (log s).
Definition with_proxy_object_cache (c : gmap string nat) (s : State) : State :=
  mkState (heap s) c (_proxy_enum_classes s) (allow_caching s)
    (globals_cache s) (values_cache s) (listables_cache s) (_proxies_to_reset s)
    (_last_response s) (log s).
Definition with_proxy_enum_classes (c : gmap string ProxyClass) (s : State) : State :=
  mkState (heap s) (proxy_object_cache s) c (allow_caching s)
    (globals_cache s) (values_cache s) (listables_cache s) (_proxies_to_reset s)
    (_last_response s) (log s).
Definition with_allow_caching (b : bool) (s : State) : State :=
  mkState (heap s) (proxy_object_cache s) (_proxy_enum_classes s) b
    (globals_cache s) (values_cache s) (listables_cache s) (_proxies_to_reset s)
    (_last_response s) (log s).
Definition with_globals_cache (c : gmap string PyVal) (s : State) : State :=
  mkState (heap s) (proxy_object_cache s) (_proxy_enum_classes s) (allow_caching s)
    c (values_cache s) (listables_cache s) (_proxies_to_reset s)
    (_last_response s) (log s).
Definition with_values_cache
    (c : gmap (string * option string * option nat) PyVal) (s : State) : State :=
  mkState (heap s) (proxy_object_cache s) (_proxy_enum_classes s) (allow_caching s)
    (globals_cache s) c (listables_cache s) (_proxies_to_reset s)
    (_last_response s) (log s).
Definition with_listables_cache
    (c : gmap (string * string * option Z * option Z * option string) PyVal)
    (s : State) : State :=
  mkState (heap s) (proxy_object_cache s) (_proxy_enum_classes s) (allow_caching s)
    (globals_cache s) (values_cache s) c (_proxies_to_reset s)
    (_last_response s) (log s).
Definition with_proxies_to_reset (l : list nat) (s : State) : State :=
  mkState (heap s) (proxy_object_cache s) (_proxy_enum_classes s) (allow_caching s)
    (globals_cache s) (values_cache s) (listables_cache s) l
    (_last_response s) (log s).
Definition with_last_response (v : PyVal) (s : State) : State :=
  mkState (heap s) (proxy_object_cache s) (_proxy_enum_classes s) (allow_caching s)
    (globals_cache s) (values_cache s) (listables_cache s) (_proxies_to_reset s)
    v (log s).
Definition with_log (l : list Event) (s : State) : State :=
  mkState (heap s) (proxy_object_cache s) (_proxy_enum_classes s) (allow_caching s)
    (globals_cache s) (values_cache s) (listables_cache s) (_proxies_to_reset s)
    (_last_response s) l.

(** ** The state-and-exception monad *)

(** A raised exception keeps the state reached so far: Python does not roll
    back the mutations made before a [raise]. *)
Definition M (A : Type) : Type := State -> (Exn + A) * State.

Definition ret {A} (a : A) : M A := fun s => (inr a, s).
Definition raise {A} (e : Exn) : M A := fun s => (inl e, s).
Definition bind {A B} (m : M A) (k : A -> M B) : M B :=
  fun s => match m s with
           | (inr a, s') => k a s'
           | (inl e, s') => (inl e, s')
           end.
Definition get : M State := fun s => (inr s, s).
Definition modify (f : State -> State) : M unit := fun s => (inr tt, f s).
Definition lift {A} (r : Exn + A) : M A :=
  match r with inl e => raise e | inr a => ret a end.
(** [try: m except PlxScriptingError: h] *)
Definition catch_PlxScriptingError {A} (m : M A) (h : M A) : M A :=
  fun s => match m s with
           | (inl (PlxScriptingError _), s') => h s'
           | r => r
           end.
(** [try: m except AttributeError: h] *)
Definition catch_AttributeError {A} (m : M A) (h : M A) : M A :=
  fun s => match m s with
           | (inl (AttributeError _), s') => h s'
           | r => r
           end.

Notation "x <- m ;; k" := (bind m (fun x => k))
  (at level 100, m at next level, right associativity).
Notation "m ;;; k" := (bind m (fun _ => k))
  (at level 100, right associativity).

Fixpoint mapM {A B} (f : A -> M B) (l : list A) : M (list B) :=
  match l with
  | [] => ret []
  | x :: l' => y <- f x ;; ys <- mapM f l' ;; ret (y :: ys)
  end.

(** Subscription [v[k]] and membership [k in v] with a string key. *)
Definition getitem (v : PyVal) (k : string) : Exn + PyVal :=
  match v with
  | VDict d => match dict_get k d with Some x => inr x | None => inl (KeyError k) end
  | _ => inl (TypeError "object is not subscriptable with a string key")
  end.

Definition contains (v : PyVal) (k : string) : Exn + bool :=
  match v with
  | VDict d => inr (dict_mem k d)
  | VList l => inr (existsb (fun x => py_eq x (VStr k)) l)
  | VStr s => inr (str_contains s k)
  | _ => inl (TypeError "argument is not iterable")
  end.

(** [dict.get(k, default)] *)
Definition dict_get_default (v : PyVal) (k : string) (default : PyVal) : Exn + PyVal :=
  match v with
  | VDict d => inr (match dict_get k d with Some x => x | None => default end)
  | _ => inl (AttributeError "object has no attribute 'get'")
  end.

(** The external collaborators of the session: the connection, the JSON
    constructors registered with [register_json_constructor], and Python's
    [str] builtin as used on command parameters.  A connection answers a
    request given the requests sent before it; it returns the decoded JSON
    or raises.

    Two methods of plxproxy.py are taken as given computations on the
    session: the overrides of [_ensure_cache_is_valid] in [PlxProxyListable]
    and in [PlxProxyIPObject], which build list-valued property objects and
    consult [dir] and [__dict__] of the proxies. *)
Record Env : Type := mkEnv {
  gateway : list Request -> Request -> Exn + PyVal;
  _json_constructors : string -> option (PyVal -> Exn + PyVal);
  py_str : PyVal -> string;
  PlxProxyListable__ensure_cache_is_valid : nat -> M unit;
  PlxProxyIPObject__ensure_cache_is_valid : nat -> M unit
}.

(** ** Conversions used on decoded JSON *)

Definition NL : string := String (ascii_of_nat 10) EmptyString.

(** Tokens are strings: a GUID that is not a JSON string is rejected. *)
Definition as_str (v : PyVal) : Exn + string :=
  match v with
  | VStr s => inr s
  | _ => inl (TypeError "expected a string")
  end.

(** Iteration over a value: a list gives its items, a dict its keys, a
    string its characters. *)
Fixpoint str_chars (s : string) : list PyVal :=
  match s with
  | EmptyString => []
  | String c s' => VStr (String c EmptyString) :: str_chars s'
  end.

Definition py_iter (v : PyVal) : Exn + list PyVal :=
  match v with
  | VList l => inr l
  | VDict d => inr (map VStr (dict_keys d))
  | VStr s => inr (str_chars s)
  | _ => inl (TypeError "object is not iterable")
  end.

(** The [len] builtin on plain values. *)
Definition py_len (v : PyVal) : Exn + Z :=
  match v with
  | VList l => inr (Z.of_nat (length l))
  | VDict d => inr (Z.of_nat (length d))
  | VStr s => inr (Z.of_nat (String.length s))
  | _ => inl (TypeError "object has no len()")
  end.

(** [v[i]] with an integer index [i >= 0]. *)
Definition getitem_idx (v : PyVal) (i : nat) : Exn + PyVal :=
  match v with
  | VList l => match l !! i with
               | Some x => inr x
               | None => inl (IndexError "list index out of range")
               end
  | VStr s => match str_chars s !! i with
              | Some x => inr x
              | None => inl (IndexError "string index out of range")
              end
  | VDict _ => inl (KeyError "<int>")
  | _ => inl (TypeError "object is not subscriptable")
  end.

(** [v[k]] where the key [k] is itself a decoded value. *)
Definition getitem_val (v k : PyVal) : Exn + PyVal :=
  match k with
  | VStr ks => getitem v ks
  | _ => inl (TypeError "unsupported key")
  end.

(** ["prefix" + v] *)
Definition str_plus (prefix : string) (v : PyVal) : Exn + string :=
  match v with
  | VStr s => inr (prefix ++ s)
  | _ => inl (TypeError "can only concatenate str to str")
  end.

(** [keyword.iskeyword] *)
Definition python_keywords : list string :=
  [ "False"; "None"; "True"; "and"; "as"; "assert"; "async"; "await"; "break";
    "class"; "continue"; "def"; "del"; "elif"; "else"; "except"; "finally";
    "for"; "from"; "global"; "if"; "import"; "in"; "is"; "lambda"; "nonlocal";
    "not"; "or"; "pass"; "raise"; "return"; "try"; "while"; "with"; "yield" ].

Definition iskeyword (s : string) : bool :=
  existsb (String.eqb s) python_keywords.

(** [is_primitive] of plxproxyfactory.py, on a decoded value: a value that
    is not a string has no [startswith]. *)
Definition is_primitive (plx_type : PyVal) : Exn + bool :=
  match plx_type with
  | VStr t =>
      inr (existsb (String.eqb t) [TYPE_BOOLEAN; TYPE_NUMBER; TYPE_INTEGER; TYPE_TEXT]
           || startswith t ENUM)
  | _ => inl (AttributeError "object has no attribute 'startswith'")
  end.

(** ** Heap access *)

Definition alloc (p : Proxy) : M nat :=
  fun s => (inr (length (heap s)), with_heap (heap s ++ [p]) s).

Definition deref (id : nat) : M Proxy :=
  fun s => match heap s !! id with
           | Some p => (inr p, s)
           | None => (inl (Exception "dangling proxy reference"), s)
           end.

Definition update_proxy (id : nat) (f : Proxy -> Proxy) : M unit :=
  modify (fun s => with_heap (alter f id (heap s)) s).

(** Constructor of [PlxProxyObject_Abstract] and its subclasses: a fresh
    object with an empty attribute cache. *)
Definition new_proxy (c : ProxyClass) (guid plx_type : string)
    (property_name : option string) (owner : option nat) : M nat :=
  alloc (mkProxy c guid plx_type (Some []) owner property_name VNone).

Section Session.
Context (env : Env).

(** ** connection.py: one request, one entry in the log *)

Definition request (r : Request) : M PyVal :=
  fun s =>
    (gateway env (requests_of (log s)) r, with_log (log s ++ [Sent r]) s).

Definition request_environment (command_string filename : string) : M PyVal :=
  request (ReqEnvironment command_string filename).
Definition request_commands (commands : list string) : M PyVal :=
  request (ReqCommands commands).
Definition request_members (guids : list string) : M PyVal :=
  request (ReqMembers guids).
Definition request_namedobjects (object_names : list string) : M PyVal :=
  request (ReqNamedObjects object_names).
Definition request_propertyvalues (owner_guids : list string)
    (property_name : option string) (phase_guid : string) : M PyVal :=
  request (ReqPropertyValues owner_guids property_name phase_guid).
Definition request_list (list_queries : list ListQuery) : M PyVal :=
  request (ReqList list_queries).
Definition request_enumeration (guids : list string) : M PyVal :=
  request (ReqEnumeration guids).
Definition request_selection (command : string) (guids : list string) : M PyVal :=
  request (ReqSelection command guids).

(** ** plxproxyfactory.py *)

Definition clear_proxy_object_cache : M unit :=
  modify (with_proxy_object_cache ∅).

Definition get_proxy_object_if_exists (guid : string) : M (option nat) :=
  s <- get ;; ret (proxy_object_cache s !! guid).

Definition _handle_enumeration_request (enumeration_response : PyVal) : M PyVal :=
  is_successful <- lift (getitem enumeration_response JSON_SUCCESS) ;;
  if truthy is_successful then lift (getitem enumeration_response JSON_ENUMVALUES)
  else
    info <- lift (getitem enumeration_response JSON_EXTRAINFO) ;;
    raise (Exception (match info with VStr m => m | _ => py_str env info end)).

(** The class dictionary built by the [setattr] loop: keys lose their
    non-ASCII characters, a repeated key keeps its place and takes the later
    value. *)
Definition sanitize_key (key : string) : string :=
  str_filter (fun c => (nat_of_ascii c <? 128)%nat) key.

Definition enum_class_dict (enum_dict : list (string * PyVal)) : list (string * PyVal) :=
  fold_left (fun td kv => dict_set (sanitize_key (fst kv)) (snd kv) td) enum_dict [].

Definition _create_proxy_enumeration (proxy_enum_guid proxy_enum_name : string)
    : M ProxyClass :=
  s <- get ;;
  match _proxy_enum_classes s !! proxy_enum_name with
  | Some c => ret c
  | None =>
      r <- request_enumeration [proxy_enum_guid] ;;
      q <- lift (getitem r JSON_QUERIES) ;;
      response <- lift (getitem q proxy_enum_guid) ;;
      enum_dict <- _handle_enumeration_request response ;;
      match enum_dict with
      | VDict d =>
          let c := PlxProxyIPEnumerationLocal proxy_enum_name (enum_class_dict d) in
          modify (fun s => with_proxy_enum_classes
                             (<[proxy_enum_name := c]> (_proxy_enum_classes s)) s) ;;;
          ret c
      | _ => raise (AttributeError "object has no attribute 'items'")
      end
  end.

Definition _create_plx_proxy_property (guid plx_type : string) (is_listable : bool)
    (property_name : option string) (owner : option nat) : M nat :=
  if String.eqb plx_type TYPE_BOOLEAN then
    new_proxy PlxProxyIPBoolean guid plx_type property_name owner
  else if startswith plx_type ENUM then
    proxy_enum_class <- _create_proxy_enumeration guid plx_type ;;
    new_proxy proxy_enum_class guid plx_type property_name owner
  else if String.eqb plx_type TYPE_NUMBER then
    new_proxy PlxProxyIPDouble guid plx_type property_name owner
  else if String.eqb plx_type TYPE_INTEGER then
    new_proxy PlxProxyIPInteger guid plx_type property_name owner
  else if String.eqb plx_type TYPE_OBJECT then
    if is_listable then new_proxy PlxProxyIPObjectListable guid plx_type property_name owner
    else new_proxy PlxProxyIPObject guid plx_type property_name owner
  else if String.eqb plx_type TYPE_TEXT then
    new_proxy PlxProxyIPText guid plx_type property_name owner
  else if startswith plx_type STAGED then
    new_proxy PlxProxyIPStaged guid plx_type property_name owner
  else if is_listable then
    new_proxy PlxProxyObjectPropertyListable guid plx_type property_name owner
  else
    new_proxy PlxProxyObjectProperty guid plx_type property_name owner.

(** [Server.add_proxy_to_reset], called by the constructor of
    [PlxProxyMaterial]. *)
Definition add_proxy_to_reset (proxy_obj : nat) : M unit :=
  modify (fun s => with_proxies_to_reset (_proxies_to_reset s ++ [proxy_obj]) s).

Definition create_plx_proxy_object (guid plx_type : string) (is_listable : bool)
    (property_name : option string) (owner : option nat) : M nat :=
  s <- get ;;
  match proxy_object_cache s !! guid with
  | Some existing => ret existing
  | None =>
      proxy_object <-
        match owner with
        | Some _ => _create_plx_proxy_property guid plx_type is_listable property_name owner
        | None =>
            if String.eqb plx_type "PlxValues" then
              new_proxy PlxProxyObjectValues guid plx_type None None
            else if String.eqb plx_type "SoilMat" then
              m <- new_proxy PlxProxyObjectMaterial guid plx_type None None ;;
              add_proxy_to_reset m ;;;
              ret m
            else if is_listable then
              new_proxy PlxProxyObjectListable guid plx_type None None
            else
              new_proxy PlxProxyObject guid plx_type None None
        end ;;
      modify (fun s => with_proxy_object_cache
                         (<[guid := proxy_object]> (proxy_object_cache s)) s) ;;;
      ret proxy_object
  end.

Definition create_plx_proxy_object_method (proxy_object : nat) (method_name : string)
    : PyVal :=
  VMethod proxy_object method_name.

(** ** server.py: ResultHandler *)

(** [_create_proxy_object] calls [Server.get_object_attributes], which calls
    [handle_members_response], which calls [_create_proxy_object] again,
    always with an owner.  The recursion is cut by passing the fetch of the
    owner's members as an argument; it is only used when no owner is
    given. *)
Definition _create_proxy_object_ (get_object_attributes : nat -> M unit)
    (returned_object : PyVal) (prop_name : option string) (owner : option nat)
    : M PyVal :=
  ty <- lift (getitem returned_object JSON_TYPE) ;;
  if py_eq ty (VStr JSON_TYPE_JSON) then
    json_object <- lift (getitem returned_object JSON_KEY_JSON) ;;
    match json_object with
    | VDict d =>
        match dict_get JSON_KEY_CONTENT_TYPE d with
        | Some constructor_name =>
            match match constructor_name with
                  | VStr n => _json_constructors env n
                  | _ => None
                  end with
            | None => raise (Exception "Constructor is not registered.")
            | Some constructor => lift (constructor json_object)
            end
        | None => ret json_object
        end
    | _ => ret json_object
    end
  else
    guid_v <- lift (getitem returned_object JSON_GUID) ;;
    guid <- lift (as_str guid_v) ;;
    let plx_obj_type := match ty with VStr t => t | _ => py_str env ty end in
    is_listable <- lift (getitem returned_object JSON_ISLISTABLE) ;;
    owner <-
      match owner with
      | Some o => ret (Some o)
      | None =>
          has_owner <- lift (contains returned_object JSON_OWNERGUID) ;;
          if has_owner : bool then
            owner_guid_v <- lift (getitem returned_object JSON_OWNERGUID) ;;
            owner_guid <- lift (as_str owner_guid_v) ;;
            owner <- get_proxy_object_if_exists owner_guid ;;
            match owner with
            | None => raise (PlxScriptingError "Missing owner object for property object!")
            | Some o =>
                existing <- get_proxy_object_if_exists guid ;;
                match existing with
                | None => get_object_attributes o ;;; ret (Some o)
                | Some _ => ret (Some o)
                end
            end
          else ret None
      end ;;
    id <- create_plx_proxy_object guid plx_obj_type (truthy is_listable) prop_name owner ;;
    ret (VRef id).

Definition exposed_name (method_name : string) : string :=
  let n := if startswith method_name "__" then str_drop 2 method_name else method_name in
  if iskeyword n then n ++ "_" else n.

Fixpoint members_commands (proxy_obj : nat) (commands_list : list PyVal)
    (proxy_attributes : list (string * PyVal)) : M (list (string * PyVal)) :=
  match commands_list with
  | [] => ret proxy_attributes
  | VStr method_name :: rest =>
      members_commands proxy_obj rest
        (dict_set (exposed_name method_name)
           (create_plx_proxy_object_method proxy_obj method_name) proxy_attributes)
  | _ :: _ => raise (AttributeError "object has no attribute 'startswith'")
  end.

Fixpoint members_properties (proxy_obj : nat) (properties_dict : PyVal)
    (names : list string) (proxy_attributes : list (string * PyVal))
    : M (list (string * PyVal)) :=
  match names with
  | [] => ret proxy_attributes
  | property_name :: rest =>
      ro <- lift (getitem properties_dict property_name) ;;
      ip <- _create_proxy_object_ (fun _ => ret tt) ro (Some property_name) (Some proxy_obj) ;;
      members_properties proxy_obj properties_dict rest
        (dict_set property_name ip proxy_attributes)
  end.

Definition handle_members_response (members_response : PyVal) (proxy_obj : nat)
    : M (list (string * PyVal)) :=
  has_commands <- lift (contains members_response JSON_COMMANDS) ;;
  proxy_attributes <-
    (if has_commands : bool then
       commands_list <- lift (getitem members_response JSON_COMMANDS) ;;
       l <- lift (py_iter commands_list) ;;
       members_commands proxy_obj l []
     else ret []) ;;
  has_properties <- lift (contains members_response JSON_PROPERTIES) ;;
  if has_properties : bool then
    properties_dict <- lift (getitem members_response JSON_PROPERTIES) ;;
    match properties_dict with
    | VDict d =>
        members_properties proxy_obj properties_dict (sorted (dict_keys d)) proxy_attributes
    | _ => raise (AttributeError "object has no attribute 'keys'")
    end
  else ret proxy_attributes.

(** [Server.get_object_attributes] *)
Definition get_object_attributes (proxy_obj : nat) : M (list (string * PyVal)) :=
  p <- deref proxy_obj ;;
  response <- request_members [_guid p] ;;
  q <- lift (getitem response JSON_QUERIES) ;;
  members <- lift (getitem q (_guid p)) ;;
  handle_members_response members proxy_obj.

Definition _create_proxy_object (returned_object : PyVal) (prop_name : option string)
    (owner : option nat) : M PyVal :=
  _create_proxy_object_ (fun o => get_object_attributes o ;;; ret tt)
    returned_object prop_name owner.

Definition create_one (returned_object : PyVal) : M PyVal :=
  match returned_object with
  | VDict _ => _create_proxy_object returned_object None None
  | _ => ret returned_object
  end.

Definition _create_proxies_from_returned_objects (returned_objects : PyVal)
    (allow_one_item_list_result : bool) : M PyVal :=
  l <- lift (py_iter returned_objects) ;;
  new_objs <- mapM create_one l ;;
  match new_objs with
  | [x] => if negb allow_one_item_list_result then ret x else ret (VList new_objs)
  | [] => ret VNone
  | _ => ret (VList new_objs)
  end.

Definition set_last_response (v : PyVal) : M unit :=
  modify (with_last_response v).

Definition _handle_successful_command (commands_response : PyVal) : M PyVal :=
  ros <- lift (getitem commands_response JSON_RETURNED_OBJECTS) ;;
  obj_list <- _create_proxies_from_returned_objects ros false ;;
  match obj_list with
  | VNone =>
      returned_values <- lift (dict_get_default commands_response JSON_RETURNED_VALUES (VList [])) ;;
      n <- lift (py_len returned_values) ;;
      if 0 <? n then lift (getitem commands_response JSON_RETURNED_VALUES)
      else
        json_extra_info <- lift (getitem commands_response JSON_EXTRAINFO) ;;
        if truthy json_extra_info then ret json_extra_info else ret (VBool true)
  | _ => ret obj_list
  end.

Definition unsuccessful (response : PyVal) : M PyVal :=
  info <- lift (getitem response JSON_EXTRAINFO) ;;
  msg <- lift (str_plus ("Unsuccessful command:" ++ NL) info) ;;
  raise (PlxScriptingError msg).

Definition handle_namedobjects_response (namedobjects_response : PyVal) : M PyVal :=
  is_namedobject_successful <- lift (getitem namedobjects_response JSON_SUCCESS) ;;
  info <- lift (getitem namedobjects_response JSON_EXTRAINFO) ;;
  set_last_response info ;;;
  if truthy is_namedobject_successful then
    ro <- lift (getitem namedobjects_response JSON_RETURNED_OBJECT) ;;
    _create_proxies_from_returned_objects (VList [ro]) false
  else unsuccessful namedobjects_response.

Definition handle_commands_response (commands_response : PyVal) : M PyVal :=
  is_command_successful <- lift (getitem commands_response JSON_SUCCESS) ;;
  info <- lift (getitem commands_response JSON_EXTRAINFO) ;;
  set_last_response info ;;;
  if truthy is_command_successful then _handle_successful_command commands_response
  else unsuccessful commands_response.

Definition handle_list_response (list_response : PyVal) : M PyVal :=
  is_listquery_successful <- lift (getitem list_response JSON_SUCCESS) ;;
  if truthy is_listquery_successful then
    method_name <- lift (getitem list_response JSON_METHODNAME) ;;
    output_data <- lift (getitem list_response JSON_OUTPUTDATA) ;;
    if py_eq method_name (VStr COUNT) then ret output_data
    else if py_eq method_name (VStr SUBLIST) then
      _create_proxies_from_returned_objects output_data true
    else if py_eq method_name (VStr INDEX) then
      _create_proxies_from_returned_objects (VList [output_data]) false
    else if py_eq method_name (VStr MEMBERSUBLIST) then
      names <- lift (getitem list_response JSON_MEMBERNAMES) ;;
      queried_member <- lift (getitem_idx names 0) ;;
      data <- lift (getitem_val output_data queried_member) ;;
      _create_proxies_from_returned_objects data true
    else if py_eq method_name (VStr MEMBERINDEX) then
      names <- lift (getitem list_response JSON_MEMBERNAMES) ;;
      queried_member <- lift (getitem_idx names 0) ;;
      data <- lift (getitem_val output_data queried_member) ;;
      _create_proxies_from_returned_objects (VList [data]) false
    else unsuccessful list_response
  else unsuccessful list_response.

Definition _create_stagedIP_proxy (returned_object : PyVal) (attr_name : option string)
    : M PyVal :=
  guid_v <- lift (getitem returned_object JSON_GUID) ;;
  guid <- lift (as_str guid_v) ;;
  ty <- lift (getitem returned_object JSON_TYPE) ;;
  primitive_type <- lift (as_str ty) ;;
  primitive_proxy <- _create_plx_proxy_property guid primitive_type false attr_name None ;;
  value <- lift (getitem returned_object JSON_VALUE) ;;
  update_proxy primitive_proxy (set_stagedIP_value value) ;;;
  ret (VRef primitive_proxy).

(** [attr_name in property_names], where the name of a property proxy
    built without one is [None]. *)
Definition contains_name (v : PyVal) (attr_name : option string) : Exn + bool :=
  match attr_name with
  | Some n => contains v n
  | None => match v with
            | VDict _ => inr false
            | VList l => inr (existsb (fun x => py_eq x VNone) l)
            | VStr _ => inl (TypeError "'in <string>' requires string as left operand")
            | _ => inl (TypeError "argument is not iterable")
            end
  end.

Definition _get_single_propertyvalues (single_property_json : PyVal)
    (attr_name : option string) (owner_type : PyVal) : M PyVal :=
  has_properties <- lift (contains single_property_json JSON_PROPERTIES) ;;
  if has_properties : bool then
    property_names <- lift (getitem single_property_json JSON_PROPERTIES) ;;
    has_attr <- lift (contains_name property_names attr_name) ;;
    if has_attr : bool then
      attribute <- lift (getitem property_names (default "" attr_name)) ;;
      match attribute with
      | VDict _ =>
          staged <- match owner_type with
                    | VStr t => ret (startswith t STAGED_PREFIX)
                    | _ => raise (AttributeError "object has no attribute 'startswith'")
                    end ;;
          let fallback := _create_proxies_from_returned_objects (VList [attribute]) false in
          if staged : bool then
            ty <- lift (getitem attribute JSON_TYPE) ;;
            prim <- lift (is_primitive ty) ;;
            if prim : bool then _create_stagedIP_proxy attribute attr_name
            else if py_eq ty (VStr TYPE_OBJECT) then
              value <- lift (getitem attribute JSON_VALUE) ;;
              if negb (py_eq value (VStr NULL_GUID)) then _create_proxy_object value None None
              else ret VNone
            else fallback
          else fallback
      | _ => if py_eq attribute (VStr NULL_GUID) then ret VNone else ret attribute
      end
    else ret VNone
  else ret VNone.

Definition handle_propertyvalues_response (propertyvalues_response_list : list PyVal)
    (attr_name : option string) (owner_type : PyVal) : M PyVal :=
  response <- mapM (fun single_property_json =>
                      _get_single_propertyvalues single_property_json attr_name owner_type)
                   propertyvalues_response_list ;;
  ret (VList response).

Definition handle_selection_response (selection_response : PyVal) : M PyVal :=
  selection_objects <- lift (getitem selection_response JSON_SELECTION) ;;
  result <- _create_proxies_from_returned_objects selection_objects true ;;
  match result with
  | VNone => ret (VList [])
  | _ => ret result
  end.

(** ** server.py: InputProcessor *)

Definition QUOTE : string := String (ascii_of_nat 34) EmptyString.
Definition plx_string_wrappers : list string :=
  [QUOTE; "'"; QUOTE ++ QUOTE ++ QUOTE; "'''"].

Definition wrap_string (param : string) : Exn + string :=
  match filter (fun wrapper => negb (str_contains param wrapper)) plx_string_wrappers with
  | wrapper :: _ => inr (wrapper ++ param ++ wrapper)
  | [] => inl (PlxScriptingLocalError
                 ("Cannot convert string parameter to valid Plaxis string"
                  ++ " representation, try removing some quotes: " ++ param))
  end.

(** [param_to_string] and [params_to_string]; a proxy answers
    [get_cmd_line_repr] with its GUID. *)
Fixpoint param_to_string (h : list Proxy) (param : PyVal) {struct param} : Exn + string :=
  match param with
  | VRef id => match h !! id with
               | Some p => inr (_guid p)
               | None => inl (Exception "dangling proxy reference")
               end
  | VStr s => wrap_string s
  | VList l =>
      match (fix go (l : list PyVal) : Exn + list string :=
               match l with
               | [] => inr []
               | x :: l' => match param_to_string h x with
                            | inl e => inl e
                            | inr sx => match go l' with
                                        | inl e => inl e
                                        | inr r => inr (sx :: r)
                                        end
                            end
               end) l with
      | inl e => inl e
      | inr parts => inr ("(" ++ str_join " " parts ++ ")")
      end
  | _ => inr (py_str env param)
  end.

Fixpoint params_to_strings (h : list Proxy) (params : list PyVal) : Exn + list string :=
  match params with
  | [] => inr []
  | x :: l' => match param_to_string h x with
               | inl e => inl e
               | inr sx => match params_to_strings h l' with
                           | inl e => inl e
                           | inr r => inr (sx :: r)
                           end
               end
  end.

Definition params_to_string (h : list Proxy) (params : list PyVal) : Exn + string :=
  match params_to_strings h params with
  | inl e => inl e
  | inr parts => inr (str_join " " parts)
  end.

Definition create_method_call_cmd (target_object : option nat) (method_name : string)
    (params : list PyVal) : M string :=
  s <- get ;;
  param_string <- lift (params_to_string (heap s) params) ;;
  target_part <-
    match target_object with
    | None => ret []
    | Some t =>
        p <- deref t ;;
        ret (if negb (String.eqb (_guid p) "") then [_guid p] else [])
    end ;;
  ret (str_join " " ([method_name] ++ target_part
                     ++ (if negb (String.eqb param_string "") then [param_string] else []))).

(** ** server.py: Server *)

(** [reset_caches]: every registered proxy drops its attribute cache
    ([PlxProxyMaterial.reset_cache]), then the three query caches are
    replaced by empty dictionaries. *)
Definition reset_cache (proxy_obj : nat) : M unit :=
  update_proxy proxy_obj (set_attr_cache None).

Fixpoint reset_proxies (l : list nat) : M unit :=
  match l with
  | [] => ret tt
  | proxy_obj :: l' => reset_cache proxy_obj ;;; reset_proxies l'
  end.

Definition reset_caches : M unit :=
  s <- get ;;
  reset_proxies (_proxies_to_reset s) ;;;
  modify (fun s => with_log (log s ++ [Invalidate])
                     (with_listables_cache ∅ (with_values_cache ∅ (with_globals_cache ∅ s)))).

(** The setter of the [allow_caching] property. *)
Definition set_allow_caching (value : bool) : M unit :=
  s <- get ;;
  if negb (Bool.eqb (allow_caching s) value) then
    modify (with_allow_caching value) ;;; reset_caches
  else ret tt.

Definition environment_command (command_string filename : string) : M PyVal :=
  result <- request_environment command_string filename ;;
  (if truthy result then reset_caches ;;; clear_proxy_object_cache else ret tt) ;;;
  ret result.

Definition new : M PyVal := environment_command PLX_CMD_NEW "".
Definition recover : M PyVal := environment_command PLX_CMD_RECOVER "".
Definition open (filename : string) : M PyVal := environment_command PLX_CMD_OPEN filename.
Definition close : M PyVal := environment_command PLX_CMD_CLOSE "".

Definition __get_with_cache {K} `{Countable K} (key : K)
    (cache : State -> gmap K PyVal) (with_cache : gmap K PyVal -> State -> State)
    (func_if_not_found : M PyVal) : M PyVal :=
  s <- get ;;
  match (if allow_caching s then cache s !! key else None) with
  | Some cached => ret cached
  | None =>
      result <- func_if_not_found ;;
      s' <- get ;;
      (if allow_caching s'
       then modify (fun s => with_cache (<[key := result]> (cache s)) s)
       else ret tt) ;;;
      ret result
  end.

Definition __call_listable_method_no_cache (proxy_listable : nat) (method_name : string)
    (startindex stopindex : option Z) (property_name : option string) : M PyVal :=
  p <- deref proxy_listable ;;
  let listable_query :=
    mkListQuery (_guid p) method_name startindex stopindex
      (match property_name with Some n => Some [n] | None => None end) in
  response <- request_list [listable_query] ;;
  qs <- lift (getitem response JSON_LISTQUERIES) ;;
  q <- lift (getitem_idx qs 0) ;;
  handle_list_response q.

Definition call_listable_method (proxy_listable : nat) (method_name : string)
    (startindex stopindex : option Z) (property_name : option string) : M PyVal :=
  p <- deref proxy_listable ;;
  __get_with_cache (_guid p, method_name, startindex, stopindex, property_name)
    listables_cache with_listables_cache
    (__call_listable_method_no_cache proxy_listable method_name startindex stopindex
       property_name).

Definition __get_name_object_no_cache (object_name : string) : M PyVal :=
  response <- request_namedobjects [object_name] ;;
  nos <- lift (getitem response JSON_NAMEDOBJECTS) ;;
  no <- lift (getitem nos object_name) ;;
  handle_namedobjects_response no.

Definition get_named_object (object_name : string) : M PyVal :=
  __get_with_cache object_name globals_cache with_globals_cache
    (__get_name_object_no_cache object_name).

(** [po._guid] for each element of the list; the owner of a staged
    property proxy is [None], which has no [_guid]. *)
Fixpoint guids_of (proxy_objects : list (option nat)) : M (list string) :=
  match proxy_objects with
  | [] => ret []
  | None :: _ => raise (AttributeError "'NoneType' object has no attribute '_guid'")
  | Some po :: rest =>
      p <- deref po ;;
      gs <- guids_of rest ;;
      ret (_guid p :: gs)
  end.

(** ** plxproxy.py: PlxProxyListable, its length *)

Definition __len__ (self : nat) : M PyVal :=
  call_listable_method self COUNT None None None.

(** The [len] builtin applied to a listable proxy: the result of [__len__]
    has to be a non-negative integer. *)
Definition len (self : nat) : M Z :=
  v <- __len__ self ;;
  match v with
  | VInt n => if n <? 0 then raise (ValueError "__len__() should return >= 0") else ret n
  | VBool b => ret (Z.b2z b)
  | _ => raise (TypeError "object cannot be interpreted as an integer")
  end.

(** ** plxproxy.py: the global object *)


Definition assign_attr_cache (self : nat) (d : list (string * PyVal)) : M unit :=
  update_proxy self (set_attr_cache (Some d)).

(** [PlxProxyGlobalObject._ensure_cache_is_valid] *)
Definition PlxProxyGlobalObject__ensure_cache_is_valid (self : nat) : M unit :=
  d <- get_object_attributes self ;;
  assign_attr_cache self d.

(** [PlxProxyGlobalObject._getattr]; the [attr_cache] property of the global
    object returns [_attr_cache] as it is. *)
Definition PlxProxyGlobalObject__getattr (self : nat) (attr_name : string) : M PyVal :=
  p <- deref self ;;
  match _attr_cache p with
  | None => raise (TypeError "argument of type 'NoneType' is not iterable")
  | Some d =>
      match dict_get attr_name d with
      | Some a => ret a
      | None =>
          catch_PlxScriptingError (get_named_object attr_name)
            (raise (AttributeError "Requested attribute is not present"))
      end
  end.

(** [PlxProxyGlobalObject.__getattr__] *)
Definition PlxProxyGlobalObject___getattr__ (self : nat) (attr_name : string) : M PyVal :=
  catch_AttributeError (PlxProxyGlobalObject__getattr self attr_name)
    (PlxProxyGlobalObject__ensure_cache_is_valid self ;;;
     PlxProxyGlobalObject__getattr self attr_name).

(** ** server.py: property values *)

(** [proxy_objects[0]._plx_type]: an instance attribute of every proxy but
    the global object, where the lookup falls through to
    [PlxProxyGlobalObject.__getattr__]. *)
Definition first_plx_type (proxy_objects : list (option nat)) : M PyVal :=
  match proxy_objects with
  | [] => raise (IndexError "list index out of range")
  | None :: _ => raise (AttributeError "'NoneType' object has no attribute '_plx_type'")
  | Some po :: _ =>
      p <- deref po ;;
      match p_class p with
      | PlxProxyGlobalObject => PlxProxyGlobalObject___getattr__ po "_plx_type"
      | _ => ret (VStr (_plx_type p))
      end
  end.

Fixpoint indexed_responses (queries : PyVal) (i : nat) (guids : list string)
    : Exn + list PyVal :=
  match guids with
  | [] => inr []
  | g :: rest =>
      match getitem_idx queries i with
      | inl e => inl e
      | inr qi =>
          match getitem qi g with
          | inl e => inl e
          | inr r =>
              match indexed_responses queries (S i) rest with
              | inl e => inl e
              | inr rs => inr (r :: rs)
              end
          end
      end
  end.

(** [if phase_object:] is Python's truth test, which for a property proxy
    runs [PlxProxyObjectProperty.__bool__] and so reads a property value
    through the very functions that test the phase key.  These functions
    are given first with the truth test of a proxy as a parameter,
    [truth_test]; [truth] below ties the knot. *)
Definition __get_objects_property_no_cache_ (truth_test : nat -> M bool)
    (proxy_objects : list (option nat)) (prop_name : option string)
    (phase_object : option nat) : M PyVal :=
  has_phase <- match phase_object with
               | Some ph => truth_test ph
               | None => ret false
               end ;;
  guids <- guids_of proxy_objects ;;
  response <-
    match phase_object with
    | Some ph =>
        if has_phase
        then p <- deref ph ;; request_propertyvalues guids prop_name (_guid p)
        else request_propertyvalues guids prop_name ""
    | None => request_propertyvalues guids prop_name ""
    end ;;
  response_list <-
    match guids with
    | [g] =>
        q <- lift (getitem response JSON_QUERIES) ;;
        r <- lift (getitem q g) ;;
        ret [r]
    | _ =>
        match guids with
        | [] => ret []
        | _ => q <- lift (getitem response JSON_QUERIES) ;;
               lift (indexed_responses q 0 guids)
        end
    end ;;
  owner_type <- first_plx_type proxy_objects ;;
  handle_propertyvalues_response response_list prop_name owner_type.

(** [key in cache] hashes the key and with it the phase key; the classes
    that define [__eq__] have no [__hash__]. *)
Definition hash_phase_key (phase_object : option nat) : M unit :=
  match phase_object with
  | None => ret tt
  | Some ph =>
      p <- deref ph ;;
      if is_unhashable (p_class p) then raise (TypeError "unhashable type") else ret tt
  end.

(** The key is built first; [__get_with_cache] looks it up, and hashes it,
    only when caching is allowed. *)
Definition get_objects_property_ (truth_test : nat -> M bool)
    (proxy_objects : list (option nat)) (prop_name : option string)
    (phase_object : option nat) : M PyVal :=
  guids <- guids_of proxy_objects ;;
  s <- get ;;
  (if allow_caching s then hash_phase_key phase_object else ret tt) ;;;
  __get_with_cache (str_join " " guids, prop_name, phase_object)
    values_cache with_values_cache
    (__get_objects_property_no_cache_ truth_test proxy_objects prop_name phase_object).

Definition get_object_property_ (truth_test : nat -> M bool)
    (proxy_object : option nat) (prop_name : option string)
    (phase_object : option nat) : M PyVal :=
  l <- get_objects_property_ truth_test [proxy_object] prop_name phase_object ;;
  lift (getitem_idx l 0).

(** [PlxProxyObjectProperty._get_value] and the [value] property *)
Definition _get_value_ (truth_test : nat -> M bool) (self : nat) : M PyVal :=
  p <- deref self ;;
  get_object_property_ truth_test (_owner p) (_property_name p) None.

Definition value_ (truth_test : nat -> M bool) (self : nat) : M PyVal :=
  p <- deref self ;;
  match _stagedIP_value p with
  | VNone => _get_value_ truth_test self
  | v => ret v
  end.

(** The truth test of a value.  A property proxy has [__bool__], the truth
    of its [value]; a listable proxy that is not a property has [__len__]
    only; any other proxy is true.  A value that is again a property proxy
    is tested in turn, [fuel] levels deep. *)
Fixpoint truth (fuel : nat) (x : PyVal) {struct fuel} : M bool :=
  match x with
  | VRef self =>
      p <- deref self ;;
      if is_PlxProxyObjectProperty (p_class p) then
        match fuel with
        | O => raise (Exception "maximum recursion depth exceeded")
        | S fuel' =>
            v <- value_ (fun ph => truth fuel' (VRef ph)) self ;;
            truth fuel' v
        end
      else if is_PlxProxyListable (p_class p) then
        n <- len self ;;
        ret (negb (n =? 0))
      else ret true
  | v => ret (truthy v)
  end.

(** [sys.getrecursionlimit()] *)
Definition recursion_limit : nat := 1000.

(** [bool(self)] on a proxy *)
Definition bool_ (self : nat) : M bool := truth recursion_limit (VRef self).

Definition __get_objects_property_no_cache (proxy_objects : list (option nat))
    (prop_name : option string) (phase_object : option nat) : M PyVal :=
  __get_objects_property_no_cache_ bool_ proxy_objects prop_name phase_object.

Definition get_objects_property (proxy_objects : list (option nat))
    (prop_name : option string) (phase_object : option nat) : M PyVal :=
  get_objects_property_ bool_ proxy_objects prop_name phase_object.

Definition get_object_property (proxy_object : option nat) (prop_name : option string)
    (phase_object : option nat) : M PyVal :=
  get_object_property_ bool_ proxy_object prop_name phase_object.

Definition _get_value (self : nat) : M PyVal := _get_value_ bool_ self.

Definition value (self : nat) : M PyVal := value_ bool_ self.


Definition call_commands (commands : list string) : M PyVal :=
  reset_caches ;;;
  response <- request_commands commands ;;
  lift (dict_get_default response JSON_COMMANDS (VList [])).

Definition call_and_handle_commands (commands : list string) : M (list PyVal) :=
  response <- call_commands commands ;;
  l <- lift (py_iter response) ;;
  mapM (fun r => fb <- lift (getitem r JSON_FEEDBACK) ;; handle_commands_response fb) l.

Definition call_and_handle_command (command : string) : M PyVal :=
  response <- call_and_handle_commands [command] ;;
  match response with
  | r :: _ => ret r
  | [] => ret VNone
  end.

Definition call_plx_object_method (proxy_obj : nat) (method_name : string)
    (params : list PyVal) : M PyVal :=
  reset_caches ;;;
  method_call_cmd <- create_method_call_cmd (Some proxy_obj) method_name params ;;
  call_and_handle_command method_call_cmd.

Definition set_object_property (proxy_property : nat) (prop_value : list PyVal) : M PyVal :=
  reset_caches ;;;
  call_plx_object_method proxy_property "set" prop_value.

Definition call_selection_command (command : string) (objects : list nat) : M PyVal :=
  guids <- guids_of (map Some objects) ;;
  response <- request_selection command guids ;;
  handle_selection_response response.

(** ** plxproxy.py: PlxProxyListable *)

(** Keys of [__getitem__]: a slice with integer or absent bounds, an
    integer, or anything else. *)
Inductive Key : Type :=
| KSlice (start stop : option Z)
| KInt (key : Z)
| KOther.

Definition __getitem__ (self : nat) (key : Key) : M PyVal :=
  match key with
  | KSlice start stop => call_listable_method self SUBLIST start stop None
  | KOther => raise (TypeError "list indices must be integers")
  | KInt k =>
      n <- len self ;;
      if n <=? k then raise (IndexError "list index out of range")
      else call_listable_method self INDEX (Some k) None None
  end.

(** The generator [__iter__], run to exhaustion ([list(iter(self))]) with
    no other call in between.  [fuel] bounds the number of pages. *)
Fixpoint iter_loop (fuel : nat) (self : nat) (cache_start length : Z) : M (list PyVal) :=
  if cache_start <? length then
    match fuel with
    | O => raise (Exception "out of fuel")
    | S fuel' =>
        let cache_end := Z.min (cache_start + ITER_CACHE_COUNT) length in
        iter_cache <- call_listable_method self SUBLIST (Some cache_start) (Some cache_end) None ;;
        elements <- lift (py_iter iter_cache) ;;
        rest <- iter_loop fuel' self cache_end length ;;
        ret (elements ++ rest)%list
    end
  else ret [].

Definition __iter__ (self : nat) : M (list PyVal) :=
  length <- len self ;;
  iter_loop (Z.to_nat length) self 0 length.

(** ** plxproxy.py: attribute caches *)

(** [PlxProxyObject._ensure_cache_is_valid] *)
Definition PlxProxyObject__ensure_cache_is_valid (self : nat) : M unit :=
  p <- deref self ;;
  match _attr_cache p with
  | Some (_ :: _) => ret tt
  | _ => d <- get_object_attributes self ;; assign_attr_cache self d
  end.

(** [self._ensure_cache_is_valid()], by the class of [self]: a listable
    class has [PlxProxyListable] first in its method resolution order. *)
Definition _ensure_cache_is_valid (self : nat) : M unit :=
  p <- deref self ;;
  match p_class p with
  | PlxProxyGlobalObject => PlxProxyGlobalObject__ensure_cache_is_valid self
  | c =>
      if is_PlxProxyListable c then PlxProxyListable__ensure_cache_is_valid env self
      else if is_PlxProxyIPObject c then PlxProxyIPObject__ensure_cache_is_valid env self
      else PlxProxyObject__ensure_cache_is_valid self
  end.

(** The [attr_cache] property: [PlxProxyObject_Abstract.attr_cache], and
    the override of the global object, which returns [_attr_cache] as it
    is. *)
Definition attr_cache (self : nat) : M (option (list (string * PyVal))) :=
  p <- deref self ;;
  match p_class p with
  | PlxProxyGlobalObject => ret (_attr_cache p)
  | _ =>
      _ensure_cache_is_valid self ;;;
      p' <- deref self ;;
      ret (_attr_cache p')
  end.

(** ** plxproxy.py: PlxProxyObjectProperty *)



(** ** plxproxy.py: PlxProxyIPEnumeration *)

Definition enum_dict (c : ProxyClass) : list (string * PyVal) :=
  match c with
  | PlxProxyIPEnumerationLocal _ type_dict =>
      filter (fun kv => negb (startswith (fst kv) "__")) type_dict
  | _ => []
  end.








(** ** plxproxy.py: PlxProxyIPStaged *)

Definition PlxProxyIPStaged___getitem__ (self : nat) (phase_object : PyVal) : M PyVal :=
  match phase_object with
  | VRef ph =>
      q <- deref ph ;;
      match p_class q with
      | PlxProxyGlobalObject => raise (TypeError "Expected phase object key")
      | _ =>
          p <- deref self ;;
          get_object_property (_owner p) (_property_name p) (Some ph)
      end
  | _ => raise (TypeError "Expected phase object key")
  end.

(** ** The operations of the session, by kind *)

(** Mutating operations: a method call, a property set, a batch of command
    lines, and the four project-level commands. *)
Inductive ProjectCommand : Type :=
| New
| Recover
| Open (filename : string)
| Close.

Inductive Mutation : Type :=
| MethodCall (proxy_obj : nat) (method_name : string) (params : list PyVal)
| PropertySet (proxy_property : nat) (prop_value : list PyVal)
| Commands (commands : list string)
| Project (c : ProjectCommand).

Definition run_project (c : ProjectCommand) : M PyVal :=
  match c with
  | New => new
  | Recover => recover
  | Open filename => open filename
  | Close => close
  end.

Definition run_mutation (m : Mutation) : M PyVal :=
  match m with
  | MethodCall proxy_obj method_name params =>
      call_plx_object_method proxy_obj method_name params
  | PropertySet proxy_property prop_value => set_object_property proxy_property prop_value
  | Commands commands => call_commands commands
  | Project c => run_project c
  end.

(** Read-only lookups that go through [__get_with_cache]. *)
Inductive Lookup : Type :=
| NamedObject (object_name : string)
| PropertyValues (proxy_objects : list (option nat)) (prop_name : option string)
    (phase_object : option nat)
| CollectionMethod (proxy_listable : nat) (method_name : string)
    (startindex stopindex : option Z) (property_name : option string).

Definition run_lookup (l : Lookup) : M PyVal :=
  match l with
  | NamedObject object_name => get_named_object object_name
  | PropertyValues proxy_objects prop_name phase_object =>
      get_objects_property proxy_objects prop_name phase_object
  | CollectionMethod proxy_listable method_name startindex stopindex property_name =>
      call_listable_method proxy_listable method_name startindex stopindex property_name
  end.

Fixpoint run_lookups (ls : list Lookup) : M unit :=
  match ls with
  | [] => ret tt
  | l :: ls' => fun s => run_lookups ls' (snd (run_lookup l s))
  end.

End Session.

(** * Reasoning about session computations *)

Local Open Scope list_scope.

(** [keeps R m]: running [m] from any state ends, normally or with an
    exception, in a state related to the first by [R]. *)
Definition keeps (R : State -> State -> Prop) {A} (m : M A) : Prop :=
  forall s, R s (snd (m s)).

Section Keeps.
Context (R : State -> State -> Prop) (HR : PreOrder R).

Lemma keeps_ret {A} (a : A) : keeps R (ret a).
Proof. intros s. reflexivity. Qed.

Lemma keeps_raise {A} (e : Exn) : keeps R (@raise A e).
Proof. intros s. reflexivity. Qed.

Lemma keeps_lift {A} (r : Exn + A) : keeps R (lift r).
Proof. destruct r; intros s; reflexivity. Qed.

Lemma keeps_get : keeps R get.
Proof. intros s. reflexivity. Qed.

Lemma keeps_deref id : keeps R (deref id).
Proof. intros s. unfold deref. destruct (heap s !! id); reflexivity. Qed.

Lemma keeps_bind {A B} (m : M A) (k : A -> M B) :
  keeps R m -> (forall a, keeps R (k a)) -> keeps R (bind m k).
Proof.
  intros Hm Hk s. unfold bind. specialize (Hm s).
  destruct (m s) as [[e|a] s1]; simpl in *; [exact Hm|].
  etransitivity; [exact Hm|apply Hk].
Qed.

Lemma keeps_mapM {A B} (f : A -> M B) l :
  (forall a, keeps R (f a)) -> keeps R (mapM f l).
Proof.
  intros Hf. induction l as [|x l IH]; simpl.
  - apply keeps_ret.
  - apply keeps_bind; [apply Hf|intros y].
    apply keeps_bind; [apply IH|intros ys]. apply keeps_ret.
Qed.

Lemma keeps_catch_PlxScriptingError {A} (m h : M A) :
  keeps R m -> keeps R h -> keeps R (catch_PlxScriptingError m h).
Proof.
  intros Hm Hh s. unfold catch_PlxScriptingError. specialize (Hm s).
  destruct (m s) as [[e|a] s1]; simpl in *; [|exact Hm].
  destruct e; simpl; try exact Hm. etransitivity; [exact Hm|apply Hh].
Qed.

Lemma keeps_catch_AttributeError {A} (m h : M A) :
  keeps R m -> keeps R h -> keeps R (catch_AttributeError m h).
Proof.
  intros Hm Hh s. unfold catch_AttributeError. specialize (Hm s).
  destruct (m s) as [[e|a] s1]; simpl in *; [|exact Hm].
  destruct e; simpl; try exact Hm. etransitivity; [exact Hm|apply Hh].
Qed.

End Keeps.

Lemma keeps_weaken (R R' : State -> State -> Prop) {A} (m : M A) :
  (forall s s', R s s' -> R' s s') -> keeps R m -> keeps R' m.
Proof. intros HR Hm s. apply HR, Hm. Qed.

(** One step of a compositional [keeps] proof. *)
Ltac keeps_step :=
  lazymatch goal with
  | |- keeps _ (bind _ _) => apply keeps_bind; [typeclasses eauto|try assumption|intros ?]
  | |- keeps _ (ret _) => apply keeps_ret; typeclasses eauto
  | |- keeps _ (raise _) => apply keeps_raise; typeclasses eauto
  | |- keeps _ (lift _) => apply keeps_lift; typeclasses eauto
  | |- keeps _ get => apply keeps_get; typeclasses eauto
  | |- keeps _ (deref _) => apply keeps_deref; typeclasses eauto
  | |- keeps _ (mapM _ _) => apply keeps_mapM; [typeclasses eauto|intros ?]
  | |- keeps _ (match ?x with _ => _ end) => destruct x
  end.

Ltac keeps_go := repeat keeps_step.

(** ** Lookups keep what their parts keep *)

(** The requests a lookup makes for itself: named objects, property values
    and list queries. *)
Definition is_query (r : Request) : bool :=
  match r with
  | ReqNamedObjects _ | ReqPropertyValues _ _ _ | ReqList _ => true
  | _ => false
  end.

(** A relation kept by such a request, by the interpretation of the four
    kinds of response a lookup handles, by the assignment of an attribute
    cache and by [__get_with_cache] on each of the three caches is kept by
    every lookup, with the truth test of its phase key and the attribute
    lookup on the global object. *)
Section LookupFrame.
Context (env : Env) (R : State -> State -> Prop) (HR : PreOrder R).
Context (R_request : forall r, is_query r = true -> keeps R (request env r)).
Context (R_attributes : forall po, keeps R (get_object_attributes env po)).
Context (R_assign : forall self d, keeps R (assign_attr_cache self d)).
Context (R_named : forall r, keeps R (handle_namedobjects_response env r)).
Context (R_list : forall r, keeps R (handle_list_response env r)).
Context (R_props : forall l an ot, keeps R (handle_propertyvalues_response env l an ot)).
Context (R_globals : forall key f, keeps R f ->
           keeps R (__get_with_cache key globals_cache with_globals_cache f)).
Context (R_values : forall key f, keeps R f ->
           keeps R (__get_with_cache key values_cache with_values_cache f)).
Context (R_listables : forall key f, keeps R f ->
           keeps R (__get_with_cache key listables_cache with_listables_cache f)).

Lemma frame_guids_of objs : keeps R (guids_of objs).
Proof.
  induction objs as [|[po|] objs IH]; simpl; keeps_go.
Qed.

Lemma frame_get_named_object n : keeps R (get_named_object env n).
Proof.
  unfold get_named_object. apply R_globals.
  unfold __get_name_object_no_cache, request_namedobjects.
  keeps_go; auto; apply R_request; reflexivity.
Qed.

Lemma frame_call_listable_method p m a b pn :
  keeps R (call_listable_method env p m a b pn).
Proof.
  unfold call_listable_method. keeps_go. apply R_listables.
  unfold __call_listable_method_no_cache, request_list.
  keeps_go; auto; apply R_request; reflexivity.
Qed.

Lemma frame_len self : keeps R (len env self).
Proof.
  unfold len, __len__. keeps_go. apply frame_call_listable_method.
Qed.

Lemma frame_PlxProxyGlobalObject___getattr__ self n :
  keeps R (PlxProxyGlobalObject___getattr__ env self n).
Proof.
  assert (Hget : keeps R (PlxProxyGlobalObject__getattr env self n)).
  { unfold PlxProxyGlobalObject__getattr. keeps_go.
    apply keeps_catch_PlxScriptingError; [exact HR|apply frame_get_named_object|keeps_go]. }
  unfold PlxProxyGlobalObject___getattr__.
  apply keeps_catch_AttributeError; [exact HR|exact Hget|].
  unfold PlxProxyGlobalObject__ensure_cache_is_valid. keeps_go; auto.
Qed.

Lemma frame_first_plx_type objs : keeps R (first_plx_type env objs).
Proof.
  unfold first_plx_type. keeps_go. apply frame_PlxProxyGlobalObject___getattr__.
Qed.

Lemma frame_hash_phase_key ph : keeps R (hash_phase_key ph).
Proof. unfold hash_phase_key. keeps_go. Qed.

Section TruthTest.
Context (truth_test : nat -> M bool) (R_truth_test : forall ph, keeps R (truth_test ph)).

Lemma frame_props_no_cache_ objs pn ph :
  keeps R (__get_objects_property_no_cache_ env truth_test objs pn ph).
Proof.
  unfold __get_objects_property_no_cache_, request_propertyvalues.
  keeps_go; auto using frame_guids_of, frame_first_plx_type;
    apply R_request; reflexivity.
Qed.

Lemma frame_get_objects_property_ objs pn ph :
  keeps R (get_objects_property_ env truth_test objs pn ph).
Proof.
  unfold get_objects_property_.
  keeps_go; auto using frame_guids_of, frame_hash_phase_key, frame_props_no_cache_.
Qed.

Lemma frame_value_ self : keeps R (value_ env truth_test self).
Proof.
  unfold value_, _get_value_, get_object_property_.
  keeps_go; apply frame_get_objects_property_.
Qed.

End TruthTest.

Lemma frame_truth fuel x : keeps R (truth env fuel x).
Proof.
  revert x. induction fuel as [|fuel IH]; intros x; simpl;
    keeps_go; auto using frame_len, frame_value_.
Qed.

Lemma frame_bool_ self : keeps R (bool_ env self).
Proof. apply frame_truth. Qed.

Lemma frame_props_no_cache objs pn ph :
  keeps R (__get_objects_property_no_cache env objs pn ph).
Proof. apply frame_props_no_cache_, frame_bool_. Qed.

Lemma frame_get_objects_property objs pn ph :
  keeps R (get_objects_property env objs pn ph).
Proof. apply frame_get_objects_property_, frame_bool_. Qed.


Lemma frame_run_lookup l : keeps R (run_lookup env l).
Proof.
  destruct l as [n|objs pn ph|p m a b pn]; simpl.
  - apply frame_get_named_object.
  - apply frame_get_objects_property.
  - apply frame_call_listable_method.
Qed.

Lemma frame_run_lookups ls : keeps R (run_lookups env ls).
Proof.
  induction ls as [|l ls IH]; intros s; simpl; [reflexivity|].
  etransitivity; [apply (frame_run_lookup l s)|apply IH].
Qed.

End LookupFrame.

(** Requests made while a response is interpreted: the members of an
    owner and the names of an enumeration. *)
Definition is_aux (e : Event) : Prop :=
  match e with
  | Sent (ReqMembers _) | Sent (ReqEnumeration _) => True
  | _ => False
  end.

(** What interpreting a response may do to the session: allocate proxies,
    register them, and fetch members and enumerations.  The proxies that
    exist stay as they are and the query caches are not touched. *)
Record ext_gen (P : Event -> Prop) (s s' : State) : Prop := mk_ext {
  ext_heap : forall i p, heap s !! i = Some p -> heap s' !! i = Some p;
  ext_ids : proxy_object_cache s ⊆ proxy_object_cache s';
  ext_allow : allow_caching s' = allow_caching s;
  ext_globals : globals_cache s' = globals_cache s;
  ext_values : values_cache s' = values_cache s;
  ext_listables : listables_cache s' = listables_cache s;
  ext_reset : _proxies_to_reset s `prefix_of` _proxies_to_reset s';
  ext_log : exists evs, log s' = log s ++ evs /\ Forall P evs
}.
Arguments ext_heap {P s s'} _.
Arguments ext_ids {P s s'} _.
Arguments ext_allow {P s s'} _.
Arguments ext_globals {P s s'} _.
Arguments ext_values {P s s'} _.
Arguments ext_listables {P s s'} _.
Arguments ext_reset {P s s'} _.
Arguments ext_log {P s s'} _.

Abbreviation ext := (ext_gen is_aux).

(** The same when the request of a lookup is part of the computation. *)
Abbreviation ext_any := (ext_gen (fun _ => True)).

(** The same, with the identity cache unchanged. *)
Definition ext0 (s s' : State) : Prop :=
  ext s s' /\ proxy_object_cache s' = proxy_object_cache s.

#[local] Instance ext_preorder P : PreOrder (ext_gen P).
Proof.
  split.
  - intros s. split; auto; try reflexivity. exists []. rewrite app_nil_r. auto.
  - intros s1 s2 s3 [h1 i1 a1 g1 v1 l1 r1 [e1 [L1 F1]]] [h2 i2 a2 g2 v2 l2 r2 [e2 [L2 F2]]].
    split; auto; try congruence; try (etransitivity; eassumption).
    exists (e1 ++ e2). rewrite L2, L1, app_assoc. split; [reflexivity|].
    apply Forall_app; auto.
Qed.

#[local] Instance ext0_preorder : PreOrder ext0.
Proof.
  split.
  - intros s. split; reflexivity.
  - intros s1 s2 s3 [H1 E1] [H2 E2]. split; [etransitivity; eassumption|congruence].
Qed.

Lemma ext_length P s s' : ext_gen P s s' -> (length (heap s) <= length (heap s'))%nat.
Proof.
  intros H. destruct (length (heap s)) as [|n] eqn:E; [lia|].
  destruct (lookup_lt_is_Some_2 (heap s) n) as [p Hp]; [lia|].
  apply (ext_heap H) in Hp. apply lookup_lt_Some in Hp. lia.
Qed.

Section Interpretation.
Context (env : Env).

Lemma ext0_ext s s' : ext0 s s' -> ext s s'.
Proof. intros [H _]. exact H. Qed.

Lemma keeps_ext0_ext {A} (m : M A) : keeps ext0 m -> keeps ext m.
Proof. apply keeps_weaken, ext0_ext. Qed.

Lemma ext0_request r : is_aux (Sent r) -> keeps ext0 (request env r).
Proof.
  intros Hr s. unfold request. simpl. split; [split|]; simpl; auto; try reflexivity.
  exists [Sent r]. split; [reflexivity|]. constructor; auto.
Qed.

Lemma ext0_alloc p : keeps ext0 (alloc p).
Proof.
  intros s. unfold alloc. simpl. split; [split|]; simpl; auto; try reflexivity.
  - intros i q Hi. apply lookup_app_l_Some. exact Hi.
  - exists []. rewrite app_nil_r. auto.
Qed.

Lemma ext0_new_proxy c g t pn o : keeps ext0 (new_proxy c g t pn o).
Proof. apply ext0_alloc. Qed.

Lemma ext0_add_proxy_to_reset m : keeps ext0 (add_proxy_to_reset m).
Proof.
  intros s. unfold add_proxy_to_reset, modify. simpl.
  split; [split|]; simpl; auto; try reflexivity.
  - apply prefix_app_r. reflexivity.
  - exists []. rewrite app_nil_r. auto.
Qed.

Lemma ext0_set_last_response v : keeps ext0 (set_last_response v).
Proof.
  intros s. unfold set_last_response, modify. simpl.
  split; [split|]; simpl; auto; try reflexivity.
  exists []. rewrite app_nil_r. auto.
Qed.

Lemma ext0_set_enum_class n c :
  keeps ext0 (modify (fun s => with_proxy_enum_classes (<[n := c]> (_proxy_enum_classes s)) s)).
Proof.
  intros s. unfold modify. simpl.
  split; [split|]; simpl; auto; try reflexivity.
  exists []. rewrite app_nil_r. auto.
Qed.

Lemma ext0__handle_enumeration_request r : keeps ext0 (_handle_enumeration_request env r).
Proof. unfold _handle_enumeration_request. keeps_go. Qed.

Lemma ext0__create_proxy_enumeration g n : keeps ext0 (_create_proxy_enumeration env g n).
Proof.
  unfold _create_proxy_enumeration. keeps_go;
    auto using ext0_request, ext0__handle_enumeration_request, ext0_set_enum_class.
  apply ext0_request. exact I.
Qed.

Lemma ext0__create_plx_proxy_property g t l pn o :
  keeps ext0 (_create_plx_proxy_property env g t l pn o).
Proof.
  unfold _create_plx_proxy_property.
  keeps_go; auto using ext0_new_proxy, ext0__create_proxy_enumeration.
Qed.

(** A property proxy is a new object: its reference is beyond the heap it
    was created from, and it is the last object of the new heap. *)
Lemma new_proxy_fresh c g t pn o s id s' :
  new_proxy c g t pn o s = (inr id, s') ->
  id = length (heap s) /\ heap s' = heap s ++ [mkProxy c g t (Some []) o pn VNone]
  /\ proxy_object_cache s' = proxy_object_cache s.
Proof. unfold new_proxy, alloc. intros H. inversion H; subst. simpl. auto. Qed.

Lemma _create_plx_proxy_property_fresh g t l pn o s id s' :
  _create_plx_proxy_property env g t l pn o s = (inr id, s') ->
  (length (heap s) <= id)%nat /\ S id = length (heap s') /\
  exists c, heap s' !! id = Some (mkProxy c g t (Some []) o pn VNone).
Proof.
  assert (Hnew : forall c s id s', new_proxy c g t pn o s = (inr id, s') ->
            (length (heap s) <= id)%nat /\ S id = length (heap s') /\
            exists c, heap s' !! id = Some (mkProxy c g t (Some []) o pn VNone)).
  { intros c s0 id0 s0' H. apply new_proxy_fresh in H as (-> & Hh & _).
    rewrite Hh, length_app. simpl. split; [lia|]. split; [lia|].
    exists c. rewrite lookup_app_r, Nat.sub_diag by lia. reflexivity. }
  unfold _create_plx_proxy_property.
  destruct (String.eqb t TYPE_BOOLEAN); [apply Hnew|].
  destruct (startswith t ENUM).
  { unfold bind. pose proof (ext0__create_proxy_enumeration g t s) as [He _].
    destruct (_create_proxy_enumeration env g t s) as [[e|c] s1]; [discriminate|].
    simpl in He. intros H. apply Hnew in H as (H1 & H2 & H3).
    apply ext_length in He. split; [lia|]. auto. }
  repeat match goal with
         | |- context [if ?b then _ else _] => destruct b
         end; apply Hnew.
Qed.

Lemma ext_create_plx_proxy_object g t l pn o :
  keeps ext (create_plx_proxy_object env g t l pn o).
Proof.
  intros s. unfold create_plx_proxy_object. unfold bind at 1. simpl.
  destruct (proxy_object_cache s !! g) eqn:Hg; [reflexivity|].
  unfold bind at 1.
  match goal with |- context [match ?m s with _ => _ end] => set (inner := m) end.
  assert (Hin : keeps ext0 inner).
  { subst inner. destruct o; [apply ext0__create_plx_proxy_property|].
    keeps_go; auto using ext0_new_proxy, ext0_add_proxy_to_reset. }
  specialize (Hin s). destruct (inner s) as [[e|id] s1]; simpl in *.
  - apply Hin.
  - destruct Hin as [He Hc]. unfold bind, modify, ret. simpl.
    etransitivity; [exact He|]. split; simpl; auto; try reflexivity.
    + apply insert_subseteq. rewrite Hc. exact Hg.
    + exists []. rewrite app_nil_r. auto.
Qed.

Lemma ext__create_proxy_object_ fetch ro pn o :
  (forall x, keeps ext (fetch x)) -> keeps ext (_create_proxy_object_ env fetch ro pn o).
Proof.
  intros Hf. unfold _create_proxy_object_, get_proxy_object_if_exists.
  keeps_go; auto using ext_create_plx_proxy_object.
Qed.

Lemma ext_members_commands po l d : keeps ext (members_commands po l d).
Proof.
  revert d. induction l as [|x l IH]; intros d; simpl; [keeps_go|].
  destruct x; try (apply keeps_raise; typeclasses eauto). apply IH.
Qed.

Lemma ext_members_properties po pd names d :
  keeps ext (members_properties env po pd names d).
Proof.
  revert d. induction names as [|n names IH]; intros d; simpl; keeps_go; auto.
  apply ext__create_proxy_object_. intros x. keeps_go.
Qed.

Lemma ext_handle_members_response r po : keeps ext (handle_members_response env r po).
Proof.
  unfold handle_members_response.
  keeps_go; auto using ext_members_commands, ext_members_properties.
Qed.

Lemma ext_get_object_attributes po : keeps ext (get_object_attributes env po).
Proof.
  unfold get_object_attributes, request_members. keeps_go; auto using ext_handle_members_response.
  apply keeps_ext0_ext, ext0_request. exact I.
Qed.

Lemma ext__create_proxy_object ro pn o : keeps ext (_create_proxy_object env ro pn o).
Proof.
  apply ext__create_proxy_object_. intros x. keeps_go. apply ext_get_object_attributes.
Qed.

Lemma ext_create_one ro : keeps ext (create_one env ro).
Proof. unfold create_one. destruct ro; keeps_go; apply ext__create_proxy_object. Qed.

Lemma ext__create_proxies_from_returned_objects ros allow :
  keeps ext (_create_proxies_from_returned_objects env ros allow).
Proof.
  unfold _create_proxies_from_returned_objects. keeps_go; auto using ext_create_one.
Qed.

Lemma ext_unsuccessful r : keeps ext (unsuccessful r).
Proof. unfold unsuccessful. keeps_go. Qed.

Lemma ext_set_last_response v : keeps ext (set_last_response v).
Proof. apply keeps_ext0_ext, ext0_set_last_response. Qed.

Lemma ext__handle_successful_command r : keeps ext (_handle_successful_command env r).
Proof.
  unfold _handle_successful_command.
  keeps_go; auto using ext__create_proxies_from_returned_objects.
Qed.

Lemma ext_handle_namedobjects_response r : keeps ext (handle_namedobjects_response env r).
Proof.
  unfold handle_namedobjects_response.
  keeps_go; auto using ext__create_proxies_from_returned_objects, ext_unsuccessful,
    ext_set_last_response.
Qed.

Lemma ext_handle_commands_response r : keeps ext (handle_commands_response env r).
Proof.
  unfold handle_commands_response.
  keeps_go; auto using ext__handle_successful_command, ext_unsuccessful,
    ext_set_last_response.
Qed.

Lemma ext_handle_list_response r : keeps ext (handle_list_response env r).
Proof.
  unfold handle_list_response.
  keeps_go; auto using ext__create_proxies_from_returned_objects, ext_unsuccessful.
Qed.

Lemma ext_handle_selection_response r : keeps ext (handle_selection_response env r).
Proof.
  unfold handle_selection_response.
  keeps_go; auto using ext__create_proxies_from_returned_objects.
Qed.

Lemma ext__create_stagedIP_proxy ro an : keeps ext (_create_stagedIP_proxy env ro an).
Proof.
  unfold _create_stagedIP_proxy.
  apply keeps_bind; [typeclasses eauto|apply keeps_lift; typeclasses eauto|intros gv].
  apply keeps_bind; [typeclasses eauto|apply keeps_lift; typeclasses eauto|intros g0].
  apply keeps_bind; [typeclasses eauto|apply keeps_lift; typeclasses eauto|intros tv].
  apply keeps_bind; [typeclasses eauto|apply keeps_lift; typeclasses eauto|intros t0].
  intros s. unfold bind at 1.
  pose proof (ext0__create_plx_proxy_property g0 t0 false an None s) as [He _].
  destruct (_create_plx_proxy_property env g0 t0 false an None s) as [[e|id] s1] eqn:Hc;
    simpl in *; [exact He|].
  apply _create_plx_proxy_property_fresh in Hc as (Hid & _ & _).
  unfold bind, lift. destruct (getitem ro JSON_VALUE) as [e|v]; simpl; [exact He|].
  destruct He as [hh ii aa gg vv ll rr [evs [L F]]].
  split; simpl; auto.
  - intros j p Hj. rewrite list_lookup_alter_ne; [auto|].
    apply lookup_lt_Some in Hj. lia.
  - exists evs. auto.
Qed.

Lemma ext__get_single_propertyvalues j an ot :
  keeps ext (_get_single_propertyvalues env j an ot).
Proof.
  unfold _get_single_propertyvalues.
  keeps_go; auto using ext__create_proxies_from_returned_objects,
    ext__create_stagedIP_proxy, ext__create_proxy_object.
Qed.

Lemma ext_handle_propertyvalues_response l an ot :
  keeps ext (handle_propertyvalues_response env l an ot).
Proof.
  unfold handle_propertyvalues_response. keeps_go. apply ext__get_single_propertyvalues.
Qed.

End Interpretation.

(** * Invalidation *)

Definition is_project (m : Mutation) : bool :=
  match m with Project _ => true | _ => false end.

Definition project_request (c : ProjectCommand) : Request :=
  match c with
  | New => ReqEnvironment PLX_CMD_NEW ""
  | Recover => ReqEnvironment PLX_CMD_RECOVER ""
  | Open filename => ReqEnvironment PLX_CMD_OPEN filename
  | Close => ReqEnvironment PLX_CMD_CLOSE ""
  end.

Definition caches_cold (s : State) : Prop :=
  globals_cache s = ∅ /\ values_cache s = ∅ /\ listables_cache s = ∅.

(** Every request in [evs] comes after an invalidation in [evs]. *)
Definition invalidated_first (evs : list Event) : Prop :=
  forall pre r post, evs = pre ++ Sent r :: post -> Invalidate ∈ pre.

Definition is_error {A} (r : Exn + A) : Prop :=
  match r with inl _ => True | inr _ => False end.

(** The ordering as the specification words it: the caches are invalidated
    before the request of the operation is sent, so that a failed operation
    leaves them cold. *)
Definition invalidates_before_gateway (env : Env) (m : Mutation) (s : State) : Prop :=
  let r := run_mutation env m s in
  (exists evs, log (snd r) = log s ++ evs /\ invalidated_first evs) /\
  (is_error (fst r) -> caches_cold (snd r)).

(** The heap after [reset_caches]. *)
Definition reset_heap (l : list nat) (h : list Proxy) : list Proxy :=
  foldl (fun h m => alter (set_attr_cache None) m h) h l.

Definition reset_state (s : State) : State :=
  with_log (log s ++ [Invalidate])
    (with_listables_cache ∅ (with_values_cache ∅ (with_globals_cache ∅
       (with_heap (reset_heap (_proxies_to_reset s) (heap s)) s)))).

(** What the rest of a mutating operation may do once the caches are
    reset: the log grows, cold caches stay cold, a proxy whose attribute
    cache was dropped stays as it is, and the identity cache only grows. *)
(** Two versions of a proxy that differ at most in the attribute cache. *)
Definition same_identity (q q' : Proxy) : Prop :=
  p_class q' = p_class q /\ _guid q' = _guid q /\ _plx_type q' = _plx_type q /\
  _owner q' = _owner q /\ _property_name q' = _property_name q /\
  _stagedIP_value q' = _stagedIP_value q.

Record mut_rel (s s' : State) : Prop := mk_mut_rel {
  mut_log : exists evs, log s' = log s ++ evs;
  mut_cold : caches_cold s -> caches_cold s';
  mut_frozen : forall i q, heap s !! i = Some q -> _attr_cache q = None ->
                           heap s' !! i = Some q;
  mut_heap : forall i q, heap s !! i = Some q ->
                         exists q', heap s' !! i = Some q' /\ same_identity q q';
  mut_ids : proxy_object_cache s ⊆ proxy_object_cache s';
  mut_allow : allow_caching s' = allow_caching s;
  mut_reset : _proxies_to_reset s `prefix_of` _proxies_to_reset s'
}.

Definition log_grows (s s' : State) : Prop := exists evs, log s' = log s ++ evs.

#[local] Instance mut_rel_preorder : PreOrder mut_rel.
Proof.
  split.
  - intros s. split; auto; try reflexivity.
    + exists []. rewrite app_nil_r. auto.
    + intros i q Hq. exists q. split; [exact Hq|]. repeat split.
  - intros s1 s2 s3 [[e1 L1] c1 f1 h1 i1 a1 r1] [[e2 L2] c2 f2 h2 i2 a2 r2].
    split; auto; try congruence; try (etransitivity; eassumption).
    + exists (e1 ++ e2). rewrite L2, L1, app_assoc. reflexivity.
    + intros i q Hq. destruct (h1 i q Hq) as (q1 & Hq1 & I1).
      destruct (h2 i q1 Hq1) as (q2 & Hq2 & I2). exists q2. split; [exact Hq2|].
      unfold same_identity in *. intuition congruence.
Qed.

#[local] Instance log_grows_preorder : PreOrder log_grows.
Proof.
  split.
  - intros s. exists []. rewrite app_nil_r. auto.
  - intros s1 s2 s3 [e1 L1] [e2 L2]. exists (e1 ++ e2).
    rewrite L2, L1, app_assoc. reflexivity.
Qed.

Lemma ext_mut_rel s s' : ext s s' -> mut_rel s s'.
Proof.
  intros [h i a g v l r [evs [L F]]]. split; auto.
  - exists evs. exact L.
  - intros (G & V & Li). unfold caches_cold. rewrite g, v, l. auto.
  - intros j q Hq. exists q. split; [auto|]. repeat split.
Qed.

Lemma ext_log_grows s s' : ext s s' -> log_grows s s'.
Proof. intros [h i a g v l r [evs [L F]]]. exists evs. exact L. Qed.

Lemma mut_rel_log_grows s s' : mut_rel s s' -> log_grows s s'.
Proof. intros H. apply (mut_log _ _ H). Qed.

Lemma invalidated_first_cons evs : invalidated_first (Invalidate :: evs).
Proof.
  intros pre r post H. destruct pre as [|e pre]; simpl in H; [discriminate|].
  injection H as -> _. left.
Qed.

Lemma reset_heap_lookup l h i :
  reset_heap l h !! i =
  (if bool_decide (i ∈ l) then set_attr_cache None else id) <$> h !! i.
Proof.
  unfold reset_heap. revert h. induction l as [|m l IH]; intros h; simpl.
  - destruct (h !! i); reflexivity.
  - rewrite IH. destruct (decide (i = m)) as [->|Hne].
    + rewrite list_lookup_alter_eq.
      assert (bool_decide (m ∈ m :: l) = true) as -> by (apply bool_decide_eq_true_2; left).
      destruct (h !! m) as [p|]; simpl; [|destruct (bool_decide _); reflexivity].
      destruct (bool_decide (m ∈ l)); reflexivity.
    + rewrite list_lookup_alter_ne by congruence.
      assert (bool_decide (i ∈ m :: l) = bool_decide (i ∈ l)) as ->; [|reflexivity].
      apply bool_decide_ext. rewrite elem_of_cons. intuition congruence.
Qed.

Lemma reset_proxies_eq l s :
  reset_proxies l s = (inr tt, with_heap (reset_heap l (heap s)) s).
Proof.
  revert s. induction l as [|m l IH]; intros s; simpl.
  - destruct s; reflexivity.
  - unfold bind, reset_cache, update_proxy, modify. simpl. rewrite IH. reflexivity.
Qed.

Lemma reset_caches_eq s : reset_caches s = (inr tt, reset_state s).
Proof.
  unfold reset_caches, bind, get. simpl. rewrite reset_proxies_eq. reflexivity.
Qed.

Lemma reset_state_cold s : caches_cold (reset_state s).
Proof. repeat split. Qed.

Lemma set_attr_cache_None_id q : _attr_cache q = None -> set_attr_cache None q = q.
Proof. destruct q; simpl; intros ->; reflexivity. Qed.

Lemma mut_rel_reset_caches : keeps mut_rel reset_caches.
Proof.
  intros s. rewrite reset_caches_eq. simpl. split; simpl; auto; try reflexivity.
  - exists [Invalidate]. reflexivity.
  - intros _. apply reset_state_cold.
  - intros i q Hi Hq. rewrite reset_heap_lookup, Hi. simpl.
    destruct (bool_decide _); simpl; [rewrite set_attr_cache_None_id|]; auto.
  - intros i q Hi. rewrite reset_heap_lookup, Hi. simpl.
    destruct (bool_decide _); simpl; eexists; (split; [reflexivity|]); repeat split.
Qed.

Section Mutations.
Context (env : Env).

Lemma mut_rel_request r : keeps mut_rel (request env r).
Proof.
  intros s. unfold request. simpl. split; simpl; auto; try reflexivity.
  - exists [Sent r]. reflexivity.
  - intros i q Hq. exists q. split; [exact Hq|]. repeat split.
Qed.

Lemma mut_rel_create_method_call_cmd t n ps : keeps mut_rel (create_method_call_cmd env t n ps).
Proof. unfold create_method_call_cmd. keeps_go. Qed.

Lemma mut_rel_call_commands cs : keeps mut_rel (call_commands env cs).
Proof.
  unfold call_commands, request_commands.
  keeps_go; auto using mut_rel_reset_caches, mut_rel_request.
Qed.

Lemma mut_rel_call_and_handle_command c : keeps mut_rel (call_and_handle_command env c).
Proof.
  unfold call_and_handle_command, call_and_handle_commands.
  keeps_go; auto using mut_rel_call_commands.
  eapply keeps_weaken; [apply ext_mut_rel|apply ext_handle_commands_response].
Qed.

Lemma mut_rel_call_plx_object_method po n ps :
  keeps mut_rel (call_plx_object_method env po n ps).
Proof.
  unfold call_plx_object_method.
  keeps_go; auto using mut_rel_reset_caches, mut_rel_create_method_call_cmd,
    mut_rel_call_and_handle_command.
Qed.

(** After a method call, a property set or a batch of commands the log
    starts with the invalidation, the query caches are empty, and every
    proxy registered as volatile has lost its attribute cache. *)
Lemma command_resets m s :
  is_project m = false ->
  let s' := snd (run_mutation env m s) in
  (exists evs, log s' = log s ++ Invalidate :: evs) /\
  caches_cold s' /\
  (forall i p, i ∈ _proxies_to_reset s -> heap s !! i = Some p ->
               heap s' !! i = Some (set_attr_cache None p)).
Proof.
  intros Hm.
  assert (Hgen : forall (rest : M PyVal), keeps mut_rel rest ->
            let s' := snd (bind reset_caches (fun _ => rest) s) in
            (exists evs, log s' = log s ++ Invalidate :: evs) /\
            caches_cold s' /\
            (forall i p, i ∈ _proxies_to_reset s -> heap s !! i = Some p ->
                         heap s' !! i = Some (set_attr_cache None p))).
  { intros rest Hrest. unfold bind. rewrite reset_caches_eq.
    specialize (Hrest (reset_state s)). destruct Hrest as [[evs L] C F _ _ _ _].
    split; [|split].
    - exists evs. rewrite L. simpl. rewrite <- app_assoc. reflexivity.
    - apply C, reset_state_cold.
    - intros i p Hi Hp. apply F; [|reflexivity].
      simpl. rewrite reset_heap_lookup, Hp. simpl.
      rewrite bool_decide_eq_true_2 by exact Hi. reflexivity. }
  destruct m as [po n ps|pp pv|cs|c]; simpl in *; try discriminate.
  - apply Hgen. unfold call_plx_object_method.
    keeps_go; auto using mut_rel_create_method_call_cmd, mut_rel_call_and_handle_command.
  - apply Hgen. apply mut_rel_call_plx_object_method.
  - apply Hgen. unfold request_commands. keeps_go. apply mut_rel_request.
Qed.

End Mutations.

Lemma pair_eta {A B} (x : A * B) (a : A) : fst x = a -> x = (a, snd x).
Proof. destruct x. simpl. intros ->. reflexivity. Qed.

(** Equations of the monad, at a state. *)
Lemma bind_assoc {A B C} (m : M A) (k : A -> M B) (k' : B -> M C) s :
  bind (bind m k) k' s = bind m (fun a => bind (k a) k') s.
Proof. unfold bind. destruct (m s) as [[e|a] s1]; reflexivity. Qed.

Lemma bind_ret {A B} (a : A) (k : A -> M B) s : bind (ret a) k s = k a s.
Proof. reflexivity. Qed.

Lemma bind_get {B} (k : State -> M B) s : bind get k s = k s s.
Proof. reflexivity. Qed.

Lemma bind_deref {B} id p (k : Proxy -> M B) s :
  heap s !! id = Some p -> bind (deref id) k s = k p s.
Proof. intros H. unfold bind, deref. rewrite H. reflexivity. Qed.

Lemma bind_lift_inr {A B} (a : A) (k : A -> M B) s : bind (lift (inr a)) k s = k a s.
Proof. reflexivity. Qed.

Lemma bind_lift_inl {A B} e (k : A -> M B) s : bind (lift (inl e)) k s = (inl e, s).
Proof. reflexivity. Qed.

Section Volatile.
Context (env : Env).

Lemma log_grows_request r : keeps log_grows (request env r).
Proof. intros s. exists [Sent r]. reflexivity. Qed.

Lemma log_grows_update_proxy id f : keeps log_grows (update_proxy id f).
Proof. intros s. exists []. simpl. rewrite app_nil_r. reflexivity. Qed.

(** A request at the head of a computation is the next entry of the log. *)
Lemma bind_request_log {B} r (k : PyVal -> M B) s :
  (forall v, keeps log_grows (k v)) ->
  exists evs, log (snd (bind (request env r) k s)) = log s ++ Sent r :: evs.
Proof.
  intros Hk. unfold bind, request.
  destruct (gateway env (requests_of (log s)) r) as [e|v]; simpl.
  - exists []. reflexivity.
  - destruct (Hk v (with_log (log s ++ [Sent r]) s)) as [evs L].
    exists evs. rewrite L. simpl. rewrite <- app_assoc. reflexivity.
Qed.

Lemma get_object_attributes_log po p s :
  heap s !! po = Some p ->
  exists evs, log (snd (get_object_attributes env po s)) =
              log s ++ Sent (ReqMembers [_guid p]) :: evs.
Proof.
  intros Hp. unfold get_object_attributes. rewrite (bind_deref _ _ _ _ Hp).
  apply bind_request_log. intros v. keeps_go.
  eapply keeps_weaken; [apply ext_log_grows|apply ext_handle_members_response].
Qed.

(** Classes that inherit [PlxProxyObject._ensure_cache_is_valid]: the
    object proxies that are not listable, materials among them, and the
    property proxies that are neither listable nor object-valued. *)
Definition ensures_as_PlxProxyObject (c : ProxyClass) : bool :=
  match c with
  | PlxProxyGlobalObject => false
  | _ => negb (is_PlxProxyListable c) && negb (is_PlxProxyIPObject c)
  end.

Lemma attr_cache_PlxProxyObject m q s :
  heap s !! m = Some q ->
  ensures_as_PlxProxyObject (p_class q) = true ->
  attr_cache env m s =
  bind (PlxProxyObject__ensure_cache_is_valid env m)
       (fun _ => bind (deref m) (fun p => ret (_attr_cache p))) s.
Proof.
  intros Hm Hc. unfold attr_cache, _ensure_cache_is_valid.
  rewrite (bind_deref _ _ _ _ Hm).
  destruct (p_class q) eqn:E; try discriminate Hc;
    rewrite bind_assoc, (bind_deref _ _ _ _ Hm), E; reflexivity.
Qed.

(** The [attr_cache] property of such a proxy whose attribute cache is
    [None] or empty starts with a members request for that proxy. *)
Lemma attr_cache_refetch m q s :
  heap s !! m = Some q ->
  ensures_as_PlxProxyObject (p_class q) = true ->
  (_attr_cache q = None \/ _attr_cache q = Some []) ->
  exists evs, log (snd (attr_cache env m s)) = log s ++ Sent (ReqMembers [_guid q]) :: evs.
Proof.
  intros Hm Hc Hq. rewrite (attr_cache_PlxProxyObject m q s Hm Hc).
  unfold PlxProxyObject__ensure_cache_is_valid.
  rewrite bind_assoc, (bind_deref _ _ _ _ Hm).
  assert (Hgoal : exists evs,
    log (snd (bind (bind (get_object_attributes env m) (fun d => assign_attr_cache m d))
                (fun _ => bind (deref m) (fun p => ret (_attr_cache p))) s)) =
    log s ++ Sent (ReqMembers [_guid q]) :: evs).
  { rewrite bind_assoc. unfold get_object_attributes at 1.
    rewrite bind_assoc, (bind_deref _ _ _ _ Hm), bind_assoc.
    apply bind_request_log. intros v. keeps_go.
    - eapply keeps_weaken; [apply ext_log_grows|apply ext_handle_members_response].
    - apply log_grows_update_proxy. }
  destruct Hq as [-> | ->]; exact Hgoal.
Qed.

(** The [attr_cache] property of such a proxy whose attribute cache is not
    empty returns it and sends nothing. *)
Lemma attr_cache_kept m q d s :
  heap s !! m = Some q ->
  ensures_as_PlxProxyObject (p_class q) = true ->
  _attr_cache q = Some d -> d <> [] ->
  attr_cache env m s = (inr (Some d), s).
Proof.
  intros Hm Hc Hq Hd. rewrite (attr_cache_PlxProxyObject m q s Hm Hc).
  unfold PlxProxyObject__ensure_cache_is_valid.
  rewrite bind_assoc, (bind_deref _ _ _ _ Hm), Hq.
  destruct d as [|x d]; [congruence|].
  rewrite bind_ret, (bind_deref _ _ _ _ Hm), Hq. reflexivity.
Qed.

(** A project-level command, by the answer of the connection. *)
Lemma run_project_eq c s :
  run_project env c s =
  let sent := with_log (log s ++ [Sent (project_request c)]) s in
  match gateway env (requests_of (log s)) (project_request c) with
  | inr v => (inr v, if truthy v
                     then with_proxy_object_cache ∅ (reset_state sent)
                     else sent)
  | inl e => (inl e, sent)
  end.
Proof.
  assert (H : forall cmd f,
    environment_command env cmd f s =
    let sent := with_log (log s ++ [Sent (ReqEnvironment cmd f)]) s in
    match gateway env (requests_of (log s)) (ReqEnvironment cmd f) with
    | inr v => (inr v, if truthy v
                       then with_proxy_object_cache ∅ (reset_state sent)
                       else sent)
    | inl e => (inl e, sent)
    end).
  { intros cmd f.
    unfold environment_command, request_environment, request, bind. simpl.
    destruct (gateway env (requests_of (log s)) (ReqEnvironment cmd f)) as [e|v]; simpl;
      [reflexivity|].
    destruct (truthy v); simpl; [|reflexivity].
    rewrite reset_caches_eq. reflexivity. }
  destruct c; simpl; apply H.
Qed.

(** ** C9 *)

(** The property as the specification words it: the volatile proxy has no
    attribute cache once the mutating operation has ended. *)
Definition volatile_dropped (op : Mutation) (s : State) (m : nat) : Prop :=
  exists q, heap (snd (run_mutation env op s)) !! m = Some q /\ _attr_cache q = None.

(** C9 as amended. For every material proxy registered as volatile
    ([PlxProxyMaterial] registers itself in [_proxies_to_reset]): after a
    method call, a property set or a batch of commands the proxy keeps its
    GUID and all its other fields but its attribute cache is dropped
    ([None]), whether the operation succeeded or raised, and the next read
    of its [attr_cache] starts with a members request for its GUID.  After
    a project-level command (new, recover, open, close) the same holds when
    the connection answered with a non-empty result; when the connection
    raised or answered with an empty result nothing was reset: the proxy is
    as it was, and a non-empty attribute cache is returned by the next read
    without any request. *)
Theorem C9_volatile_reset (s : State) (m : nat) (p : Proxy) :
  m ∈ _proxies_to_reset s ->
  heap s !! m = Some p ->
  p_class p = PlxProxyObjectMaterial ->
  let dropped s' :=
    heap s' !! m = Some (set_attr_cache None p) /\
    exists evs, log (snd (attr_cache env m s')) = log s' ++ Sent (ReqMembers [_guid p]) :: evs in
  let kept s' :=
    heap s' !! m = Some p /\
    forall d, _attr_cache p = Some d -> d <> [] -> attr_cache env m s' = (inr (Some d), s') in
  (forall op, is_project op = false -> dropped (snd (run_mutation env op s))) /\
  (forall c,
     let s' := snd (run_mutation env (Project c) s) in
     match gateway env (requests_of (log s)) (project_request c) with
     | inr v => if truthy v then dropped s' else kept s'
     | inl _ => kept s'
     end).
Proof.
  intros Hin Hp Hc dropped kept.
  assert (Hens : forall q, p_class q = p_class p ->
                           ensures_as_PlxProxyObject (p_class q) = true).
  { intros q ->. rewrite Hc. reflexivity. }
  assert (Hdropped : forall s', heap s' !! m = Some (set_attr_cache None p) -> dropped s').
  { intros s' Hs'. split; [exact Hs'|].
    apply (attr_cache_refetch m (set_attr_cache None p) s' Hs');
      [apply Hens; reflexivity|left; reflexivity]. }
  assert (Hkept : forall evs, kept (with_log (log s ++ evs) s)).
  { intros evs. split; [exact Hp|].
    intros d Hd Hne. apply (attr_cache_kept m p d); auto. }
  split.
  - intros op Hop. apply Hdropped.
    destruct (command_resets env op s Hop) as (_ & _ & Hreset). apply Hreset; assumption.
  - intros c s'. subst s'. change (run_mutation env (Project c) s) with (run_project env c s).
    rewrite run_project_eq. cbv zeta.
    destruct (gateway env (requests_of (log s)) (project_request c)) as [e|v];
      [apply Hkept|].
    simpl. destruct (truthy v); [|apply Hkept].
    apply Hdropped. simpl. rewrite reset_heap_lookup, Hp. simpl.
    rewrite bool_decide_eq_true_2 by exact Hin. reflexivity.
Qed.

End Volatile.

(** ** C1 *)

(** C1 as amended. A method call, a property set and a batch of commands
    invalidate the three query caches before their request is sent, and the
    caches are cold when the operation ends, with or without an exception.
    A project-level command (new, recover, open, close) sends its request
    first: when the connection returns a non-empty reason, the caches are
    invalidated afterwards and the identity cache is cleared; when the
    connection raises or returns an empty result, nothing is invalidated
    and the state is the one before the command, but for the log. *)
Theorem C1_invalidation_order (env : Env) (s : State) :
  (forall m, is_project m = false ->
     invalidates_before_gateway env m s /\ caches_cold (snd (run_mutation env m s))) /\
  (forall c,
     let r := run_mutation env (Project c) s in
     let sent := with_log (log s ++ [Sent (project_request c)]) s in
     match gateway env (requests_of (log s)) (project_request c) with
     | inr v =>
         fst r = inr v /\
         if truthy v
         then log (snd r) = log s ++ [Sent (project_request c); Invalidate] /\
              caches_cold (snd r) /\ proxy_object_cache (snd r) = ∅
         else snd r = sent
     | inl e => fst r = inl e /\ snd r = sent
     end).
Proof.
  split.
  - intros m Hm. destruct (command_resets env m s Hm) as ([evs L] & C & _).
    split; [split|exact C].
    + exists (Invalidate :: evs). split; [exact L|apply invalidated_first_cons].
    + intros _. exact C.
  - intros c.
    assert (H : forall cmd f,
      let r := environment_command env cmd f s in
      let sent := with_log (log s ++ [Sent (ReqEnvironment cmd f)]) s in
      match gateway env (requests_of (log s)) (ReqEnvironment cmd f) with
      | inr v =>
          fst r = inr v /\
          if truthy v
          then log (snd r) = log s ++ [Sent (ReqEnvironment cmd f); Invalidate] /\
               caches_cold (snd r) /\ proxy_object_cache (snd r) = ∅
          else snd r = sent
      | inl e => fst r = inl e /\ snd r = sent
      end).
    { intros cmd f. unfold environment_command, request_environment, request, bind. simpl.
      destruct (gateway env (requests_of (log s)) (ReqEnvironment cmd f)) as [e|v]; simpl;
        [auto|].
      destruct (truthy v); simpl; [|auto].
      rewrite reset_caches_eq. simpl. rewrite <- app_assoc. repeat split. }
    destruct c; simpl; apply H.
Qed.

(** * The identity cache *)

(** At most one proxy on the heap for a token. *)
Definition one_handle_per_token (s : State) : Prop :=
  forall i j p q, heap s !! i = Some p -> heap s !! j = Some q ->
                  _guid p = _guid q -> i = j.

Section Identity.
Context (env : Env).

Lemma create_plx_proxy_object_hit guid t l pn o h s :
  proxy_object_cache s !! guid = Some h ->
  create_plx_proxy_object env guid t l pn o s = (inr h, s).
Proof. intros H. unfold create_plx_proxy_object. rewrite bind_get, H. reflexivity. Qed.

(** A token that is not in the map gets a new object, which is in the map
    when [create_plx_proxy_object] returns. *)
Lemma create_plx_proxy_object_miss guid t l pn o h s s' :
  proxy_object_cache s !! guid = None ->
  create_plx_proxy_object env guid t l pn o s = (inr h, s') ->
  (length (heap s) <= h)%nat /\
  proxy_object_cache s' = <[guid := h]> (proxy_object_cache s) /\
  exists p, heap s' !! h = Some p /\ _guid p = guid /\ _plx_type p = t /\
            _attr_cache p = Some [] /\ _owner p = o.
Proof.
  intros Hg. unfold create_plx_proxy_object. rewrite bind_get, Hg.
  destruct o as [o|].
  - unfold bind at 1.
    pose proof (ext0__create_plx_proxy_property env guid t l pn (Some o) s) as [_ Hc].
    destruct (_create_plx_proxy_property env guid t l pn (Some o) s) as [[e|id] s1] eqn:E;
      [discriminate|].
    simpl in Hc. apply _create_plx_proxy_property_fresh in E as (H1 & _ & c & H3).
    unfold bind, modify, ret. simpl. intros H. inversion H; subst; clear H. simpl.
    rewrite Hc. split; [exact H1|]. split; [reflexivity|]. eauto 10.
  - assert (Hlast : forall (h0 : list Proxy) (x : Proxy),
              (h0 ++ [x]) !! length h0 = Some x)
      by (intros h0 x; rewrite lookup_app_r, Nat.sub_diag by lia; reflexivity).
    destruct (String.eqb t "PlxValues") eqn:E1;
      [|destruct (String.eqb t "SoilMat") eqn:E2; [|destruct l]];
      unfold bind, new_proxy, alloc, add_proxy_to_reset, modify, ret; simpl;
      rewrite ?E1, ?E2; simpl;
      intros H; inversion H; subst; clear H; simpl;
      (split; [lia|]); (split; [reflexivity|]);
      eexists; (split; [apply Hlast|]); simpl; auto.
Qed.

(** ** C2 *)

(** C2 as amended. For every token, [create_plx_proxy_object] called with a
    token that is in the map returns the handle of the map and changes
    nothing, whatever type tag, listable flag, property name and owner come
    with the call.  Called with a token that is not in the map it returns a
    new object, registered under the token when the call returns; as long as
    the map is not cleared (it only grows), every later call with that
    token returns this same handle.  Handles built outside
    [create_plx_proxy_object] are not covered: see the counterexample. *)
Theorem C2_resolve_identity (s : State) (guid : string) :
  (forall h t l pn o,
      proxy_object_cache s !! guid = Some h ->
      create_plx_proxy_object env guid t l pn o s = (inr h, s)) /\
  (forall t l pn o h s',
      proxy_object_cache s !! guid = None ->
      create_plx_proxy_object env guid t l pn o s = (inr h, s') ->
      heap s !! h = None /\
      (exists p, heap s' !! h = Some p /\ _guid p = guid) /\
      proxy_object_cache s' !! guid = Some h /\
      forall s'' t' l' pn' o',
        proxy_object_cache s' ⊆ proxy_object_cache s'' ->
        create_plx_proxy_object env guid t' l' pn' o' s'' = (inr h, s'')).
Proof.
  split.
  - intros h t l pn o H. apply create_plx_proxy_object_hit. exact H.
  - intros t l pn o h s' Hg Hc.
    destruct (create_plx_proxy_object_miss _ _ _ _ _ _ _ _ Hg Hc) as (Hlen & Hcache & p & Hp & Hgp & _).
    assert (Hreg : proxy_object_cache s' !! guid = Some h)
      by (rewrite Hcache; apply lookup_insert_eq).
    split; [apply lookup_ge_None; lia|]. split; [eauto|]. split; [exact Hreg|].
    intros s'' t' l' pn' o' Hsub. apply create_plx_proxy_object_hit.
    eapply lookup_weaken; eassumption.
Qed.

End Identity.

(** * Scenarios *)

(** [str] on the parameters of a command line. *)
Definition repr_str (v : PyVal) : string :=
  match v with
  | VNone => "None"
  | VBool true => "True"
  | VBool false => "False"
  | VInt z => pretty z
  | VStr s => s
  | _ => "<object>"
  end.

(** The state of a new [Server]: the global proxy is the only object. *)
Definition global_proxy : Proxy :=
  mkProxy PlxProxyGlobalObject "" "" (Some []) None None VNone.

Definition init_state (allow : bool) : State :=
  mkState [global_proxy] ∅ ∅ allow ∅ ∅ ∅ [] (VStr "") [].

Definition feedback_ok : PyVal :=
  VDict [("commands", VList [VDict [("feedback",
     VDict [("success", VBool true); ("extrainfo", VStr "OK");
            ("returnedobjects", VList [])])]])].

(** No scenario below reads the attribute cache of a listable proxy or of
    an object-valued property: the two methods that the environment gives
    are never run there. *)
Definition no_ensure : nat -> M unit := fun _ => ret tt.

(** A connection that is down. *)
Definition env_down : Env :=
  mkEnv (fun _ _ => inl (PlxScriptingError "Service Unavailable")) (fun _ => None) repr_str no_ensure no_ensure.

Definition st_warm : State :=
  mkState [global_proxy] ∅ ∅ true {[ "Points" := VInt 4 ]} ∅ ∅ [] (VStr "") [].

(** A staged user feature ["O"], a phase ["P"], and the staged value of the
    property ["EA"] of the feature in that phase. *)
Definition staged_answer : PyVal :=
  VDict [("queries", VDict [("O", VDict [("properties",
     VDict [("EA", VDict [("guid", VStr "S1"); ("type", VStr "Number");
                          ("value", VInt 5)])])])])].

Definition env_staged : Env :=
  mkEnv (fun _ r =>
           match r with
           | ReqPropertyValues ["O"] (Some "EA") "P" => inr staged_answer
           | ReqCommands _ => inr feedback_ok
           | _ => inl (PlxScriptingError "Bad Request")
           end)
        (fun _ => None) repr_str no_ensure no_ensure.

Definition st_staged : State :=
  snd (create_plx_proxy_object env_staged "P" "Phase" false None None
    (snd (create_plx_proxy_object env_staged "O" "staged.Plate" false None None
            (init_state true)))).

Definition staged_read1 : (Exn + PyVal) * State :=
  get_object_property env_staged (Some 1%nat) (Some "EA") (Some 2%nat) st_staged.
Definition staged_mutation : (Exn + PyVal) * State :=
  call_commands env_staged ["gotostages"] (snd staged_read1).
Definition staged_read2 : (Exn + PyVal) * State :=
  get_object_property env_staged (Some 1%nat) (Some "EA") (Some 2%nat) (snd staged_mutation).

(** A soil material ["M1"] whose attributes have been fetched. *)
Definition env_ok : Env :=
  mkEnv (fun _ r =>
           match r with
           | ReqCommands _ => inr feedback_ok
           | _ => inl (PlxScriptingError "Bad Request")
           end)
        (fun _ => None) repr_str no_ensure no_ensure.

Definition material : Proxy :=
  mkProxy PlxProxyObjectMaterial "M1" "SoilMat"
    (Some [("setproperties", VMethod 1 "setproperties")]) None None VNone.

Definition st_material : State :=
  snd (assign_attr_cache 1 [("setproperties", VMethod 1 "setproperties")]
    (snd (create_plx_proxy_object env_ok "M1" "SoilMat" false None None (init_state true)))).

(** C1, counterexample: with the connection down, [new] sends its request
    without any invalidation before it and raises; the named-object cache
    still holds its entry. *)
Lemma C1_counterexample :
  ~ invalidates_before_gateway env_down (Project New) st_warm /\
  globals_cache (snd (run_mutation env_down (Project New) st_warm)) !! "Points"
    = Some (VInt 4).
Proof.
  split; [|reflexivity].
  intros [[evs [L Hinv]] _]. simpl in L. subst evs.
  specialize (Hinv [] _ [] eq_refl). inversion Hinv.
Qed.

(** C9, counterexample: with the connection down, [new] raises; the
    registered material still has its attribute cache, and the next read
    of [attr_cache] returns it without a request. *)
Lemma C9_counterexample :
  1%nat ∈ _proxies_to_reset st_material /\
  is_error (fst (run_mutation env_down (Project New) st_material)) /\
  ~ volatile_dropped env_down (Project New) st_material 1 /\
  let s' := snd (run_mutation env_down (Project New) st_material) in
  attr_cache env_down 1 s' = (inr (Some [("setproperties", VMethod 1 "setproperties")]), s').
Proof.
  split; [vm_compute; left|]. split; [exact I|]. split.
  - intros (q & Hq & Hnone). vm_compute in Hq. injection Hq as <-. discriminate Hnone.
  - vm_compute. reflexivity.
Qed.

(** C9, an instance: a batch of commands drops the attribute cache of the
    registered material; a project-level command that the connection
    refuses leaves it in place. *)
Lemma C9_witness :
  (let s' := snd (run_mutation env_ok (Commands ["gotomesh"]) st_material) in
   heap s' !! 1%nat = Some (set_attr_cache None material) /\
   exists evs, log (snd (attr_cache env_ok 1 s')) =
               log s' ++ Sent (ReqMembers [_guid material]) :: evs) /\
  (let s' := snd (run_mutation env_ok (Project Close) st_material) in
   heap s' !! 1%nat = Some material /\
   forall d, _attr_cache material = Some d -> d <> [] ->
             attr_cache env_ok 1 s' = (inr (Some d), s')).
Proof.
  assert (Hin : 1%nat ∈ _proxies_to_reset st_material) by (vm_compute; left).
  pose proof (C9_volatile_reset env_ok st_material 1 material Hin eq_refl eq_refl) as H.
  cbv zeta in H. destruct H as [H1 H2]. split.
  - apply (H1 (Commands ["gotomesh"])). reflexivity.
  - exact (H2 Close).
Defined.

(** C2, counterexample: the same phase-indexed read before and after a
    command gives two proxies for the token ["S1"], while the identity
    cache has not been cleared. *)
Lemma C2_counterexample :
  fst staged_read1 = inr (VRef 3) /\
  fst staged_read2 = inr (VRef 4) /\
  _guid <$> heap (snd staged_read2) !! 3%nat = Some "S1" /\
  _guid <$> heap (snd staged_read2) !! 4%nat = Some "S1" /\
  proxy_object_cache (snd staged_read2) = proxy_object_cache st_staged /\
  ~ one_handle_per_token (snd staged_read2).
Proof.
  repeat split; try reflexivity.
  intros H. specialize (H 3%nat 4%nat _ _ eq_refl eq_refl eq_refl). discriminate.
Qed.

(** C2, an instance: the line ["L1"] is resolved twice, the second time
    with other metadata. *)
Lemma C2_witness :
  exists h s',
    create_plx_proxy_object env_ok "L1" "Line" true None None (init_state true) = (inr h, s') /\
    create_plx_proxy_object env_ok "L1" "Point" false (Some "x") (Some 0%nat) s' = (inr h, s').
Proof.
  pose (r := create_plx_proxy_object env_ok "L1" "Line" true None None (init_state true)).
  exists 1%nat, (snd r). split; [reflexivity|].
  destruct (C2_resolve_identity env_ok (init_state true) "L1") as [_ Hmiss].
  destruct (Hmiss "Line" true None None 1%nat (snd r) eq_refl eq_refl) as (_ & _ & _ & Hsame).
  apply Hsame. reflexivity.
Defined.

(** * The query caches *)

(** What a lookup may do to the session: what interpreting a response
    does, new entries in the query caches, and a new attribute cache for
    the global object.  Every proxy keeps the fields that make its
    identity, and a cache entry that was there at the start is still
    there. *)
Record read_rel (s s' : State) : Prop := mk_read_rel {
  read_heap : forall i p, heap s !! i = Some p ->
                          exists p', heap s' !! i = Some p' /\ same_identity p p';
  read_ids : proxy_object_cache s ⊆ proxy_object_cache s';
  read_allow : allow_caching s' = allow_caching s;
  read_globals : globals_cache s ⊆ globals_cache s';
  read_values : values_cache s ⊆ values_cache s';
  read_listables : listables_cache s ⊆ listables_cache s';
  read_log : exists evs, log s' = log s ++ evs
}.

#[local] Instance read_rel_preorder : PreOrder read_rel.
Proof.
  split.
  - intros s. split; auto; try reflexivity.
    + intros i p Hp. exists p. split; [exact Hp|repeat split].
    + exists []. rewrite app_nil_r. auto.
  - intros s1 s2 s3 [h1 i1 a1 g1 v1 l1 [e1 L1]] [h2 i2 a2 g2 v2 l2 [e2 L2]].
    split; auto; try congruence; try (etransitivity; eassumption).
    + intros i p Hp. destruct (h1 i p Hp) as (p1 & Hp1 & I1).
      destruct (h2 i p1 Hp1) as (p2 & Hp2 & I2). exists p2. split; [exact Hp2|].
      unfold same_identity in *. intuition congruence.
    + exists (e1 ++ e2). rewrite L2, L1, app_assoc. reflexivity.
Qed.

Lemma ext_read_rel P s s' : ext_gen P s s' -> read_rel s s'.
Proof.
  intros [h i a g v l r [evs [L F]]]. split; auto; try (rewrite ?g, ?v, ?l; reflexivity).
  - intros j p Hp. exists p. split; [auto|repeat split].
  - exists evs. exact L.
Qed.

Section Caches.
Context {K : Type} `{Countable K}.
Context (cache : State -> gmap K PyVal) (with_cache : gmap K PyVal -> State -> State).
Context (cache_with : forall c s, cache (with_cache c s) = c).
Context (allow_with : forall c s, allow_caching (with_cache c s) = allow_caching s).
Context (log_with : forall c s, log (with_cache c s) = log s).
Context (insert_read_rel : forall s0 s k v,
           read_rel s0 s -> cache s0 !! k = None ->
           read_rel s0 (with_cache (<[k := v]> (cache s)) s)).

Lemma get_with_cache_hit key f s v :
  allow_caching s = true -> cache s !! key = Some v ->
  __get_with_cache key cache with_cache f s = (inr v, s).
Proof.
  intros Ha Hc. unfold __get_with_cache. rewrite bind_get, Ha, Hc. reflexivity.
Qed.

Lemma get_with_cache_miss key f s :
  (allow_caching s = false \/ cache s !! key = None) ->
  __get_with_cache key cache with_cache f s =
  bind f (fun result =>
    bind get (fun s' =>
      bind (if allow_caching s'
            then modify (fun s => with_cache (<[key := result]> (cache s)) s)
            else ret tt) (fun _ => ret result))) s.
Proof.
  intros Hm. unfold __get_with_cache. rewrite bind_get.
  destruct (allow_caching s); [|reflexivity].
  destruct Hm as [Hm|Hm]; [discriminate|]. rewrite Hm. reflexivity.
Qed.

(** Whatever the uncached function stored on its way, the result is under
    the key when the lookup returns. *)
Lemma get_with_cache_stores key f s v s' :
  keeps read_rel f -> allow_caching s = true ->
  __get_with_cache key cache with_cache f s = (inr v, s') ->
  cache s' !! key = Some v /\ allow_caching s' = true.
Proof.
  intros Hf Ha. destruct (cache s !! key) as [w|] eqn:Hc.
  - rewrite (get_with_cache_hit _ _ _ _ Ha Hc). intros E. inversion E; subst. auto.
  - rewrite get_with_cache_miss by auto. unfold bind at 1.
    specialize (Hf s). destruct (f s) as [[e|r] s1]; [discriminate|]. simpl in Hf.
    rewrite bind_get. rewrite (read_allow _ _ Hf), Ha.
    unfold bind, modify, ret. simpl. intros E. inversion E; subst.
    rewrite cache_with, allow_with, (read_allow _ _ Hf). split; [apply lookup_insert_eq|exact Ha].
Qed.

Lemma read_rel_get_with_cache key f :
  keeps read_rel f -> keeps read_rel (__get_with_cache key cache with_cache f).
Proof.
  intros Hf s. destruct (allow_caching s) eqn:Ha.
  - destruct (cache s !! key) as [w|] eqn:Hc.
    + rewrite (get_with_cache_hit _ _ _ _ Ha Hc). reflexivity.
    + rewrite get_with_cache_miss by auto. unfold bind at 1.
      specialize (Hf s). destruct (f s) as [[e|r] s1]; simpl in *; [exact Hf|].
      rewrite bind_get, (read_allow _ _ Hf), Ha. unfold bind, modify, ret. simpl.
      apply insert_read_rel; assumption.
  - rewrite get_with_cache_miss by auto. unfold bind at 1.
    specialize (Hf s). destruct (f s) as [[e|r] s1]; simpl in *; [exact Hf|].
    rewrite bind_get, (read_allow _ _ Hf), Ha. simpl. exact Hf.
Qed.

(** A miss sends the requests of [f] and nothing else. *)
Lemma get_with_cache_miss_log key f s :
  (allow_caching s = false \/ cache s !! key = None) ->
  log (snd (__get_with_cache key cache with_cache f s)) = log (snd (f s)).
Proof.
  intros Hm. rewrite get_with_cache_miss by exact Hm. unfold bind at 1.
  destruct (f s) as [[e|r] s1]; simpl; [reflexivity|].
  rewrite bind_get. destruct (allow_caching s1); simpl; [apply log_with|reflexivity].
Qed.

Lemma get_with_cache_miss_fst key f s :
  (allow_caching s = false \/ cache s !! key = None) ->
  fst (__get_with_cache key cache with_cache f s) = fst (f s).
Proof.
  intros Hm. rewrite get_with_cache_miss by exact Hm. unfold bind at 1.
  destruct (f s) as [[e|r] s1]; simpl; [reflexivity|].
  rewrite bind_get. destruct (allow_caching s1); reflexivity.
Qed.

(** With caching disabled a lookup is its uncached function: the cache is
    neither read nor written. *)
Lemma get_with_cache_disabled key f s :
  keeps read_rel f -> allow_caching s = false ->
  __get_with_cache key cache with_cache f s = f s.
Proof.
  intros Hf Ha. rewrite get_with_cache_miss by auto. unfold bind at 1.
  specialize (Hf s). destruct (f s) as [[e|r] s1]; [reflexivity|]. simpl in Hf.
  rewrite bind_get, (read_allow _ _ Hf), Ha. reflexivity.
Qed.

End Caches.

(** ** Lookups *)

(** [po._guid] for the proxies of a list, on a heap. *)
Fixpoint guids (h : list Proxy) (proxy_objects : list (option nat)) : option (list string) :=
  match proxy_objects with
  | [] => Some []
  | None :: _ => None
  | Some po :: rest =>
      match h !! po, guids h rest with
      | Some p, Some gs => Some (_guid p :: gs)
      | _, _ => None
      end
  end.

(** A phase key that can be hashed: none, or a proxy of a class that does
    not define [__eq__]. *)
Definition hashable (h : list Proxy) (phase_object : option nat) : bool :=
  match phase_object with
  | None => true
  | Some ph =>
      match h !! ph with
      | Some p => negb (is_unhashable (p_class p))
      | None => false
      end
  end.

(** A phase key whose truth test asks nothing: none, or an object proxy
    that is neither a property nor listable. *)
Definition plain_phase (h : list Proxy) (phase_object : option nat) : bool :=
  match phase_object with
  | None => true
  | Some ph =>
      match h !! ph with
      | Some p => negb (is_PlxProxyObjectProperty (p_class p) || is_PlxProxyListable (p_class p))
      | None => false
      end
  end.

Definition phase_guid (h : list Proxy) (phase_object : option nat) : string :=
  match phase_object with
  | None => ""
  | Some ph => match h !! ph with Some p => _guid p | None => "" end
  end.

(** The first owner, if there is one, is not the global object: its
    [_plx_type] is an instance attribute. *)
Definition plain_owner (h : list Proxy) (proxy_objects : list (option nat)) : bool :=
  match proxy_objects with
  | Some po :: _ =>
      match h !! po with
      | Some p => match p_class p with PlxProxyGlobalObject => false | _ => true end
      | None => false
      end
  | _ => true
  end.

(** A lookup that asks nothing but its own request and what the
    interpretation of the response asks. *)
Definition plain_lookup (h : list Proxy) (l : Lookup) : bool :=
  match l with
  | PropertyValues proxy_objects _ phase_object =>
      plain_phase h phase_object && plain_owner h proxy_objects
  | _ => true
  end.

(** The request that a lookup sends first when it misses its cache: for a
    named object, for a collection method, and for property values with a
    plain phase key and a plain first owner.  (With another phase key the
    truth test of the key comes first; with the global object as first
    owner the attribute lookup on it follows.) *)
Definition lookup_request (s : State) (l : Lookup) : option Request :=
  match l with
  | NamedObject object_name => Some (ReqNamedObjects [object_name])
  | PropertyValues proxy_objects prop_name phase_object =>
      if plain_phase (heap s) phase_object && plain_owner (heap s) proxy_objects then
        match guids (heap s) proxy_objects with
        | Some gs => Some (ReqPropertyValues gs prop_name (phase_guid (heap s) phase_object))
        | None => None
        end
      else None
  | CollectionMethod proxy_listable method_name startindex stopindex property_name =>
      match heap s !! proxy_listable with
      | Some p =>
          Some (ReqList [mkListQuery (_guid p) method_name startindex stopindex
                           (match property_name with Some n => Some [n] | None => None end)])
      | None => None
      end
  end.

(** The structural key of a lookup has the value [v] in its cache. *)
Definition cached_result (l : Lookup) (v : PyVal) (s : State) : Prop :=
  match l with
  | NamedObject object_name => globals_cache s !! object_name = Some v
  | PropertyValues proxy_objects prop_name phase_object =>
      hashable (heap s) phase_object = true /\
      exists gs, guids (heap s) proxy_objects = Some gs /\
                 values_cache s !! (str_join " " gs, prop_name, phase_object) = Some v
  | CollectionMethod proxy_listable method_name startindex stopindex property_name =>
      exists p, heap s !! proxy_listable = Some p /\
                listables_cache s !! (_guid p, method_name, startindex, stopindex, property_name)
                = Some v
  end.

(** Nothing is served from the cache for the key of a lookup. *)
Definition uncached (l : Lookup) (s : State) : Prop :=
  allow_caching s = false \/
  match l with
  | NamedObject object_name => globals_cache s !! object_name = None
  | PropertyValues proxy_objects prop_name phase_object =>
      forall gs, guids (heap s) proxy_objects = Some gs ->
                 values_cache s !! (str_join " " gs, prop_name, phase_object) = None
  | CollectionMethod proxy_listable method_name startindex stopindex property_name =>
      forall p, heap s !! proxy_listable = Some p ->
                listables_cache s !! (_guid p, method_name, startindex, stopindex, property_name)
                = None
  end.

(** The gateway calls of a run: the requests in its part of the log. *)
Definition gateway_calls (s s' : State) : nat :=
  (length (requests_of (log s')) - length (requests_of (log s)))%nat.

(** The function that a lookup hands to [__get_with_cache]. *)
Definition uncached_function (env : Env) (l : Lookup) : M PyVal :=
  match l with
  | NamedObject object_name => __get_name_object_no_cache env object_name
  | PropertyValues proxy_objects prop_name phase_object =>
      __get_objects_property_no_cache env proxy_objects prop_name phase_object
  | CollectionMethod proxy_listable method_name startindex stopindex property_name =>
      __call_listable_method_no_cache env proxy_listable method_name startindex stopindex
        property_name
  end.

(** The key of a lookup can be built and looked up: the owners, or the
    collection, are there, and the phase key can be hashed when the cache
    is consulted. *)
Definition keyed (s : State) (l : Lookup) : Prop :=
  match l with
  | NamedObject _ => True
  | PropertyValues proxy_objects _ phase_object =>
      guids (heap s) proxy_objects <> None /\
      (allow_caching s = true -> hashable (heap s) phase_object = true)
  | CollectionMethod proxy_listable _ _ _ _ => heap s !! proxy_listable <> None
  end.

(** A mutating operation that reaches [reset_caches]: a method call, a
    property set or a batch of commands, always; a project-level command
    when the connection answered with a non-empty result. *)
Definition invalidates (env : Env) (m : Mutation) (s : State) : Prop :=
  is_project m = false \/
  exists v, fst (run_mutation env m s) = inr v /\ truthy v = true.

Lemma guids_of_spec objs s :
  match guids (heap s) objs with
  | Some gs => guids_of objs s = (inr gs, s)
  | None => exists e, guids_of objs s = (inl e, s)
  end.
Proof.
  induction objs as [|[po|] objs IH]; simpl; [reflexivity| |eauto].
  unfold bind, deref. destruct (heap s !! po) as [p|]; [|eauto].
  destruct (guids (heap s) objs) as [gs|].
  - rewrite IH. reflexivity.
  - destruct IH as [e ->]. eauto.
Qed.

Lemma guids_mono h h' objs gs :
  (forall i p, h !! i = Some p -> exists p', h' !! i = Some p' /\ same_identity p p') ->
  guids h objs = Some gs -> guids h' objs = Some gs.
Proof.
  intros Hh. revert gs. induction objs as [|[po|] objs IH]; simpl; intros gs; auto.
  destruct (h !! po) as [p|] eqn:E; [|discriminate].
  destruct (Hh _ _ E) as (p' & -> & Hi).
  destruct (guids h objs) as [gs'|]; [|discriminate]. rewrite (IH _ eq_refl).
  destruct Hi as (_ & -> & _). auto.
Qed.

Lemma hashable_mono h h' ph :
  (forall i p, h !! i = Some p -> exists p', h' !! i = Some p' /\ same_identity p p') ->
  hashable h ph = true -> hashable h' ph = true.
Proof.
  intros Hh. destruct ph as [ph|]; simpl; [|auto].
  destruct (h !! ph) as [p|] eqn:E; [|discriminate].
  destruct (Hh _ _ E) as (p' & -> & Hi). destruct Hi as (-> & _). auto.
Qed.

Lemma plain_hashable h ph : plain_phase h ph = true -> hashable h ph = true.
Proof.
  destruct ph as [ph|]; simpl; [|auto].
  destruct (h !! ph) as [p|]; [|auto]. destruct (p_class p); simpl; auto.
Qed.

Lemma hash_phase_key_spec ph s :
  if hashable (heap s) ph then hash_phase_key ph s = (inr tt, s)
  else exists e, hash_phase_key ph s = (inl e, s).
Proof.
  destruct ph as [ph|]; simpl; [|reflexivity].
  unfold bind, deref. destruct (heap s !! ph) as [p|]; simpl; [|eauto].
  destruct (is_unhashable (p_class p)); simpl; eauto.
Qed.

Section KeepsAny.
Context (R : State -> State -> Prop) (HR : PreOrder R).

Lemma keeps_guids_of objs : keeps R (guids_of objs).
Proof.
  intros s. pose proof (guids_of_spec objs s) as H.
  destruct (guids (heap s) objs); [rewrite H|destruct H as [e ->]]; reflexivity.
Qed.

End KeepsAny.

Section Lookups.
Context (env : Env).

Lemma ext_ext_any s s' : ext s s' -> ext_any s s'.
Proof.
  intros [h i a g v l r [evs [L F]]]. split; auto. exists evs. split; [exact L|].
  eapply Forall_impl; [exact F|auto].
Qed.

Lemma ext_any_request r : keeps ext_any (request env r).
Proof.
  intros s. unfold request. simpl. split; simpl; auto; try reflexivity.
  exists [Sent r]. split; [reflexivity|]. constructor; auto.
Qed.

Lemma ext_any_name_no_cache n : keeps ext_any (__get_name_object_no_cache env n).
Proof.
  unfold __get_name_object_no_cache, request_namedobjects.
  keeps_go; [apply ext_any_request|].
  eapply keeps_weaken; [apply ext_ext_any|apply ext_handle_namedobjects_response].
Qed.

Lemma ext_any_list_no_cache p m a b pn :
  keeps ext_any (__call_listable_method_no_cache env p m a b pn).
Proof.
  unfold __call_listable_method_no_cache, request_list.
  keeps_go; [apply ext_any_request|].
  eapply keeps_weaken; [apply ext_ext_any|apply ext_handle_list_response].
Qed.

(** The truth test of a plain phase key is [True], and asks nothing. *)
Lemma truth_plain fuel ph s :
  plain_phase (heap s) (Some ph) = true ->
  truth env fuel (VRef ph) s = (inr true, s).
Proof.
  simpl. destruct (heap s !! ph) as [p|] eqn:Ep; [|discriminate].
  rewrite negb_true_iff, orb_false_iff. intros [Hprop Hlist].
  destruct fuel as [|fuel]; simpl; rewrite (bind_deref _ _ _ _ Ep), Hprop, Hlist; reflexivity.
Qed.

Lemma insert_globals s0 s k v :
  read_rel s0 s -> globals_cache s0 !! k = None ->
  read_rel s0 (with_globals_cache (<[k := v]> (globals_cache s)) s).
Proof.
  intros [h i a g vs l L] Hk. split; simpl; auto.
  apply map_subseteq_spec. intros j x Hj. destruct (decide (j = k)) as [->|Hne].
  - congruence.
  - rewrite lookup_insert_ne by congruence. eapply lookup_weaken; eassumption.
Qed.

Lemma insert_values s0 s k v :
  read_rel s0 s -> values_cache s0 !! k = None ->
  read_rel s0 (with_values_cache (<[k := v]> (values_cache s)) s).
Proof.
  intros [h i a g vs l L] Hk. split; simpl; auto.
  apply map_subseteq_spec. intros j x Hj. destruct (decide (j = k)) as [->|Hne].
  - congruence.
  - rewrite lookup_insert_ne by congruence. eapply lookup_weaken; eassumption.
Qed.

Lemma insert_listables s0 s k v :
  read_rel s0 s -> listables_cache s0 !! k = None ->
  read_rel s0 (with_listables_cache (<[k := v]> (listables_cache s)) s).
Proof.
  intros [h i a g vs l L] Hk. split; simpl; auto.
  apply map_subseteq_spec. intros j x Hj. destruct (decide (j = k)) as [->|Hne].
  - congruence.
  - rewrite lookup_insert_ne by congruence. eapply lookup_weaken; eassumption.
Qed.

Lemma read_rel_name_no_cache n : keeps read_rel (__get_name_object_no_cache env n).
Proof. eapply keeps_weaken; [apply ext_read_rel|apply ext_any_name_no_cache]. Qed.

Lemma read_rel_list_no_cache p m a b pn :
  keeps read_rel (__call_listable_method_no_cache env p m a b pn).
Proof. eapply keeps_weaken; [apply ext_read_rel|apply ext_any_list_no_cache]. Qed.

Lemma read_rel_request r : keeps read_rel (request env r).
Proof. eapply keeps_weaken; [apply ext_read_rel|apply ext_any_request]. Qed.

Lemma read_rel_assign_attr_cache self d : keeps read_rel (assign_attr_cache self d).
Proof.
  intros s. unfold assign_attr_cache, update_proxy, modify. simpl.
  split; simpl; auto; try reflexivity.
  - intros i p Hp. destruct (decide (i = self)) as [->|Hne].
    + rewrite list_lookup_alter_eq, Hp. simpl. eexists. split; [reflexivity|repeat split].
    + rewrite list_lookup_alter_ne by congruence. exists p. split; [exact Hp|repeat split].
  - exists []. rewrite app_nil_r. reflexivity.
Qed.

Lemma read_rel_ext {A} (m : M A) : keeps ext m -> keeps read_rel m.
Proof. apply keeps_weaken, ext_read_rel. Qed.

Lemma read_rel_props_no_cache objs pn ph :
  keeps read_rel (__get_objects_property_no_cache env objs pn ph).
Proof.
  apply (frame_props_no_cache env read_rel _);
    auto using read_rel_request, read_rel_assign_attr_cache, read_rel_ext,
      ext_get_object_attributes, ext_handle_namedobjects_response, ext_handle_list_response,
      ext_handle_propertyvalues_response;
    intros key f Hf; apply read_rel_get_with_cache;
    auto using insert_globals, insert_values, insert_listables.
Qed.

Lemma read_rel_run_lookup l : keeps read_rel (run_lookup env l).
Proof.
  apply (frame_run_lookup env read_rel _);
    auto using read_rel_request, read_rel_assign_attr_cache, read_rel_ext,
      ext_get_object_attributes, ext_handle_namedobjects_response, ext_handle_list_response,
      ext_handle_propertyvalues_response;
    intros key f Hf; apply read_rel_get_with_cache;
    auto using insert_globals, insert_values, insert_listables.
Qed.


Lemma read_rel_run_lookups ls : keeps read_rel (run_lookups env ls).
Proof.
  induction ls as [|l ls IH]; intros s; simpl; [reflexivity|].
  etransitivity; [apply (read_rel_run_lookup l s)|apply IH].
Qed.

Lemma bind_guids_of_None {B} objs (k : list string -> M B) s :
  guids (heap s) objs = None -> exists e, bind (guids_of objs) k s = (inl e, s).
Proof.
  intros Hgs. unfold bind. pose proof (guids_of_spec objs s) as H.
  rewrite Hgs in H. destruct H as [e ->]. eauto.
Qed.

Lemma bind_hash_phase_key {B} ph (k : unit -> M B) s :
  (allow_caching s = true -> hashable (heap s) ph = true) ->
  bind (if allow_caching s then hash_phase_key ph else ret tt) k s = k tt s.
Proof.
  intros Hh. unfold bind. destruct (allow_caching s); [|reflexivity].
  pose proof (hash_phase_key_spec ph s) as H. rewrite (Hh eq_refl) in H. rewrite H.
  reflexivity.
Qed.

Lemma bind_guids_of {B} objs gs (k : list string -> M B) s :
  guids (heap s) objs = Some gs -> bind (guids_of objs) k s = k gs s.
Proof.
  intros Hgs. unfold bind. pose proof (guids_of_spec objs s) as H.
  rewrite Hgs in H. rewrite H. reflexivity.
Qed.

(** A request at the head of an interpretation is the next entry of the
    log; the entries after it are requests for members or enumerations. *)
Lemma bind_request_aux {B} r (k : PyVal -> M B) s :
  (forall v, keeps ext (k v)) ->
  exists aux, log (snd (bind (request env r) k s)) = log s ++ Sent r :: aux /\
              Forall is_aux aux.
Proof.
  intros Hk. unfold bind, request.
  destruct (gateway env (requests_of (log s)) r) as [e|v]; simpl.
  - exists []. split; [reflexivity|constructor].
  - destruct (ext_log (Hk v (with_log (log s ++ [Sent r]) s))) as [evs [L F]].
    exists evs. rewrite L. simpl. rewrite <- app_assoc. auto.
Qed.

(** What [__get_objects_property_no_cache] does with the response. *)
Definition props_tail (objs : list (option nat)) (pn : option string) (gs : list string)
    (response : PyVal) : M PyVal :=
  response_list <-
    match gs with
    | [g] =>
        q <- lift (getitem response JSON_QUERIES) ;;
        r <- lift (getitem q g) ;;
        ret [r]
    | _ =>
        match gs with
        | [] => ret []
        | _ => q <- lift (getitem response JSON_QUERIES) ;;
               lift (indexed_responses q 0 gs)
        end
    end ;;
  owner_type <- first_plx_type env objs ;;
  handle_propertyvalues_response env response_list pn owner_type.

(** With a plain phase key the truth test asks nothing: the uncached
    function starts with its request. *)
Lemma props_no_cache_plain objs pn ph gs s :
  plain_phase (heap s) ph = true ->
  guids (heap s) objs = Some gs ->
  __get_objects_property_no_cache env objs pn ph s
  = bind (request env (ReqPropertyValues gs pn (phase_guid (heap s) ph)))
         (props_tail objs pn gs) s.
Proof.
  intros Hph Hgs. unfold __get_objects_property_no_cache, __get_objects_property_no_cache_.
  assert (Htruth : (match ph with Some ph' => bool_ env ph' | None => ret false end) s
                   = (inr (match ph with Some _ => true | None => false end), s)).
  { destruct ph as [ph'|]; [|reflexivity]. apply truth_plain. exact Hph. }
  unfold bind at 1. rewrite Htruth. rewrite (bind_guids_of _ _ _ _ Hgs).
  unfold request_propertyvalues.
  destruct ph as [ph|]; simpl in *; [|reflexivity].
  destruct (heap s !! ph) as [pp|] eqn:Epp; [|discriminate].
  rewrite bind_assoc, (bind_deref _ _ _ _ Epp). reflexivity.
Qed.

(** The type of the first owner is read after the request: with a plain
    first owner that asks nothing, on every heap that extends the one the
    lookup started from. *)
Definition plain_rel (P : Event -> Prop) (objs : list (option nat)) (s s' : State) : Prop :=
  plain_owner (heap s) objs = true ->
  ext_gen P s s' /\ plain_owner (heap s') objs = true.

#[local] Instance plain_rel_preorder P objs : PreOrder (plain_rel P objs).
Proof.
  split.
  - intros s Hs. split; [reflexivity|exact Hs].
  - intros s1 s2 s3 H1 H2 Hs. destruct (H1 Hs) as [E1 G1]. destruct (H2 G1) as [E2 G2].
    split; [etransitivity; eassumption|exact G2].
Qed.

Section PlainOwner.
Context (P : Event -> Prop) (HP : forall e, is_aux e -> P e).

Lemma ext_plain_rel objs s s' : ext s s' -> plain_rel P objs s s'.
Proof.
  intros He Hs. split.
  - destruct He as [h i a g v l r [evs [L F]]]. split; auto. exists evs. split; [exact L|].
    eapply Forall_impl; [exact F|exact HP].
  - destruct objs as [|[po|] objs]; simpl in *; auto.
    destruct (heap s !! po) as [p|] eqn:Ep; [|discriminate].
    rewrite (ext_heap He _ _ Ep). exact Hs.
Qed.

Lemma plain_rel_first_plx_type objs : keeps (plain_rel P objs) (first_plx_type env objs).
Proof.
  intros s Hs.
  assert (E : snd (first_plx_type env objs s) = s).
  { destruct objs as [|[po|] objs]; simpl in *; try reflexivity.
    destruct (heap s !! po) as [p|] eqn:Ep; [|discriminate].
    rewrite (bind_deref _ _ _ _ Ep). destruct (p_class p); try discriminate; reflexivity. }
  rewrite E. split; [reflexivity|exact Hs].
Qed.

Lemma plain_rel_props_tail objs pn gs response :
  keeps (plain_rel P objs) (props_tail objs pn gs response).
Proof.
  unfold props_tail. keeps_go; try apply plain_rel_first_plx_type;
    (eapply keeps_weaken; [apply ext_plain_rel|apply ext_handle_propertyvalues_response]).
Qed.

End PlainOwner.

Lemma bind_request_plain objs pn gs r s :
  plain_owner (heap s) objs = true ->
  exists aux, log (snd (bind (request env r) (props_tail objs pn gs) s))
              = log s ++ Sent r :: aux /\ Forall is_aux aux.
Proof.
  intros Ho. unfold bind, request.
  destruct (gateway env (requests_of (log s)) r) as [e|v]; simpl.
  - exists []. split; [reflexivity|constructor].
  - destruct (plain_rel_props_tail is_aux (fun _ H => H) objs pn gs v
                (with_log (log s ++ [Sent r]) s) Ho) as [He _].
    destruct (ext_log He) as [evs [L F]].
    exists evs. rewrite L. simpl. rewrite <- app_assoc. auto.
Qed.

(** On a plain lookup the uncached function of the property values leaves
    the query caches alone. *)
Lemma ext_any_props_no_cache_plain objs pn ph s :
  plain_phase (heap s) ph = true -> plain_owner (heap s) objs = true ->
  ext_any s (snd (__get_objects_property_no_cache env objs pn ph s)).
Proof.
  intros Hph Ho.
  destruct (guids (heap s) objs) as [gs|] eqn:Egs.
  - rewrite (props_no_cache_plain _ _ _ _ _ Hph Egs).
    assert (Hk : keeps (plain_rel (fun _ => True) objs)
                   (bind (request env (ReqPropertyValues gs pn (phase_guid (heap s) ph)))
                         (props_tail objs pn gs))).
    { apply keeps_bind; [typeclasses eauto| |intros v; apply plain_rel_props_tail; auto].
      intros s0 Hs0. split; [apply ext_any_request|exact Hs0]. }
    apply (Hk s Ho).
  - unfold __get_objects_property_no_cache, __get_objects_property_no_cache_.
    assert (Htruth : (match ph with Some ph' => bool_ env ph' | None => ret false end) s
                     = (inr (match ph with Some _ => true | None => false end), s)).
    { destruct ph as [ph'|]; [|reflexivity]. apply truth_plain. exact Hph. }
    unfold bind at 1. rewrite Htruth. unfold bind at 1.
    pose proof (guids_of_spec objs s) as Hgs. rewrite Egs in Hgs. destruct Hgs as [e ->].
    reflexivity.
Qed.

(** A successful lookup with caching enabled leaves its result under its
    key. *)
Lemma run_lookup_stores l s v s1 :
  allow_caching s = true -> run_lookup env l s = (inr v, s1) ->
  cached_result l v s1 /\ allow_caching s1 = true.
Proof.
  intros Ha Hrun. pose proof (read_rel_run_lookup l s) as Hrel.
  rewrite Hrun in Hrel. simpl in Hrel.
  destruct l as [n|objs pn ph|p m a b pn]; simpl in *.
  - eapply (get_with_cache_stores globals_cache with_globals_cache); eauto.
    eapply keeps_weaken; [apply ext_read_rel|apply ext_any_name_no_cache].
  - unfold get_objects_property, get_objects_property_ in Hrun. unfold bind at 1 in Hrun.
    pose proof (guids_of_spec objs s) as Hgs.
    destruct (guids (heap s) objs) as [gs|] eqn:Egs;
      [|destruct Hgs as [e Hgs]; rewrite Hgs in Hrun; discriminate].
    rewrite Hgs in Hrun. rewrite bind_get, Ha in Hrun. unfold bind at 1 in Hrun.
    pose proof (hash_phase_key_spec ph s) as Hph.
    destruct (hashable (heap s) ph) eqn:Eph;
      [|destruct Hph as [e Hph]; rewrite Hph in Hrun; discriminate].
    rewrite Hph in Hrun.
    eapply (get_with_cache_stores values_cache with_values_cache) in Hrun;
      eauto using read_rel_props_no_cache.
    destruct Hrun as [Hc Ha1]. split; [|exact Ha1]. split.
    + apply (hashable_mono _ _ _ (read_heap _ _ Hrel) Eph).
    + exists gs. split; [|exact Hc]. eapply guids_mono; [apply (read_heap _ _ Hrel)|exact Egs].
  - unfold call_listable_method in Hrun. unfold bind at 1, deref in Hrun.
    destruct (heap s !! p) as [q|] eqn:Ep; [|discriminate].
    eapply (get_with_cache_stores listables_cache with_listables_cache) in Hrun; eauto;
      [|eapply keeps_weaken; [apply ext_read_rel|apply ext_any_list_no_cache]].
    destruct Hrun as [Hc Ha1]. split; [|exact Ha1].
    destruct (read_heap _ _ Hrel _ _ Ep) as (q' & Hq' & Hi).
    exists q'. split; [exact Hq'|]. destruct Hi as (_ & -> & _). exact Hc.
Qed.

Lemma cached_result_mono l v s s' :
  read_rel s s' -> cached_result l v s -> cached_result l v s'.
Proof.
  intros Hrel. destruct l as [n|objs pn ph|p m a b pn]; simpl.
  - intros Hc. eapply lookup_weaken; [exact Hc|apply (read_globals _ _ Hrel)].
  - intros (Hph & gs & Hgs & Hc). split.
    + apply (hashable_mono _ _ _ (read_heap _ _ Hrel) Hph).
    + exists gs. split; [eapply guids_mono; [apply (read_heap _ _ Hrel)|exact Hgs]|].
      eapply lookup_weaken; [exact Hc|apply (read_values _ _ Hrel)].
  - intros (q & Hq & Hc). destruct (read_heap _ _ Hrel _ _ Hq) as (q' & Hq' & Hi).
    exists q'. split; [exact Hq'|]. destruct Hi as (_ & -> & _).
    eapply lookup_weaken; [exact Hc|apply (read_listables _ _ Hrel)].
Qed.

(** A lookup whose key is cached returns the cached value and leaves the
    session, log included, as it is. *)
Lemma run_lookup_hit l v s :
  allow_caching s = true -> cached_result l v s -> run_lookup env l s = (inr v, s).
Proof.
  intros Ha. destruct l as [n|objs pn ph|p m a b pn]; simpl.
  - intros Hc. apply get_with_cache_hit; assumption.
  - intros (Hph & gs & Hgs & Hc). unfold get_objects_property, get_objects_property_.
    rewrite (bind_guids_of _ _ _ _ Hgs), bind_get, Ha. unfold bind at 1.
    pose proof (hash_phase_key_spec ph s) as H1. rewrite Hph in H1. rewrite H1.
    apply get_with_cache_hit; assumption.
  - intros (q & Hq & Hc). unfold call_listable_method. rewrite (bind_deref _ _ _ _ Hq).
    apply get_with_cache_hit; assumption.
Qed.

Lemma cold_uncached l s : caches_cold s -> uncached l s.
Proof.
  intros (Hg & Hv & Hl). right. destruct l; simpl; intros; rewrite ?Hg, ?Hv, ?Hl;
    apply lookup_empty.
Qed.

(** A lookup that finds nothing under its key returns what its uncached
    function returns and sends what that function sends. *)
Lemma run_lookup_uncached l s :
  uncached l s -> keyed s l ->
  fst (run_lookup env l s) = fst (uncached_function env l s) /\
  log (snd (run_lookup env l s)) = log (snd (uncached_function env l s)).
Proof.
  intros Hmiss Hkey.
  destruct l as [n|objs pn ph|p m a b pn]; simpl in *.
  - unfold get_named_object.
    rewrite (get_with_cache_miss_fst globals_cache with_globals_cache),
      (get_with_cache_miss_log globals_cache with_globals_cache)
      by (destruct Hmiss as [?|?]; auto).
    auto.
  - destruct Hkey as [Hg Hh].
    destruct (guids (heap s) objs) as [gs|] eqn:Egs; [|contradiction].
    unfold get_objects_property, get_objects_property_.
    rewrite (bind_guids_of _ _ _ _ Egs), bind_get, (bind_hash_phase_key _ _ _ Hh).
    rewrite (get_with_cache_miss_fst values_cache with_values_cache),
      (get_with_cache_miss_log values_cache with_values_cache)
      by (first [destruct Hmiss as [?|Hm]; [auto; fail|right; apply Hm, Egs]|auto]).
    auto.
  - destruct (heap s !! p) as [pp|] eqn:Ep; [|contradiction].
    unfold call_listable_method. rewrite (bind_deref _ _ _ _ Ep).
    rewrite (get_with_cache_miss_fst listables_cache with_listables_cache),
      (get_with_cache_miss_log listables_cache with_listables_cache)
      by (first [destruct Hmiss as [?|Hm]; [auto; fail|right; apply Hm, Ep]|auto]).
    auto.
Qed.

(** A lookup with a request of its own that finds nothing under its key
    sends that request first. *)
Lemma run_lookup_miss l s q :
  uncached l s ->
  lookup_request s l = Some q ->
  exists aux, log (snd (run_lookup env l s)) = log s ++ Sent q :: aux /\ Forall is_aux aux.
Proof.
  intros Hmiss.
  destruct l as [n|objs pn ph|p m a b pn]; simpl.
  - intros E. inversion E; subst; clear E. unfold get_named_object.
    rewrite (get_with_cache_miss_log globals_cache with_globals_cache)
      by (destruct Hmiss as [?|?]; auto).
    unfold __get_name_object_no_cache, request_namedobjects.
    apply bind_request_aux. intros v. keeps_go. apply ext_handle_namedobjects_response.
  - destruct (plain_phase (heap s) ph) eqn:Eph; [|discriminate].
    destruct (plain_owner (heap s) objs) eqn:Eo; [|discriminate]. simpl.
    destruct (guids (heap s) objs) as [gs|] eqn:Egs; [|discriminate].
    intros E. inversion E; subst; clear E.
    unfold get_objects_property, get_objects_property_.
    rewrite (bind_guids_of _ _ _ _ Egs), bind_get.
    assert (Hhash : (if allow_caching s then hash_phase_key ph else ret tt) s = (inr tt, s)).
    { destruct (allow_caching s); [|reflexivity].
      pose proof (hash_phase_key_spec ph s) as Hh.
      rewrite (plain_hashable _ _ Eph) in Hh. exact Hh. }
    unfold bind at 1. rewrite Hhash.
    rewrite (get_with_cache_miss_log values_cache with_values_cache)
      by (first [destruct Hmiss as [?|Hm]; [auto; fail|right; apply Hm, Egs]|auto]).
    change (__get_objects_property_no_cache_ env (bool_ env) objs pn ph)
      with (__get_objects_property_no_cache env objs pn ph).
    rewrite (props_no_cache_plain _ _ _ _ _ Eph Egs).
    apply bind_request_plain. exact Eo.
  - destruct (heap s !! p) as [pp|] eqn:Ep; [|discriminate].
    intros E. inversion E; subst; clear E. unfold call_listable_method.
    rewrite (bind_deref _ _ _ _ Ep).
    rewrite (get_with_cache_miss_log listables_cache with_listables_cache)
      by (first [destruct Hmiss as [?|Hm]; [auto; fail|right; apply Hm, Ep]|auto]).
    unfold __call_listable_method_no_cache. rewrite (bind_deref _ _ _ _ Ep).
    apply bind_request_aux. intros v. keeps_go. apply ext_handle_list_response.
Qed.

(** A mutating operation that invalidates leaves the query caches cold. *)
Lemma invalidates_cold m s :
  invalidates env m s -> caches_cold (snd (run_mutation env m s)).
Proof.
  intros [Hm|(v & Hv & Ht)]; [apply (command_resets env m s Hm)|].
  destruct m as [| | |c]; try (apply (command_resets env _ s); reflexivity).
  simpl in *. rewrite run_project_eq in *.
  destruct (gateway env (requests_of (log s)) (project_request c)) as [e|w];
    [discriminate|].
  simpl in Hv. injection Hv as ->. rewrite Ht. apply reset_state_cold.
Qed.

(** A project-level command that did not invalidate has only added its
    request to the log. *)
Lemma project_not_invalidating c s :
  let r := run_mutation env (Project c) s in
  (is_error (fst r) \/ exists v, fst r = inr v /\ truthy v = false) ->
  snd r = with_log (log s ++ [Sent (project_request c)]) s.
Proof.
  simpl. rewrite run_project_eq.
  destruct (gateway env (requests_of (log s)) (project_request c)) as [e|w];
    [reflexivity|].
  simpl. intros [[]|(v & Hv & Ht)]. injection Hv as ->. rewrite Ht. reflexivity.
Qed.

(** ** C3 *)

(** The second half of the property as the specification words it: after
    the mutating call, the read of the cached key makes exactly one
    gateway call. *)
Definition one_call_after (env : Env) (m : Mutation) (l : Lookup) (s : State) : Prop :=
  let s1 := snd (run_mutation env m s) in
  gateway_calls s1 (snd (run_lookup env l s1)) = 1%nat.

(** C3 as amended. With caching enabled, a lookup (named object, property
    values, collection method) that returned a value returns the same value
    again after any number of other lookups, and the repeated lookup leaves
    the session and its log unchanged: no gateway call.  After a mutating
    operation that invalidated (a method call, a property set or a batch of
    commands, whether it succeeded or raised; a project-level command that
    the connection answered with a non-empty result), a lookup whose key
    can be built is not served from the cache: it returns what its uncached
    function returns and sends what that function sends.  For a named
    object, for a collection method, and for property values with a plain
    phase key and a plain first owner, the lookup sends its own request
    once, as the first new entry of the log; the entries after it, if any,
    are the members and enumeration requests the interpretation of the
    response makes for entities that are not in the identity cache.  After
    a project-level command that raised or was answered with an empty
    result nothing is invalidated: the lookup is still served from the
    cache, without a gateway call. *)
Theorem C3_cached_lookup (l : Lookup) :
  (forall s v s1 ls,
      allow_caching s = true ->
      run_lookup env l s = (inr v, s1) ->
      let s2 := snd (run_lookups env ls s1) in
      run_lookup env l s2 = (inr v, s2)) /\
  (forall m s0,
      invalidates env m s0 ->
      let s := snd (run_mutation env m s0) in
      (keyed s l ->
       fst (run_lookup env l s) = fst (uncached_function env l s) /\
       log (snd (run_lookup env l s)) = log (snd (uncached_function env l s))) /\
      (forall q, lookup_request s l = Some q ->
         exists aux, log (snd (run_lookup env l s)) = log s ++ Sent q :: aux /\
                     Forall is_aux aux)) /\
  (forall c s v s1,
      allow_caching s = true ->
      run_lookup env l s = (inr v, s1) ->
      let r := run_mutation env (Project c) s1 in
      (is_error (fst r) \/ exists w, fst r = inr w /\ truthy w = false) ->
      run_lookup env l (snd r) = (inr v, snd r)).
Proof.
  split; [|split].
  - intros s v s1 ls Ha Hrun s2.
    destruct (run_lookup_stores l s v s1 Ha Hrun) as [Hc Ha1].
    pose proof (read_rel_run_lookups ls s1) as Hrel. fold s2 in Hrel.
    apply run_lookup_hit.
    + rewrite (read_allow _ _ Hrel). exact Ha1.
    + eapply cached_result_mono; eassumption.
  - intros m s0 Hm s.
    assert (Hcold : uncached l s) by apply cold_uncached, invalidates_cold, Hm.
    split.
    + intros Hk. apply run_lookup_uncached; assumption.
    + intros q Hq. apply run_lookup_miss; assumption.
  - intros c s v s1 Ha Hrun r Hr.
    destruct (run_lookup_stores l s v s1 Ha Hrun) as [Hc Ha1].
    subst r. rewrite (project_not_invalidating c s1 Hr).
    apply run_lookup_hit; [exact Ha1|].
    destruct l; exact Hc.
Qed.

End Lookups.

(** A polyline ["L"] whose elements are property objects owned by it; a
    command changes which object comes first. *)
Definition is_commands (r : Request) : bool :=
  match r with ReqCommands _ => true | _ => false end.

Definition vertex (guid : string) : PyVal :=
  VDict [("guid", VStr guid); ("type", VStr "Number"); ("islistable", VBool false);
         ("ownerguid", VStr "L")].

Definition list_answer (method_name : string) (output : PyVal) : PyVal :=
  VDict [("listqueries", VList [VDict [("success", VBool true); ("extrainfo", VStr "");
     ("methodname", VStr method_name); ("outputdata", output)]])].

Definition env_polyline : Env :=
  mkEnv (fun sent r =>
           match r with
           | ReqList [q] =>
               if String.eqb (lq_method q) INDEX
               then inr (list_answer INDEX
                           (vertex (if existsb is_commands sent then "X2" else "X1")))
               else inl (PlxScriptingError "Bad Request")
           | ReqMembers ["L"] =>
               inr (VDict [("queries", VDict [("L", VDict [("commands", VList [VStr "delete"]);
                                                           ("properties", VDict [])])])])
           | ReqCommands _ => inr feedback_ok
           | _ => inl (PlxScriptingError "Bad Request")
           end)
        (fun _ => None) repr_str no_ensure no_ensure.

Definition st_polyline : State :=
  snd (create_plx_proxy_object env_polyline "L" "Polyline" true None None (init_state true)).

Definition first_vertex : Lookup := CollectionMethod 1 INDEX (Some 0) None None.
Definition polyline_read1 : (Exn + PyVal) * State :=
  run_lookup env_polyline first_vertex st_polyline.
Definition polyline_mutation : (Exn + PyVal) * State :=
  run_mutation env_polyline (Commands ["add L 1 2"]) (snd polyline_read1).
Definition polyline_read2 : (Exn + PyVal) * State :=
  run_lookup env_polyline first_vertex (snd polyline_mutation).

(** C3, counterexample.  The key of the first vertex is cached by a first
    read.  After a command the next read of the same key makes two gateway
    calls, the list query and the members of the owner of the new vertex.
    After a project-level command that the connection refuses, the next
    read of the same key makes none: it is served from the cache. *)
Lemma C3_counterexample :
  allow_caching st_polyline = true /\
  cached_result first_vertex (VRef 2) (snd polyline_read1) /\
  (is_error (fst polyline_mutation) = False /\
   fst polyline_read2 = inr (VRef 3) /\
   gateway_calls (snd polyline_mutation) (snd polyline_read2) = 2%nat /\
   ~ one_call_after env_polyline (Commands ["add L 1 2"]) first_vertex (snd polyline_read1)) /\
  (let s1 := snd (run_mutation env_polyline (Project New) (snd polyline_read1)) in
   gateway_calls s1 (snd (run_lookup env_polyline first_vertex s1)) = 0%nat /\
   ~ one_call_after env_polyline (Project New) first_vertex (snd polyline_read1)).
Proof.
  split; [reflexivity|]. split; [eexists; split; reflexivity|]. split.
  - split; [reflexivity|]. split; [reflexivity|]. split; [reflexivity|].
    unfold one_call_after. vm_compute. discriminate.
  - split; [reflexivity|]. unfold one_call_after. vm_compute. discriminate.
Qed.

(** C3, an instance on the same polyline: a repeated read, a read after a
    command, and a read after a refused project-level command. *)
Lemma C3_witness :
  (let s2 := snd (run_lookups env_polyline [NamedObject "Lines"] (snd polyline_read1)) in
   run_lookup env_polyline first_vertex s2 = (inr (VRef 2), s2)) /\
  (fst polyline_read2 = fst (uncached_function env_polyline first_vertex (snd polyline_mutation)) /\
   log (snd polyline_read2)
   = log (snd (uncached_function env_polyline first_vertex (snd polyline_mutation)))) /\
  (exists aux,
      log (snd polyline_read2) =
      log (snd polyline_mutation)
      ++ Sent (ReqList [mkListQuery "L" INDEX (Some 0) None None]) :: aux /\
      Forall is_aux aux) /\
  (let r := run_mutation env_polyline (Project New) (snd polyline_read1) in
   run_lookup env_polyline first_vertex (snd r) = (inr (VRef 2), snd r)).
Proof.
  destruct (C3_cached_lookup env_polyline first_vertex) as (HA & HB & HC).
  destruct (HB (Commands ["add L 1 2"]) (snd polyline_read1) (or_introl eq_refl))
    as [Hun Hreq].
  split; [|split; [|split]].
  - apply (HA st_polyline (VRef 2) (snd polyline_read1) [NamedObject "Lines"]);
      reflexivity.
  - apply Hun. vm_compute. discriminate.
  - apply (Hreq (ReqList [mkListQuery "L" INDEX (Some 0) None None])). reflexivity.
  - apply (HC New st_polyline (VRef 2) (snd polyline_read1)).
    + reflexivity.
    + reflexivity.
    + left. exact I.
Defined.

(** * The collapse rule *)

(** What [_create_proxies_from_returned_objects] returns for the objects
    it has built. *)
Definition collapse (new_objs : list PyVal) (allow_one_item_list_result : bool) : PyVal :=
  match new_objs with
  | [] => VNone
  | [x] => if allow_one_item_list_result then VList [x] else x
  | _ => VList new_objs
  end.

Definition sublist_response (output_data : PyVal) : PyVal :=
  VDict [("success", VBool true); ("extrainfo", VStr ""); ("methodname", VStr SUBLIST);
         ("outputdata", output_data)].

Section Collapse.
Context (env : Env).

Lemma collapse_rule ros allow s objs s' :
  mapM (create_one env) ros s = (inr objs, s') ->
  _create_proxies_from_returned_objects env (VList ros) allow s
  = (inr (collapse objs allow), s').
Proof.
  intros Hm. unfold _create_proxies_from_returned_objects.
  change (py_iter (VList ros)) with (@inr Exn _ ros). rewrite bind_lift_inr.
  unfold bind. rewrite Hm.
  destruct objs as [|x [|y objs]]; simpl; [reflexivity| |reflexivity].
  destruct allow; reflexivity.
Qed.

(** A selection is a list, whatever its length. *)
Lemma selection_is_list r s v s' :
  handle_selection_response env r s = (inr v, s') -> exists l, v = VList l.
Proof.
  unfold handle_selection_response, bind.
  destruct (lift (getitem r JSON_SELECTION) s) as [[e|sel] s1]; [discriminate|].
  unfold _create_proxies_from_returned_objects, bind.
  destruct (lift (py_iter sel) s1) as [[e|l] s2]; [discriminate|].
  destruct (mapM (create_one env) l s2) as [[e|objs] s3]; [discriminate|].
  destruct objs as [|x [|y objs]]; simpl; intros E; inversion E; subst; eauto.
Qed.

(** ** C4 *)

(** C4, the failing input. The answer to a [sublist] query with no element
    is interpreted as [None], not as an empty list. *)
Theorem C4_empty_sublist_is_None (s : State) :
  handle_list_response env (sublist_response (VList [])) s = (inr VNone, s).
Proof. reflexivity. Qed.

End Collapse.

(** * Indexed access *)

Section Listable.
Context (env : Env).

Lemma len_nonneg self s n s1 : len env self s = (inr n, s1) -> 0 <= n.
Proof.
  unfold len, bind. destruct (__len__ env self s) as [[e|v] s0]; [discriminate|].
  destruct v as [| b | z | | | | |]; try discriminate.
  - intros E. inversion E; subst. destruct b; simpl; lia.
  - destruct (z <? 0) eqn:Ez; [discriminate|]. intros E. inversion E; subst.
    apply Z.ltb_ge in Ez. exact Ez.
Qed.

(** ** C10 *)

(** C10. For an integer key [k < 0], [__getitem__] is the length query
    followed by the indexed query with start index [k]: the range check
    [key >= len(self)] never raises.  When the indexed query is not served
    from the cache, the request sent is the list query with method [index]
    and start index [k].  A key that is neither a slice nor an integer
    raises [TypeError] without any request; a slice goes to the [sublist]
    query as it is. *)
Theorem C10_negative_index (self : nat) (k : Z) :
  k < 0 ->
  (forall s,
      __getitem__ env self (KInt k) s
      = bind (len env self)
             (fun _ => call_listable_method env self INDEX (Some k) None None) s) /\
  (forall s n s1 p,
      len env self s = (inr n, s1) ->
      heap s1 !! self = Some p ->
      uncached (CollectionMethod self INDEX (Some k) None None) s1 ->
      exists aux,
        log (snd (__getitem__ env self (KInt k) s))
        = log s1 ++ Sent (ReqList [mkListQuery (_guid p) INDEX (Some k) None None]) :: aux /\
        Forall is_aux aux) /\
  (forall s, __getitem__ env self KOther s
             = (inl (TypeError "list indices must be integers"), s)) /\
  (forall start stop s,
      __getitem__ env self (KSlice start stop) s
      = call_listable_method env self SUBLIST start stop None s).
Proof.
  intros Hk.
  assert (Heq : forall s,
      __getitem__ env self (KInt k) s
      = bind (len env self)
             (fun _ => call_listable_method env self INDEX (Some k) None None) s).
  { intros s. simpl. unfold bind. destruct (len env self s) as [[e|n] s1] eqn:E; [reflexivity|].
    apply len_nonneg in E. destruct (n <=? k) eqn:Enk; [|reflexivity].
    apply Z.leb_le in Enk. lia. }
  split; [exact Heq|]. split; [|split; reflexivity].
  intros s n s1 p Hlen Hp Hun. rewrite Heq. unfold bind. rewrite Hlen.
  apply (run_lookup_miss env (CollectionMethod self INDEX (Some k) None None) s1); [exact Hun|].
  simpl. rewrite Hp. reflexivity.
Qed.

End Listable.

(** * The global object *)

(** The resolution order as the specification words it: whenever the
    remote named-object lookup finds the name, the attribute is what that
    lookup returns. *)
Definition named_lookup_first (env : Env) (self : nat) (attr_name : string) (s : State)
    : Prop :=
  forall v s1,
    __get_name_object_no_cache env attr_name s = (inr v, s1) ->
    fst (PlxProxyGlobalObject___getattr__ env self attr_name s) = inr v.

Section GlobalObject.
Context (env : Env).

(** ** C6 *)

(** C6 as amended. Attribute access on the global proxy looks the name up
    in the cached member map first and, on a hit, returns the cached member
    without any request.  Only when the name is not in the member map is
    the named-object lookup made (itself through the named-object cache);
    its result is the attribute.  When that lookup raises
    [PlxScriptingError], the member map is fetched again and the two steps
    are repeated once. *)
Theorem C6_global_getattr (self : nat) (attr_name : string) (s : State) (p : Proxy)
    (d : list (string * PyVal)) :
  heap s !! self = Some p ->
  _attr_cache p = Some d ->
  (forall a, dict_get attr_name d = Some a ->
             PlxProxyGlobalObject___getattr__ env self attr_name s = (inr a, s)) /\
  (dict_get attr_name d = None ->
   (forall v s1,
       get_named_object env attr_name s = (inr v, s1) ->
       PlxProxyGlobalObject___getattr__ env self attr_name s = (inr v, s1)) /\
   (forall msg s1,
       get_named_object env attr_name s = (inl (PlxScriptingError msg), s1) ->
       PlxProxyGlobalObject___getattr__ env self attr_name s
       = bind (PlxProxyGlobalObject__ensure_cache_is_valid env self)
              (fun _ => PlxProxyGlobalObject__getattr env self attr_name) s1)).
Proof.
  intros Hp Hd.
  assert (Hget : PlxProxyGlobalObject__getattr env self attr_name s
                 = match dict_get attr_name d with
                   | Some a => (inr a, s)
                   | None => catch_PlxScriptingError (get_named_object env attr_name)
                               (raise (AttributeError "Requested attribute is not present")) s
                   end).
  { unfold PlxProxyGlobalObject__getattr. rewrite (bind_deref _ _ _ _ Hp), Hd.
    destruct (dict_get attr_name d); reflexivity. }
  unfold PlxProxyGlobalObject___getattr__, catch_AttributeError. rewrite Hget.
  split.
  - intros a Ha. rewrite Ha. reflexivity.
  - intros Hnone. rewrite Hnone. unfold catch_PlxScriptingError. split.
    + intros v s1 Hn. rewrite Hn. reflexivity.
    + intros msg s1 Hn. rewrite Hn. reflexivity.
Qed.

End GlobalObject.

(** * Nested entities *)

(** A returned object that is a property of another entity: it carries a
    type tag other than JSON, its token, its listable flag and the token of
    its owner. *)
Record nested_entity (ro : PyVal) (guid owner_guid : string) (ty is_listable : PyVal)
    : Prop := mk_nested {
  nested_type : getitem ro JSON_TYPE = inr ty;
  nested_not_json : py_eq ty (VStr JSON_TYPE_JSON) = false;
  nested_guid : getitem ro JSON_GUID = inr (VStr guid);
  nested_listable : getitem ro JSON_ISLISTABLE = inr is_listable;
  nested_has_owner : contains ro JSON_OWNERGUID = inr true;
  nested_owner : getitem ro JSON_OWNERGUID = inr (VStr owner_guid)
}.

(** The interpretation as the specification words it: the members of the
    owner are requested before anything else happens. *)
Definition fetches_owner_first (env : Env) (ro : PyVal) (s : State) : Prop :=
  exists g evs,
    log (snd (_create_proxy_object env ro None None s)) = log s ++ Sent (ReqMembers [g]) :: evs.

Section Nested.
Context (env : Env).

(** ** C7 *)

(** C7 as amended. For a nested property entity interpreted without a
    given owner: when the owner token is not in the identity cache, the
    interpreter raises "Missing owner object for property object!" and
    fetches nothing; when the owner token is in the cache and the token of
    the entity is not, the members of the owner are fetched first and the
    child proxy is built after that, with that owner; when both tokens are
    in the cache, the registered child is returned and nothing is
    fetched. *)
Theorem C7_owner_fetch (ro : PyVal) (guid owner_guid : string) (ty is_listable : PyVal)
    (s : State) :
  nested_entity ro guid owner_guid ty is_listable ->
  (proxy_object_cache s !! owner_guid = None ->
   _create_proxy_object env ro None None s
   = (inl (PlxScriptingError "Missing owner object for property object!"), s)) /\
  (forall o po,
      proxy_object_cache s !! owner_guid = Some o ->
      proxy_object_cache s !! guid = None ->
      heap s !! o = Some po ->
      _create_proxy_object env ro None None s
      = bind (get_object_attributes env o)
          (fun _ =>
             bind (create_plx_proxy_object env guid
                     (match ty with VStr t => t | _ => py_str env ty end)
                     (truthy is_listable) None (Some o))
                  (fun id => ret (VRef id))) s /\
      exists evs,
        log (snd (_create_proxy_object env ro None None s))
        = log s ++ Sent (ReqMembers [_guid po]) :: evs) /\
  (forall o h,
      proxy_object_cache s !! owner_guid = Some o ->
      proxy_object_cache s !! guid = Some h ->
      _create_proxy_object env ro None None s = (inr (VRef h), s)).
Proof.
  intros [Ht Hnj Hg Hl Hho Ho].
  assert (Hstart : forall (k : option nat -> M PyVal),
    _create_proxy_object env ro None None s
    = bind (bind (get_proxy_object_if_exists owner_guid)
              (fun owner =>
                 match owner with
                 | None => raise (PlxScriptingError "Missing owner object for property object!")
                 | Some o =>
                     bind (get_proxy_object_if_exists guid)
                       (fun existing =>
                          match existing with
                          | None => bind (bind (get_object_attributes env o) (fun _ => ret tt))
                                      (fun _ => ret (Some o))
                          | Some _ => ret (Some o)
                          end)
                 end))
         (fun owner =>
            bind (create_plx_proxy_object env guid
                    (match ty with VStr t => t | _ => py_str env ty end)
                    (truthy is_listable) None owner)
                 (fun id => ret (VRef id))) s).
  { intros _. unfold _create_proxy_object, _create_proxy_object_.
    rewrite Ht, bind_lift_inr, Hnj, Hg, bind_lift_inr. simpl as_str. rewrite bind_lift_inr.
    rewrite Hl, bind_lift_inr, Hho. rewrite !bind_assoc, bind_lift_inr.
    rewrite Ho. rewrite !bind_assoc, bind_lift_inr. simpl as_str.
    rewrite !bind_assoc, bind_lift_inr. rewrite <- !bind_assoc. reflexivity. }
  specialize (Hstart (fun _ => ret VNone)).
  split; [|split].
  - intros Hnone. rewrite Hstart. unfold get_proxy_object_if_exists.
    rewrite !bind_assoc, bind_get, bind_ret, Hnone. reflexivity.
  - intros o po Hown Hchild Hpo.
    assert (Heq : _create_proxy_object env ro None None s
      = bind (get_object_attributes env o)
          (fun _ =>
             bind (create_plx_proxy_object env guid
                     (match ty with VStr t => t | _ => py_str env ty end)
                     (truthy is_listable) None (Some o))
                  (fun id => ret (VRef id))) s).
    { rewrite Hstart. unfold get_proxy_object_if_exists.
      rewrite !bind_assoc, bind_get, bind_ret, Hown.
      rewrite !bind_assoc, bind_get, bind_ret, Hchild.
      rewrite !bind_assoc. unfold bind. destruct (get_object_attributes env o s) as [[e|a] s1];
        reflexivity. }
    split; [exact Heq|]. rewrite Heq.
    destruct (get_object_attributes_log env o po s Hpo) as [evs L].
    unfold bind. destruct (get_object_attributes env o s) as [[e|a] s1] eqn:E; simpl in *.
    + exists evs. exact L.
    + pose proof (ext_create_plx_proxy_object env guid
                    (match ty with VStr t => t | _ => py_str env ty end)
                    (truthy is_listable) None (Some o) s1) as Hc.
      destruct (create_plx_proxy_object env guid _ _ None (Some o) s1) as [[e|id] s2];
        simpl in *; destruct (ext_log Hc) as [evs' [L' _]];
        exists (evs ++ evs'); rewrite L', L, <- app_assoc; reflexivity.
  - intros o h Hown Hchild. rewrite Hstart. unfold get_proxy_object_if_exists.
    rewrite !bind_assoc, bind_get, bind_ret, Hown.
    rewrite !bind_assoc, bind_get, bind_ret, Hchild.
    rewrite bind_ret. unfold bind.
    rewrite (create_plx_proxy_object_hit env guid _ _ None (Some o) h s Hchild). reflexivity.
Qed.

End Nested.

(** * Enumerations *)



(** The answer of the connection to the value query of one property of one
    owner, and the values that are interpreted as they are. *)
Definition property_answer (guid property_name : string) (v : PyVal) : PyVal :=
  VDict [("queries", VDict [(guid, VDict [("properties", VDict [(property_name, v)])])])].


(** The requests of a read: they ask, and change nothing on the server. *)
Definition is_read_event (e : Event) : Prop :=
  match e with
  | Sent (ReqNamedObjects _) | Sent (ReqPropertyValues _ _ _) | Sent (ReqList _)
  | Sent (ReqMembers _) | Sent (ReqEnumeration _) => True
  | _ => False
  end.

Definition reads_only (s s' : State) : Prop :=
  exists evs, log s' = log s ++ evs /\ Forall is_read_event evs.

#[local] Instance reads_only_preorder : PreOrder reads_only.
Proof.
  split.
  - intros s. exists []. rewrite app_nil_r. auto.
  - intros s1 s2 s3 [e1 [L1 F1]] [e2 [L2 F2]]. exists (e1 ++ e2).
    rewrite L2, L1, app_assoc. split; [reflexivity|]. apply Forall_app; auto.
Qed.




Section Enumeration.
Context (env : Env).




Lemma mut_rel_set_object_property pp pv : keeps mut_rel (set_object_property env pp pv).
Proof.
  unfold set_object_property. keeps_go.
  - apply mut_rel_reset_caches.
  - apply mut_rel_call_plx_object_method.
Qed.




(** ** C8 *)


End Enumeration.

(** A soil ["G1"] with an enumerated property ["Mode"]; two names of the
    enumeration share the ordinal 0.  The connection answers the value of
    the property with the ordinal of the last [set] command. *)
Definition last_set (sent : list Request) : Z :=
  fold_left (fun z r => match r with
                        | ReqCommands ["set E1 1"] => 1
                        | ReqCommands ["set E1 0"] => 0
                        | _ => z
                        end) sent 0.

Definition env_enum : Env :=
  mkEnv (fun sent r =>
           match r with
           | ReqMembers ["G1"] =>
               inr (VDict [("queries", VDict [("G1", VDict [("commands", VList []);
                      ("properties", VDict [("Mode",
                          VDict [("guid", VStr "E1"); ("type", VStr "enumMode");
                                 ("islistable", VBool false); ("ownerguid", VStr "G1")])])])])])
           | ReqEnumeration ["E1"] =>
               inr (VDict [("queries", VDict [("E1", VDict [("success", VBool true);
                      ("enumvalues", VDict [("automatic", VInt 0); ("auto", VInt 0);
                                            ("manual", VInt 1)])])])])
           | ReqPropertyValues ["G1"] (Some "Mode") "" =>
               inr (VDict [("queries", VDict [("G1", VDict [("properties",
                      VDict [("Mode", VInt (last_set sent))])])])])
           | ReqCommands _ => inr feedback_ok
           | _ => inl (PlxScriptingError "Bad Request")
           end)
        (fun _ => None) repr_str no_ensure no_ensure.

Definition st_enum : State :=
  snd (attr_cache env_enum 1
    (snd (create_plx_proxy_object env_enum "G1" "Soil" false None None (init_state true)))).

Definition mode_proxy : Proxy :=
  mkProxy (PlxProxyIPEnumerationLocal "enumMode"
             [("automatic", VInt 0); ("auto", VInt 0); ("manual", VInt 1)])
          "E1" "enumMode" (Some []) (Some 1%nat) (Some "Mode") VNone.





(** The global object with the member ["delete"] in its member map, while
    a named object ["delete"] exists as well. *)
Definition env_global : Env :=
  mkEnv (fun _ r =>
           match r with
           | ReqMembers [""] =>
               inr (VDict [("queries", VDict [("", VDict [("commands", VList [VStr "delete"]);
                                                          ("properties", VDict [])])])])
           | ReqNamedObjects [n] =>
               if String.eqb n "delete" || String.eqb n "Points" then
                 inr (VDict [("namedobjects", VDict [(n,
                        VDict [("success", VBool true); ("extrainfo", VStr "");
                               ("returnedobject",
                                VDict [("guid", VStr "N1"); ("type", VStr "ModelGroup");
                                       ("islistable", VBool true)])])])])
               else
                 inr (VDict [("namedobjects", VDict [(n,
                        VDict [("success", VBool false);
                               ("extrainfo", VStr "No object with that name")])])])
           | _ => inl (PlxScriptingError "Bad Request")
           end)
        (fun _ => None) repr_str no_ensure no_ensure.

Definition st_global : State :=
  snd (PlxProxyGlobalObject__ensure_cache_is_valid env_global 0 (init_state true)).

Definition global_with_members : Proxy :=
  set_attr_cache (Some [("delete", VMethod 0 "delete")]) global_proxy.

(** C6, counterexample: the named-object lookup of ["delete"] would find an
    object, and the global proxy answers with the member of its cached
    member map, without any request. *)
Lemma C6_counterexample :
  ~ named_lookup_first env_global 0 "delete" st_global /\
  PlxProxyGlobalObject___getattr__ env_global 0 "delete" st_global
  = (inr (VMethod 0 "delete"), st_global).
Proof.
  split; [|reflexivity].
  intros H. specialize (H _ _ eq_refl). discriminate.
Qed.

(** C6, an instance: ["delete"] is a member, ["Points"] is a named
    object. *)
Lemma C6_witness :
  PlxProxyGlobalObject___getattr__ env_global 0 "delete" st_global
  = (inr (VMethod 0 "delete"), st_global) /\
  PlxProxyGlobalObject___getattr__ env_global 0 "Points" st_global
  = get_named_object env_global "Points" st_global.
Proof.
  destruct (C6_global_getattr env_global 0 "delete" st_global global_with_members
              [("delete", VMethod 0 "delete")] eq_refl eq_refl) as [Hhit _].
  destruct (C6_global_getattr env_global 0 "Points" st_global global_with_members
              [("delete", VMethod 0 "delete")] eq_refl eq_refl) as [_ Hmiss].
  split.
  - apply Hhit. reflexivity.
  - destruct (Hmiss eq_refl) as [Hnamed _]. apply Hnamed. reflexivity.
Defined.

(** C7, counterexample: the owner ["L"] of the vertex ["X1"] is not in the
    identity cache of a new session; interpreting the vertex raises and
    requests nothing. *)
Lemma C7_counterexample :
  ~ fetches_owner_first env_polyline (vertex "X1") (init_state true) /\
  _create_proxy_object env_polyline (vertex "X1") None None (init_state true)
  = (inl (PlxScriptingError "Missing owner object for property object!"), init_state true).
Proof.
  split; [|reflexivity].
  intros (g & evs & H). simpl in H. destruct evs; discriminate.
Qed.

(** C7, an instance: with the polyline registered, its members are
    requested before the vertex is built. *)
Lemma C7_witness :
  exists evs,
    log (snd (_create_proxy_object env_polyline (vertex "X1") None None st_polyline))
    = log st_polyline ++ Sent (ReqMembers ["L"]) :: evs.
Proof.
  destruct (C7_owner_fetch env_polyline (vertex "X1") "X1" "L" (VStr "Number") (VBool false)
              st_polyline) as (_ & Hfetch & _).
  - split; reflexivity.
  - destruct (Hfetch 1%nat
                (mkProxy PlxProxyObjectListable "L" "Polyline" (Some []) None None VNone)
                eq_refl eq_refl eq_refl) as [_ Hlog].
    exact Hlog.
Defined.

(** * Iteration *)

(** The windows [__iter__] asks for, in order: the loop of [iter_loop]
    without the queries. *)
Fixpoint page_plan (fuel : nat) (cache_start length : Z) : list (Z * Z) :=
  if cache_start <? length then
    match fuel with
    | O => []
    | S fuel' =>
        let cache_end := Z.min (cache_start + ITER_CACHE_COUNT) length in
        (cache_start, cache_end) :: page_plan fuel' cache_end length
    end
  else [].

(** The windows start at [cache_start], each starts where the one before
    it stops, none is empty or wider than [ITER_CACHE_COUNT], and the last
    one stops at [length]. *)
Fixpoint pages_cover (cache_start length : Z) (pages : list (Z * Z)) : Prop :=
  match pages with
  | [] => length <= cache_start
  | (a, b) :: rest =>
      a = cache_start /\ a < b /\ b - a <= ITER_CACHE_COUNT /\ b <= length /\
      pages_cover b length rest
  end.

Section Pagination.
Context (env : Env) (self : nat).

(** One [sublist] query per window, the elements in the order of the
    windows. *)
Fixpoint fetch_pages (pages : list (Z * Z)) : M (list PyVal) :=
  match pages with
  | [] => ret []
  | (a, b) :: rest =>
      iter_cache <- call_listable_method env self SUBLIST (Some a) (Some b) None ;;
      elements <- lift (py_iter iter_cache) ;;
      more <- fetch_pages rest ;;
      ret (elements ++ more)
  end.

Lemma iter_loop_plan fuel cache_start length s :
  length - cache_start <= Z.of_nat fuel ->
  iter_loop env fuel self cache_start length s
  = fetch_pages (page_plan fuel cache_start length) s.
Proof.
  revert cache_start s. induction fuel as [|fuel IH]; intros cs s Hf; simpl.
  - destruct (cs <? length) eqn:E; [|reflexivity]. apply Z.ltb_lt in E. lia.
  - destruct (cs <? length) eqn:E; [|reflexivity]. apply Z.ltb_lt in E.
    simpl. unfold bind.
    destruct (call_listable_method env self SUBLIST (Some cs)
                (Some (Z.min (cs + ITER_CACHE_COUNT) length)) None s) as [[e|v] s1];
      [reflexivity|].
    destruct (lift (py_iter v) s1) as [[e|els] s2]; [reflexivity|].
    rewrite IH; [reflexivity|]. unfold ITER_CACHE_COUNT. lia.
Qed.

Lemma page_plan_cover fuel cache_start length :
  length - cache_start <= Z.of_nat fuel ->
  pages_cover cache_start length (page_plan fuel cache_start length).
Proof.
  revert cache_start. induction fuel as [|fuel IH]; intros cs Hf; simpl.
  - destruct (cs <? length) eqn:E; simpl; [apply Z.ltb_lt in E; lia|].
    apply Z.ltb_ge in E. exact E.
  - destruct (cs <? length) eqn:E; simpl; [|apply Z.ltb_ge in E; exact E].
    apply Z.ltb_lt in E. unfold ITER_CACHE_COUNT in *.
    repeat split; try lia. apply IH. lia.
Qed.

Lemma iter_plan s :
  __iter__ env self s
  = bind (len env self) (fun n => fetch_pages (page_plan (Z.to_nat n) 0 n)) s.
Proof.
  unfold __iter__, bind. destruct (len env self s) as [[e|n] s1] eqn:E; [reflexivity|].
  apply len_nonneg in E. apply iter_loop_plan. lia.
Qed.

(** The collection behind the proxy: the session answers the count, the
    indexed and the sublist queries of [self] from the list [elems], in
    every state that satisfies [Inv]. *)
Context (elems : list PyVal) (Inv : State -> Prop).
Context (count_ok : forall s, Inv s ->
  exists s', call_listable_method env self COUNT None None None s
             = (inr (VInt (Z.of_nat (length elems))), s') /\ Inv s').
Context (index_ok : forall s (k : nat) x, Inv s -> elems !! k = Some x ->
  exists s', call_listable_method env self INDEX (Some (Z.of_nat k)) None None s
             = (inr x, s') /\ Inv s').
Context (sublist_ok : forall s (a b : nat), Inv s -> (a < b <= length elems)%nat ->
  exists s', call_listable_method env self SUBLIST (Some (Z.of_nat a)) (Some (Z.of_nat b)) None s
             = (inr (VList (take (b - a) (drop a elems))), s') /\ Inv s').

Lemma len_ok s :
  Inv s -> exists s', len env self s = (inr (Z.of_nat (length elems)), s') /\ Inv s'.
Proof.
  intros Hs. destruct (count_ok s Hs) as (s' & Hc & Hs'). exists s'. split; [|exact Hs'].
  unfold len, __len__, bind. rewrite Hc.
  destruct (Z.of_nat (length elems) <? 0) eqn:E; [apply Z.ltb_lt in E; lia|reflexivity].
Qed.

Lemma fetch_pages_ok pages (start : nat) s :
  Inv s ->
  pages_cover (Z.of_nat start) (Z.of_nat (length elems)) pages ->
  exists s', fetch_pages pages s = (inr (drop start elems), s') /\ Inv s'.
Proof.
  revert start s. induction pages as [|[a b] pages IH]; intros start s Hs Hc; simpl in *.
  - exists s. split; [|exact Hs]. rewrite drop_ge by lia. reflexivity.
  - destruct Hc as (-> & Hab & _ & Hb & Hrest).
    assert (exists bn : nat, b = Z.of_nat bn) as [bn ->] by (exists (Z.to_nat b); lia).
    destruct (sublist_ok s start bn Hs) as (s1 & Hq & Hs1); [lia|].
    destruct (IH bn s1 Hs1 Hrest) as (s2 & Hf & Hs2).
    exists s2. split; [|exact Hs2].
    unfold bind. rewrite Hq. simpl. rewrite Hf. simpl.
    assert (Hd : drop bn elems = drop (bn - start) (drop start elems))
      by (rewrite drop_drop; f_equal; lia).
    unfold ret. rewrite Hd, take_drop. reflexivity.
Qed.

Lemma getitem_ok s (k : nat) x :
  Inv s -> elems !! k = Some x ->
  exists s', __getitem__ env self (KInt (Z.of_nat k)) s = (inr x, s') /\ Inv s'.
Proof.
  intros Hs Hx. destruct (len_ok s Hs) as (s1 & Hl & Hs1).
  destruct (index_ok s1 k x Hs1 Hx) as (s2 & Hi & Hs2).
  exists s2. split; [|exact Hs2].
  apply lookup_lt_Some in Hx. unfold __getitem__, bind. rewrite Hl.
  destruct (Z.of_nat (length elems) <=? Z.of_nat k) eqn:E;
    [apply Z.leb_le in E; lia|exact Hi].
Qed.

Lemma index_all_ok (start : nat) s :
  Inv s ->
  exists s',
    mapM (fun k => __getitem__ env self (KInt (Z.of_nat k)))
         (seq start (length elems - start)) s
    = (inr (drop start elems), s') /\ Inv s'.
Proof.
  remember (length elems - start)%nat as n eqn:Hn. revert start s Hn.
  induction n as [|n IH]; intros start s Hn Hs.
  - exists s. split; [|exact Hs]. rewrite drop_ge by lia. reflexivity.
  - destruct (lookup_lt_is_Some_2 elems start) as [x Hx]; [lia|].
    destruct (getitem_ok s start x Hs Hx) as (s2 & Hg & Hs2).
    destruct (IH (S start) s2) as (s3 & Hm & Hs3); [lia|exact Hs2|].
    exists s3. split; [|exact Hs3].
    change (seq start (S n)) with (start :: seq (S start) n).
    change (mapM (fun k => __getitem__ env self (KInt (Z.of_nat k))) (start :: seq (S start) n))
      with (bind (__getitem__ env self (KInt (Z.of_nat start)))
              (fun y => bind (mapM (fun k => __getitem__ env self (KInt (Z.of_nat k)))
                                   (seq (S start) n))
                             (fun ys => ret (y :: ys)))).
    unfold bind. rewrite Hg, Hm. unfold ret.
    rewrite (drop_S _ _ _ Hx). reflexivity.
Qed.

(** ** C5 *)

(** C5. For a listable collection whose count, indexed and sublist queries
    are answered from a list [elems] of length N: iterating the proxy gives
    [elems], and so does indexing the positions 0 to N-1 one after the
    other, in the same order.  Every iteration is the length query followed
    by one sublist query per window of [page_plan]; the windows begin at
    index 0, follow each other in ascending order without a gap, hold at
    most [ITER_CACHE_COUNT] = 100 elements each and end at the length.  The
    plan depends on the length only: a new iteration starts again at index
    0. *)
Theorem C5_pagination :
  ITER_CACHE_COUNT = 100 /\
  (forall s, Inv s ->
     (exists s', __iter__ env self s = (inr elems, s') /\ Inv s') /\
     (exists s', mapM (fun k => __getitem__ env self (KInt (Z.of_nat k)))
                      (seq 0 (length elems)) s
                 = (inr elems, s') /\ Inv s')) /\
  (forall s,
     __iter__ env self s
     = bind (len env self) (fun n => fetch_pages (page_plan (Z.to_nat n) 0 n)) s) /\
  (forall n, 0 <= n -> pages_cover 0 n (page_plan (Z.to_nat n) 0 n)).
Proof.
  split; [reflexivity|]. split; [|split].
  - intros s Hs. split.
    + rewrite iter_plan. destruct (len_ok s Hs) as (s1 & Hl & Hs1).
      unfold bind. rewrite Hl.
      destruct (fetch_pages_ok (page_plan (Z.to_nat (Z.of_nat (length elems))) 0
                                  (Z.of_nat (length elems))) 0 s1 Hs1) as (s2 & Hf & Hs2).
      * apply (page_plan_cover _ 0). lia.
      * exists s2. split; [exact Hf|exact Hs2].
    + destruct (index_all_ok 0 s Hs) as (s' & Hm & Hs').
      rewrite Nat.sub_0_r in Hm. exists s'. split; [exact Hm|exact Hs'].
  - apply iter_plan.
  - intros n Hn. apply page_plan_cover. lia.
Qed.

End Pagination.

(** A values object ["V"] that holds three numbers; the connection answers
    its count, indexed and sublist queries from the list, a negative index
    counting from the end. *)
Definition numbers : list PyVal := [VInt 10; VInt 20; VInt 30].

Definition numbers_answer (q : ListQuery) : Exn + PyVal :=
  if String.eqb (lq_method q) COUNT then
    inr (list_answer COUNT (VInt (Z.of_nat (length numbers))))
  else if String.eqb (lq_method q) INDEX then
    match lq_startindex q with
    | Some k =>
        match numbers !! Z.to_nat (if k <? 0 then Z.of_nat (length numbers) + k else k) with
        | Some x => inr (list_answer INDEX x)
        | None => inl (PlxScriptingError "Bad Request")
        end
    | None => inl (PlxScriptingError "Bad Request")
    end
  else if String.eqb (lq_method q) SUBLIST then
    match lq_startindex q, lq_stopindex q with
    | Some a, Some b =>
        inr (list_answer SUBLIST
               (VList (take (Z.to_nat b - Z.to_nat a) (drop (Z.to_nat a) numbers))))
    | _, _ => inl (PlxScriptingError "Bad Request")
    end
  else inl (PlxScriptingError "Bad Request").

Definition env_numbers : Env :=
  mkEnv (fun _ r => match r with
                    | ReqList [q] => numbers_answer q
                    | _ => inl (PlxScriptingError "Bad Request")
                    end)
        (fun _ => None) repr_str no_ensure no_ensure.

Definition numbers_proxy : Proxy :=
  mkProxy PlxProxyObjectValues "V" "PlxValues" (Some []) None None VNone.

Definition numbers_inv (s : State) : Prop :=
  allow_caching s = false /\ heap s !! 1%nat = Some numbers_proxy.

Definition st_numbers : State :=
  mkState [global_proxy; numbers_proxy] {[ "V" := 1%nat ]} ∅ false ∅ ∅ ∅ [] (VStr "") [].

(** C10, an instance: the last of the three numbers, asked for as
    [V[-1]].  The count query is sent, then the indexed query with the
    start index -1, and the answer of the connection is the result. *)
Lemma C10_witness :
  let r := __getitem__ env_numbers 1 (KInt (-1)) st_numbers in
  let s1 := snd (len env_numbers 1 st_numbers) in
  r = bind (len env_numbers 1)
        (fun _ => call_listable_method env_numbers 1 INDEX (Some (-1)) None None) st_numbers /\
  fst r = inr (VInt 30) /\
  log s1 = log st_numbers ++ [Sent (ReqList [mkListQuery "V" COUNT None None None])] /\
  exists aux,
    log (snd r) = log s1 ++ Sent (ReqList [mkListQuery "V" INDEX (Some (-1)) None None]) :: aux /\
    Forall is_aux aux.
Proof.
  destruct (C10_negative_index env_numbers 1 (-1) eq_refl) as (Heq & Hlog & _).
  split; [apply Heq|]. split; [vm_compute; reflexivity|]. split; [vm_compute; reflexivity|].
  apply (Hlog st_numbers 3 (snd (len env_numbers 1 st_numbers)) numbers_proxy).
  - apply pair_eta. vm_compute. reflexivity.
  - vm_compute. reflexivity.
  - left. vm_compute. reflexivity.
Defined.

(** The truth test of a phase key comes before the request of the lookup:
    with the values object, which is listable, as phase key, the count
    query is sent first and the request of the lookup, with the phase key,
    after it. *)
Example listable_phase_key_is_counted_first :
  let l := PropertyValues [Some 1%nat] (Some "x") (Some 1%nat) in
  lookup_request st_numbers l = None /\
  log (snd (run_lookup env_numbers l st_numbers))
  = log st_numbers ++ [Sent (ReqList [mkListQuery "V" COUNT None None None]);
                       Sent (ReqPropertyValues ["V"] (Some "x") "V")].
Proof. split; vm_compute; reflexivity. Qed.

Lemma numbers_inv_keeps m a b pn s :
  numbers_inv s -> numbers_inv (snd (call_listable_method env_numbers 1 m a b pn s)).
Proof.
  intros [Ha Hp]. unfold call_listable_method. rewrite (bind_deref _ _ _ _ Hp).
  rewrite (get_with_cache_disabled listables_cache with_listables_cache);
    [|apply read_rel_list_no_cache|exact Ha].
  pose proof (ext_any_list_no_cache env_numbers 1 m a b pn s) as H.
  split; [rewrite (ext_allow H); exact Ha|apply (ext_heap H), Hp].
Qed.

Lemma numbers_call m a b s :
  numbers_inv s ->
  fst (call_listable_method env_numbers 1 m a b None s)
  = match numbers_answer (mkListQuery "V" m a b None) with
    | inl e => inl e
    | inr response =>
        fst (bind (lift (getitem response JSON_LISTQUERIES))
               (fun qs => bind (lift (getitem_idx qs 0)) (handle_list_response env_numbers))
               (with_log (log s ++ [Sent (ReqList [mkListQuery "V" m a b None])]) s))
    end.
Proof.
  intros [Ha Hp]. unfold call_listable_method. rewrite (bind_deref _ _ _ _ Hp).
  rewrite (get_with_cache_disabled listables_cache with_listables_cache);
    [|apply read_rel_list_no_cache|exact Ha].
  unfold __call_listable_method_no_cache. rewrite (bind_deref _ _ _ _ Hp).
  unfold request_list, request, bind. simpl.
  destruct (numbers_answer _); reflexivity.
Qed.

Lemma numbers_count s : numbers_inv s ->
  exists s', call_listable_method env_numbers 1 COUNT None None None s
             = (inr (VInt (Z.of_nat (length numbers))), s') /\ numbers_inv s'.
Proof.
  intros Hs. exists (snd (call_listable_method env_numbers 1 COUNT None None None s)).
  split; [|apply numbers_inv_keeps, Hs].
  apply pair_eta. rewrite (numbers_call _ _ _ _ Hs). reflexivity.
Qed.

Lemma numbers_index s (k : nat) x : numbers_inv s -> numbers !! k = Some x ->
  exists s', call_listable_method env_numbers 1 INDEX (Some (Z.of_nat k)) None None s
             = (inr x, s') /\ numbers_inv s'.
Proof.
  intros Hs Hk.
  exists (snd (call_listable_method env_numbers 1 INDEX (Some (Z.of_nat k)) None None s)).
  split; [|apply numbers_inv_keeps, Hs].
  apply pair_eta. rewrite (numbers_call _ _ _ _ Hs).
  destruct k as [|[|[|k]]]; simpl in Hk; inversion Hk; subst; reflexivity.
Qed.

Lemma numbers_sublist s (a b : nat) : numbers_inv s -> (a < b <= length numbers)%nat ->
  exists s', call_listable_method env_numbers 1 SUBLIST (Some (Z.of_nat a)) (Some (Z.of_nat b)) None s
             = (inr (VList (take (b - a) (drop a numbers))), s') /\ numbers_inv s'.
Proof.
  intros Hs Hab. simpl in Hab.
  exists (snd (call_listable_method env_numbers 1 SUBLIST (Some (Z.of_nat a)) (Some (Z.of_nat b)) None s)).
  split; [|apply numbers_inv_keeps, Hs].
  apply pair_eta. rewrite (numbers_call _ _ _ _ Hs).
  destruct a as [|[|[|a]]]; destruct b as [|[|[|[|b]]]]; try lia; reflexivity.
Qed.

(** C5, an instance: three numbers behind the values object ["V"], with
    caching disabled. *)
Lemma C5_witness :
  (exists s', __iter__ env_numbers 1 st_numbers = (inr numbers, s') /\ numbers_inv s') /\
  (exists s', mapM (fun k => __getitem__ env_numbers 1 (KInt (Z.of_nat k)))
                   (seq 0 (length numbers)) st_numbers
              = (inr numbers, s') /\ numbers_inv s').
Proof.
  apply (C5_pagination env_numbers 1 numbers numbers_inv
           numbers_count numbers_index numbers_sublist).
  split; reflexivity.
Defined.

(** * Further properties of the session layer *)

(** ** Command lines (InputProcessor) *)



(** X2. The name under which a method is exposed on a proxy is never a
    Python keyword: a method name that is a keyword (after two leading
    underscores are removed) gets a trailing underscore. *)
Theorem exposed_name_not_keyword (method_name : string) :
  iskeyword (exposed_name method_name) = false.
Proof.
  unfold exposed_name.
  set (n := if startswith method_name "__" then str_drop 2 method_name else method_name).
  destruct (iskeyword n) eqn:E; [|exact E].
  assert (Hall : forallb (fun k => negb (iskeyword (k ++ "_")%string)) python_keywords = true)
    by (vm_compute; reflexivity).
  unfold iskeyword in E. apply existsb_exists in E as (k & Hk & Ek).
  apply String.eqb_eq in Ek. subst k.
  rewrite forallb_forall in Hall. specialize (Hall n Hk).
  apply negb_true_iff in Hall. exact Hall.
Qed.

Section CommandLines.
Context (env : Env).

Lemma params_to_strings_error h params p :
  In (VStr p) params -> is_error (wrap_string p) ->
  is_error (params_to_strings env h params).
Proof.
  intros Hin Hp. induction params as [|x params IH]; [destruct Hin|].
  destruct Hin as [->|Hin].
  - simpl. destruct (wrap_string p); [exact I|destruct Hp].
  - simpl. destruct (param_to_string env h x); [exact I|].
    specialize (IH Hin). destruct (params_to_strings env h params); [exact I|destruct IH].
Qed.

(** X3. A method call with a string parameter that cannot be wrapped
    raises before anything is sent: the session is left as [reset_caches]
    leaves it, so the query caches have been invalidated for a call that
    never reached the connection. *)
Theorem unrenderable_parameter_sends_nothing (proxy_obj : nat) (method_name : string)
    (params : list PyVal) (p : string) (s : State) :
  In (VStr p) params -> is_error (wrap_string p) ->
  let r := call_plx_object_method env proxy_obj method_name params s in
  is_error (fst r) /\ snd r = reset_state s /\
  requests_of (log (snd r)) = requests_of (log s).
Proof.
  intros Hin Hp r.
  assert (Hr : exists e, r = (inl e, reset_state s)).
  { subst r. unfold call_plx_object_method.
    unfold bind at 1. rewrite reset_caches_eq.
    unfold create_method_call_cmd. unfold bind at 1. rewrite bind_get.
    pose proof (params_to_strings_error (heap (reset_state s)) params p Hin Hp) as He.
    unfold params_to_string.
    destruct (params_to_strings env (heap (reset_state s)) params) as [e|parts]; [|destruct He].
    exists e. reflexivity. }
  destruct Hr as [e ->]. simpl. split; [exact I|]. split; [reflexivity|].
  clear. induction (log s) as [|[|r] l IH]; simpl; [reflexivity|exact IH|f_equal; exact IH].
Qed.

End CommandLines.

(** X3, an instance: the parameter holds all four delimiters. *)
Lemma unrenderable_parameter_witness :
  let p := (QUOTE ++ QUOTE ++ QUOTE ++ "'''")%string in
  let r := call_plx_object_method env_ok 0 "rename" [VInt 1; VStr p] (init_state true) in
  is_error (fst r) /\ snd r = reset_state (init_state true) /\
  requests_of (log (snd r)) = requests_of (log (init_state true)).
Proof.
  apply (unrenderable_parameter_sends_nothing env_ok 0 "rename"
           [VInt 1; VStr (QUOTE ++ QUOTE ++ QUOTE ++ "'''")%string]
           (QUOTE ++ QUOTE ++ QUOTE ++ "'''")%string (init_state true)).
  - right. left. reflexivity.
  - vm_compute. exact I.
Defined.

(** ** Command feedback (ResultHandler) *)

Section Feedback.
Context (env : Env).

Lemma _handle_successful_command_not_None r s v s' :
  _handle_successful_command env r s = (inr v, s') -> v <> VNone.
Proof.
  unfold _handle_successful_command, bind.
  destruct (lift (getitem r JSON_RETURNED_OBJECTS) s) as [[e|ros] s1]; [discriminate|].
  destruct (_create_proxies_from_returned_objects env ros false s1) as [[e|obj_list] s2];
    [discriminate|].
  destruct obj_list; try (intros E; inversion E; subst; discriminate).
  destruct r as [| | | | |d| |]; try discriminate. simpl.
  destruct (dict_get JSON_RETURNED_VALUES d) as [rv|] eqn:Erv; simpl.
  - destruct rv as [| | |x|l|d'| |]; simpl; try discriminate.
    + destruct (0 <? Z.of_nat (String.length x)) eqn:En.
      * intros E. inversion E; subst. discriminate.
      * destruct (dict_get JSON_EXTRAINFO d) as [info|]; simpl; [|discriminate].
        destruct (truthy info) eqn:Et; intros E; inversion E; subst; [|discriminate].
        intros ->. discriminate.
    + destruct (0 <? Z.of_nat (length l)) eqn:En.
      * intros E. inversion E; subst. discriminate.
      * destruct (dict_get JSON_EXTRAINFO d) as [info|]; simpl; [|discriminate].
        destruct (truthy info) eqn:Et; intros E; inversion E; subst; [|discriminate].
        intros ->. discriminate.
    + destruct (0 <? Z.of_nat (length d')) eqn:En.
      * intros E. inversion E; subst. discriminate.
      * destruct (dict_get JSON_EXTRAINFO d) as [info|]; simpl; [|discriminate].
        destruct (truthy info) eqn:Et; intros E; inversion E; subst; [|discriminate].
        intros ->. discriminate.
  - destruct (dict_get JSON_EXTRAINFO d) as [info|]; simpl; [|discriminate].
    destruct (truthy info) eqn:Et; intros E; inversion E; subst; [|discriminate].
    intros ->. discriminate.
Qed.

(** X4. The feedback of a command.  The extra information of the feedback
    becomes the last response whether the command succeeded or not.  An
    unsuccessful command raises [PlxScriptingError] with that information
    after the line [Unsuccessful command:], and nothing else changes; a
    successful command never returns [None]. *)
Theorem handle_commands_response_outcome (commands_response ok info : PyVal) (s : State) :
  getitem commands_response JSON_SUCCESS = inr ok ->
  getitem commands_response JSON_EXTRAINFO = inr info ->
  let r := handle_commands_response env commands_response s in
  (truthy ok = false ->
     snd r = with_last_response info s /\
     forall m, info = VStr m ->
       fst r = inl (PlxScriptingError ("Unsuccessful command:" ++ NL ++ m)%string)) /\
  (truthy ok = true -> forall v, fst r = inr v -> v <> VNone).
Proof.
  intros Hok Hinfo r.
  assert (Hr : r = (if truthy ok
                    then _handle_successful_command env commands_response
                    else unsuccessful commands_response) (with_last_response info s)).
  { subst r. unfold handle_commands_response.
    rewrite Hok, bind_lift_inr, Hinfo, bind_lift_inr. reflexivity. }
  split.
  - intros Hf. rewrite Hr, Hf. unfold unsuccessful. rewrite Hinfo, bind_lift_inr.
    split.
    + destruct info; reflexivity.
    + intros m ->. reflexivity.
  - intros Ht v Hv. rewrite Hr, Ht in Hv.
    eapply (_handle_successful_command_not_None commands_response).
    apply pair_eta. exact Hv.
Qed.

End Feedback.

(** X4, an instance: a command the server rejects. *)
Lemma handle_commands_response_witness :
  let fb := VDict [("success", VBool false); ("extrainfo", VStr "Unknown command")] in
  let r := handle_commands_response env_ok fb (init_state true) in
  (truthy (VBool false) = false ->
     snd r = with_last_response (VStr "Unknown command") (init_state true) /\
     forall m, VStr "Unknown command" = VStr m ->
       fst r = inl (PlxScriptingError ("Unsuccessful command:" ++ NL ++ m)%string)) /\
  (truthy (VBool false) = true -> forall v, fst r = inr v -> v <> VNone).
Proof.
  apply (handle_commands_response_outcome env_ok
           (VDict [("success", VBool false); ("extrainfo", VStr "Unknown command")])
           (VBool false) (VStr "Unknown command") (init_state true)); reflexivity.
Defined.

(** ** Property values *)

Lemma mapM_length {A B} (f : A -> M B) l s ys s' :
  mapM f l s = (inr ys, s') -> length ys = length l.
Proof.
  revert s ys. induction l as [|x l IH]; intros s ys; simpl.
  - intros E. inversion E. reflexivity.
  - unfold bind. destruct (f x s) as [[e|y] s1]; [discriminate|].
    destruct (mapM f l s1) as [[e|ys'] s2] eqn:E; [discriminate|].
    intros E'. inversion E'; subst. simpl. f_equal. eapply IH. exact E.
Qed.

Lemma guids_length h objs gs : guids h objs = Some gs -> length gs = length objs.
Proof.
  revert gs. induction objs as [|[po|] objs IH]; intros gs; simpl.
  - intros E. inversion E. reflexivity.
  - destruct (h !! po); [|discriminate]. destruct (guids h objs) as [gs'|]; [|discriminate].
    intros E. inversion E; subst. simpl. f_equal. apply IH. reflexivity.
  - discriminate.
Qed.

Lemma indexed_responses_length q i gs rs :
  indexed_responses q i gs = inr rs -> length rs = length gs.
Proof.
  revert i rs. induction gs as [|g gs IH]; intros i rs; simpl.
  - intros E. inversion E. reflexivity.
  - destruct (getitem_idx q i); [discriminate|]. destruct (getitem _ g); [discriminate|].
    destruct (indexed_responses q (S i) gs) as [e|rs'] eqn:E; [discriminate|].
    intros E'. inversion E'; subst. simpl. f_equal. eapply IH. exact E.
Qed.

Section PropertyValues.
Context (env : Env).

(** X5. A property-values query that is answered returns a list with one
    entry for each object it was asked about, in the order of the
    objects. *)
Theorem one_value_per_object (proxy_objects : list (option nat)) (prop_name : option string)
    (phase_object : option nat) (s s' : State) (v : PyVal) :
  __get_objects_property_no_cache env proxy_objects prop_name phase_object s = (inr v, s') ->
  exists rs, v = VList rs /\ length rs = length proxy_objects.
Proof.
  unfold __get_objects_property_no_cache, __get_objects_property_no_cache_. unfold bind at 1.
  match goal with |- context [match ?m s with _ => _ end] =>
    destruct (m s) as [[e|has_phase] s0]; [discriminate|] end.
  unfold bind at 1.
  pose proof (guids_of_spec proxy_objects s0) as Hgs.
  destruct (guids (heap s0) proxy_objects) as [gs|] eqn:Egs;
    [rewrite Hgs|destruct Hgs as [e ->]; discriminate].
  apply guids_length in Egs.
  unfold bind at 1.
  match goal with |- context [match ?m s0 with _ => _ end] =>
    destruct (m s0) as [[e|response] s1]; [discriminate|] end.
  unfold bind at 1.
  match goal with |- context [match ?m s1 with _ => _ end] =>
    destruct (m s1) as [[e|response_list] s2] eqn:Erl; [discriminate|] end.
  assert (Hlen : length response_list = length gs).
  { destruct gs as [|g [|g' gs]].
    - inversion Erl. reflexivity.
    - unfold bind in Erl.
      destruct (lift (getitem response JSON_QUERIES) s1) as [[e|q] s3]; [discriminate|].
      destruct (lift (getitem q g) s3) as [[e|r] s4]; [discriminate|].
      inversion Erl. reflexivity.
    - unfold bind in Erl.
      destruct (lift (getitem response JSON_QUERIES) s1) as [[e|q] s3]; [discriminate|].
      unfold lift in Erl.
      destruct (indexed_responses q 0 (g :: g' :: gs)) as [e|rs] eqn:Ei; [discriminate|].
      inversion Erl; subst. eapply indexed_responses_length. exact Ei. }
  unfold bind at 1.
  destruct (first_plx_type env proxy_objects s2) as [[e|owner_type] s3]; [discriminate|].
  unfold handle_propertyvalues_response, bind.
  match goal with |- context [mapM ?f response_list s3] =>
    destruct (mapM f response_list s3) as [[e|rs] s4] eqn:Em; [discriminate|] end.
  intros E. inversion E; subst. exists rs. split; [reflexivity|].
  apply mapM_length in Em. congruence.
Qed.

End PropertyValues.

(** X5, an instance: the staged value of one object in one phase. *)
Lemma one_value_per_object_witness :
  exists rs, VList [VRef 3] = VList rs /\ length rs = length [Some 1%nat].
Proof.
  apply (one_value_per_object env_staged [Some 1%nat] (Some "EA") (Some 2%nat)
           st_staged
           (snd (__get_objects_property_no_cache env_staged [Some 1%nat] (Some "EA")
                   (Some 2%nat) st_staged))).
  apply pair_eta. vm_compute. reflexivity.
Defined.

(** ** The query caches when a lookup is not memoized *)

(** With caching disabled the flag stays as it is and the three query
    caches are not written. *)
Definition unmemoized (s s' : State) : Prop :=
  allow_caching s = false ->
  allow_caching s' = false /\ globals_cache s' = globals_cache s /\
  values_cache s' = values_cache s /\ listables_cache s' = listables_cache s.

#[local] Instance unmemoized_preorder : PreOrder unmemoized.
Proof.
  split.
  - intros s Ha. auto.
  - intros s1 s2 s3 H1 H2 Ha. destruct (H1 Ha) as (A1 & G1 & V1 & L1).
    destruct (H2 A1) as (A2 & G2 & V2 & L2). repeat split; congruence.
Qed.

Lemma ext_unmemoized P s s' : ext_gen P s s' -> unmemoized s s'.
Proof.
  intros He Ha. rewrite (ext_allow He), (ext_globals He), (ext_values He), (ext_listables He).
  auto.
Qed.

Section CacheFrame.
Context {K : Type} `{Countable K}.
Context (cache : State -> gmap K PyVal) (with_cache : gmap K PyVal -> State -> State).

(** With caching disabled, or when the lookup raises, [__get_with_cache]
    does to the session what its uncached function does. *)
Lemma get_with_cache_frame key f s :
  keeps read_rel f ->
  allow_caching s = false \/ is_error (fst (__get_with_cache key cache with_cache f s)) ->
  snd (__get_with_cache key cache with_cache f s) = snd (f s).
Proof.
  intros Hf Hs.
  destruct (allow_caching s) eqn:Ha;
    [|rewrite (get_with_cache_disabled cache with_cache) by auto; reflexivity].
  destruct Hs as [Hs|He]; [discriminate|].
  destruct (cache s !! key) as [w|] eqn:Hc.
  - rewrite (get_with_cache_hit cache with_cache _ _ _ _ Ha Hc) in He. destruct He.
  - rewrite (get_with_cache_miss cache with_cache) in * by auto.
    unfold bind in *. destruct (f s) as [[e|r] s1]; [reflexivity|].
    exfalso. unfold get in He. destruct (allow_caching s1); exact He.
Qed.

Lemma unmemoized_get_with_cache key f :
  keeps unmemoized f -> keeps unmemoized (__get_with_cache key cache with_cache f).
Proof.
  intros Hf s Ha.
  assert (E : snd (__get_with_cache key cache with_cache f s) = snd (f s)).
  { rewrite (get_with_cache_miss cache with_cache) by auto.
    unfold bind at 1. specialize (Hf s Ha).
    destruct (f s) as [[e|r] s1]; [reflexivity|]. simpl in Hf.
    rewrite bind_get. destruct Hf as (Ha1 & _). rewrite Ha1. reflexivity. }
  rewrite E. exact (Hf s Ha).
Qed.

End CacheFrame.

Section Unmemoized.
Context (env : Env).

Lemma unmemoized_ext {A} (m : M A) : keeps ext m -> keeps unmemoized m.
Proof. apply keeps_weaken, ext_unmemoized. Qed.

Lemma unmemoized_run_lookup l : keeps unmemoized (run_lookup env l).
Proof.
  apply (frame_run_lookup env unmemoized _);
    auto using unmemoized_ext, ext_get_object_attributes, ext_handle_namedobjects_response,
      ext_handle_list_response, ext_handle_propertyvalues_response,
      unmemoized_get_with_cache.
  - intros r _. eapply keeps_weaken; [apply ext_unmemoized|apply ext_any_request].
  - intros self d s Ha. simpl. auto.
Qed.

Lemma run_lookup_frame l s :
  plain_lookup (heap s) l = true ->
  allow_caching s = false \/ is_error (fst (run_lookup env l s)) ->
  ext_any s (snd (run_lookup env l s)).
Proof.
  destruct l as [n|objs pn ph|p m a b pn]; simpl.
  - intros _ Hs. unfold get_named_object in *.
    rewrite get_with_cache_frame; [apply ext_any_name_no_cache| |exact Hs].
    apply read_rel_name_no_cache.
  - intros Hpl. apply andb_true_iff in Hpl as [Hph Ho].
    unfold get_objects_property, get_objects_property_.
    destruct (guids (heap s) objs) as [gs|] eqn:Egs.
    + rewrite (bind_guids_of _ _ _ _ Egs), bind_get.
      rewrite (bind_hash_phase_key _ _ _ (fun _ => plain_hashable _ _ Hph)).
      intros Hs.
      rewrite get_with_cache_frame; [|apply read_rel_props_no_cache|exact Hs].
      apply (ext_any_props_no_cache_plain env objs pn ph s Hph Ho).
    + destruct (bind_guids_of_None objs
                  (fun guids => bind get (fun s0 =>
                     bind (if allow_caching s0 then hash_phase_key ph else ret tt)
                       (fun _ => __get_with_cache (str_join " " guids, pn, ph)
                                   values_cache with_values_cache
                                   (__get_objects_property_no_cache_ env (bool_ env)
                                      objs pn ph)))) s Egs) as [e ->].
      intros _. reflexivity.
  - intros _. unfold call_listable_method. unfold bind at 1 2, deref.
    destruct (heap s !! p) as [q|]; [|reflexivity].
    intros Hs. rewrite get_with_cache_frame; [apply ext_any_list_no_cache| |exact Hs].
    apply read_rel_list_no_cache.
Qed.

(** X6. With caching disabled no lookup (named object, property values,
    collection method) reads or fills a query cache: the three caches and
    the flag are the same afterwards, so the next lookup asks again.  A
    lookup of a named object, of a collection method, or of property values
    with a plain phase key and a plain first owner sends its own request
    as the first new entry of the log, followed only by members and
    enumeration requests. *)
Theorem caching_disabled_always_requests (l : Lookup) (s : State) :
  allow_caching s = false ->
  let s' := snd (run_lookup env l s) in
  (globals_cache s' = globals_cache s /\ values_cache s' = values_cache s /\
   listables_cache s' = listables_cache s /\ allow_caching s' = false) /\
  (forall q, lookup_request s l = Some q ->
             exists aux, log s' = log s ++ Sent q :: aux /\ Forall is_aux aux).
Proof.
  intros Ha s'. split.
  - destruct (unmemoized_run_lookup l s Ha) as (A & G & V & L). auto.
  - intros q Hq. apply run_lookup_miss; [left; exact Ha|exact Hq].
Qed.

(** X7. A lookup that raises loses nothing that was cached: every entry of
    the three query caches is still there.  When the lookup is one of a
    named object, of a collection method, or of property values with a
    plain phase key and a plain first owner, it stores nothing either: the
    three caches are the same as before, so the failure is not remembered
    and the same lookup is tried again the next time. *)
Theorem failed_lookup_is_not_cached (l : Lookup) (s : State) :
  is_error (fst (run_lookup env l s)) ->
  let s' := snd (run_lookup env l s) in
  (globals_cache s ⊆ globals_cache s' /\ values_cache s ⊆ values_cache s' /\
   listables_cache s ⊆ listables_cache s') /\
  (plain_lookup (heap s) l = true ->
   globals_cache s' = globals_cache s /\ values_cache s' = values_cache s /\
   listables_cache s' = listables_cache s).
Proof.
  intros He s'. split.
  - pose proof (read_rel_run_lookup env l s) as Hr. fold s' in Hr.
    destruct Hr as [_ _ _ G V L _]. auto.
  - intros Hpl. pose proof (run_lookup_frame l s Hpl (or_intror He)) as Hf. fold s' in Hf.
    rewrite (ext_globals Hf), (ext_values Hf), (ext_listables Hf). auto.
Qed.

End Unmemoized.

(** X6, an instance: the count of the values object, caching disabled. *)
Lemma caching_disabled_witness :
  let l := CollectionMethod 1 COUNT None None None in
  let s' := snd (run_lookup env_numbers l st_numbers) in
  (globals_cache s' = globals_cache st_numbers /\ values_cache s' = values_cache st_numbers /\
   listables_cache s' = listables_cache st_numbers /\ allow_caching s' = false) /\
  (exists aux, log s' = log st_numbers
                 ++ Sent (ReqList [mkListQuery "V" COUNT None None None]) :: aux /\
               Forall is_aux aux).
Proof.
  destruct (caching_disabled_always_requests env_numbers
              (CollectionMethod 1 COUNT None None None) st_numbers eq_refl) as [Hc Hq].
  split; [exact Hc|]. apply Hq. reflexivity.
Defined.

(** X7, an instance: a named object is looked up while the connection is
    down. *)
Lemma failed_lookup_witness :
  let s' := snd (run_lookup env_down (NamedObject "Lines") st_warm) in
  (globals_cache st_warm ⊆ globals_cache s' /\ values_cache st_warm ⊆ values_cache s' /\
   listables_cache st_warm ⊆ listables_cache s') /\
  globals_cache s' = globals_cache st_warm /\ values_cache s' = values_cache st_warm /\
  listables_cache s' = listables_cache st_warm.
Proof.
  destruct (failed_lookup_is_not_cached env_down (NamedObject "Lines") st_warm) as [Hs He].
  - vm_compute. exact I.
  - split; [exact Hs|]. apply He. reflexivity.
Defined.

(** X8. Assigning [allow_caching].  The flag has the assigned value
    afterwards.  Assigning the value it already has changes nothing;
    assigning the other value, in either direction, invalidates: the three
    query caches are emptied and every proxy registered as volatile loses
    its attribute cache. *)
Theorem allow_caching_setter (value : bool) (s : State) :
  let r := set_allow_caching value s in
  fst r = inr tt /\ allow_caching (snd r) = value /\
  (allow_caching s = value -> snd r = s) /\
  (allow_caching s <> value ->
     caches_cold (snd r) /\ log (snd r) = log s ++ [Invalidate] /\
     forall i p, i ∈ _proxies_to_reset s -> heap s !! i = Some p ->
                 heap (snd r) !! i = Some (set_attr_cache None p)).
Proof.
  intros r.
  assert (Hr : r = if negb (Bool.eqb (allow_caching s) value)
                   then (inr tt, reset_state (with_allow_caching value s))
                   else (inr tt, s)).
  { subst r. unfold set_allow_caching. rewrite bind_get.
    destruct (negb (Bool.eqb (allow_caching s) value)); [|reflexivity].
    unfold bind, modify. rewrite reset_caches_eq. reflexivity. }
  rewrite Hr. destruct (Bool.eqb (allow_caching s) value) eqn:E; simpl.
  - apply Bool.eqb_prop in E.
    split; [reflexivity|]. split; [exact E|]. split; [reflexivity|].
    intros Hne. contradiction.
  - apply Bool.eqb_false_iff in E.
    split; [reflexivity|]. split; [reflexivity|]. split; [intros; contradiction|].
    intros _. split; [apply reset_state_cold|]. split; [reflexivity|].
    intros i p Hi Hp. rewrite reset_heap_lookup. simpl. rewrite Hp. simpl.
    rewrite bool_decide_eq_true_2 by exact Hi. reflexivity.
Qed.

(** * Handles over a session *)

(** A session as a sequence of operations: mutating ones and lookups. *)
Inductive Op : Type :=
| Mutate (m : Mutation)
| Read (l : Lookup).

Definition run_op (env : Env) (o : Op) : M PyVal :=
  match o with
  | Mutate m => run_mutation env m
  | Read l => run_lookup env l
  end.

Fixpoint run_ops (env : Env) (ops : list Op) (s : State) : State :=
  match ops with
  | [] => s
  | o :: ops' => run_ops env ops' (snd (run_op env o s))
  end.

Definition no_project (o : Op) : bool :=
  match o with
  | Mutate m => negb (is_project m)
  | Read _ => true
  end.

(** Every proxy is still there, with the fields that make its identity. *)
Definition stable (s s' : State) : Prop :=
  forall i q, heap s !! i = Some q ->
              exists q', heap s' !! i = Some q' /\ same_identity q q'.

(** The identity cache has only grown. *)
Definition ids_kept (s s' : State) : Prop :=
  proxy_object_cache s ⊆ proxy_object_cache s'.

#[local] Instance stable_preorder : PreOrder stable.
Proof.
  split.
  - intros s i q Hq. exists q. split; [exact Hq|]. repeat split.
  - intros s1 s2 s3 H1 H2 i q Hq.
    destruct (H1 i q Hq) as (q1 & Hq1 & I1). destruct (H2 i q1 Hq1) as (q2 & Hq2 & I2).
    exists q2. split; [exact Hq2|]. unfold same_identity in *. intuition congruence.
Qed.

#[local] Instance ids_kept_preorder : PreOrder ids_kept.
Proof.
  split.
  - intros s. unfold ids_kept. reflexivity.
  - intros s1 s2 s3 H1 H2. unfold ids_kept in *. etransitivity; eassumption.
Qed.

Lemma mut_rel_stable s s' : mut_rel s s' -> stable s s'.
Proof. intros H. exact (mut_heap _ _ H). Qed.

Lemma read_rel_stable s s' : read_rel s s' -> stable s s'.
Proof. intros H. exact (read_heap _ _ H). Qed.

Section Handles.
Context (env : Env).

Lemma mut_rel_run_mutation m : is_project m = false -> keeps mut_rel (run_mutation env m).
Proof.
  destruct m as [po n ps|pp pv|cs|c]; simpl; intros Hm; try discriminate.
  - apply mut_rel_call_plx_object_method.
  - apply mut_rel_set_object_property.
  - apply mut_rel_call_commands.
Qed.

Lemma stable_clear_proxy_object_cache : keeps stable clear_proxy_object_cache.
Proof. intros s i q Hq. exists q. split; [exact Hq|]. repeat split. Qed.

Lemma stable_environment_command cmd f : keeps stable (environment_command env cmd f).
Proof.
  unfold environment_command, request_environment. keeps_go.
  - eapply keeps_weaken; [apply mut_rel_stable|apply mut_rel_request].
  - eapply keeps_weaken; [apply mut_rel_stable|apply mut_rel_reset_caches].
  - apply stable_clear_proxy_object_cache.
Qed.

Lemma stable_run_op o : keeps stable (run_op env o).
Proof.
  destruct o as [m|l]; simpl.
  - destruct (is_project m) eqn:Hm.
    + destruct m as [| | |c]; try discriminate. destruct c; apply stable_environment_command.
    + eapply keeps_weaken; [apply mut_rel_stable|apply mut_rel_run_mutation, Hm].
  - eapply keeps_weaken; [apply read_rel_stable|apply read_rel_run_lookup].
Qed.

Lemma stable_run_ops ops s : stable s (run_ops env ops s).
Proof.
  revert s. induction ops as [|o ops IH]; intros s; simpl; [reflexivity|].
  etransitivity; [apply (stable_run_op o s)|apply IH].
Qed.

Lemma ids_kept_run_ops ops s :
  forallb no_project ops = true -> ids_kept s (run_ops env ops s).
Proof.
  revert s. induction ops as [|o ops IH]; intros s; simpl; [reflexivity|].
  intros Hops. apply andb_true_iff in Hops as [Ho Hops].
  etransitivity; [|apply IH, Hops].
  destruct o as [m|l]; simpl in *.
  - apply negb_true_iff in Ho. apply (mut_ids _ _ (mut_rel_run_mutation m Ho s)).
  - apply (read_ids _ _ (read_rel_run_lookup env l s)).
Qed.

(** X9. A handle is never freed and never retargeted.  After any sequence
    of method calls, property sets, command batches, project commands and
    lookups, a proxy is still at its reference and has the token, type,
    class, owner, property name and pinned value it was built with; only
    its attribute cache may differ. *)
Theorem handles_are_never_retargeted (ops : list Op) (s : State) (i : nat) (q : Proxy) :
  heap s !! i = Some q ->
  exists q', heap (run_ops env ops s) !! i = Some q' /\
             p_class q' = p_class q /\ _guid q' = _guid q /\ _plx_type q' = _plx_type q /\
             _owner q' = _owner q /\ _property_name q' = _property_name q /\
             _stagedIP_value q' = _stagedIP_value q.
Proof. intros Hq. apply (stable_run_ops ops s i q Hq). Qed.

(** X10. Method calls, property sets, command batches and lookups keep the
    identity cache: a token that resolved to a handle resolves to the same
    handle after any sequence of them, whatever metadata comes with the
    later call, and resolving it changes nothing. *)
Theorem commands_keep_handles (ops : list Op) (s : State) (guid : string) (h : nat) :
  forallb no_project ops = true ->
  proxy_object_cache s !! guid = Some h ->
  forall t l pn o,
    create_plx_proxy_object env guid t l pn o (run_ops env ops s)
    = (inr h, run_ops env ops s).
Proof.
  intros Hops Hh t l pn o. apply create_plx_proxy_object_hit.
  eapply lookup_weaken; [exact Hh|apply ids_kept_run_ops, Hops].
Qed.

(** X11. A project command that succeeds forgets every handle.  When the
    connection answers [new], [recover], [open] or [close] with a non-empty
    result, a token that had a handle has none afterwards: resolving it
    again builds another object, while the old one stays on the heap with
    the same token. *)
Theorem project_command_forgets_handles (c : ProjectCommand) (s : State) (v : PyVal)
    (guid : string) (h : nat) (p : Proxy) :
  gateway env (requests_of (log s)) (project_request c) = inr v ->
  truthy v = true ->
  proxy_object_cache s !! guid = Some h ->
  heap s !! h = Some p ->
  let s1 := snd (run_mutation env (Project c) s) in
  get_proxy_object_if_exists guid s1 = (inr None, s1) /\
  forall t l pn o h' s2,
    create_plx_proxy_object env guid t l pn o s1 = (inr h', s2) ->
    h' <> h /\
    (exists p', heap s2 !! h = Some p' /\ _guid p' = _guid p) /\
    (exists p2, heap s2 !! h' = Some p2 /\ _guid p2 = guid).
Proof.
  intros Hg Hv Hh Hp s1.
  assert (Hids : proxy_object_cache s1 = ∅).
  { subst s1. destruct c; simpl;
      unfold new, recover, open, close, environment_command, request_environment,
        request, bind; simpl in *; rewrite Hg; simpl; rewrite Hv; simpl;
      rewrite reset_caches_eq; reflexivity. }
  assert (Hst : stable s s1) by apply (stable_run_op (Mutate (Project c)) s).
  split.
  - unfold get_proxy_object_if_exists. rewrite bind_get, Hids, lookup_empty. reflexivity.
  - intros t l pn o h' s2 Hc.
    assert (Hnone : proxy_object_cache s1 !! guid = None) by (rewrite Hids; apply lookup_empty).
    destruct (create_plx_proxy_object_miss env _ _ _ _ _ _ _ _ Hnone Hc)
      as (Hlen & _ & p2 & Hp2 & Hg2 & _).
    destruct (Hst h p Hp) as (p1 & Hp1 & Hi1).
    pose proof (ext_create_plx_proxy_object env guid t l pn o s1) as Hext.
    rewrite Hc in Hext. simpl in Hext.
    split; [apply lookup_lt_Some in Hp1; lia|]. split.
    + exists p1. split; [apply (ext_heap Hext), Hp1|]. apply Hi1.
    + exists p2. auto.
Qed.

End Handles.

(** A connection that accepts project commands and command lines. *)
Definition env_project : Env :=
  mkEnv (fun _ r =>
           match r with
           | ReqEnvironment _ _ => inr (VStr "OK")
           | ReqCommands _ => inr feedback_ok
           | _ => inl (PlxScriptingError "Bad Request")
           end)
        (fun _ => None) repr_str no_ensure no_ensure.

Definition material_session : list Op :=
  [Mutate (Commands ["gotomesh"]); Mutate (Project New); Read (NamedObject "Lines")].

(** X9, an instance: the material after a command, a new project and a
    failed lookup. *)
Lemma handles_are_never_retargeted_witness :
  exists q', heap (run_ops env_project material_session st_material) !! 1%nat = Some q' /\
             p_class q' = p_class material /\ _guid q' = _guid material /\
             _plx_type q' = _plx_type material /\ _owner q' = _owner material /\
             _property_name q' = _property_name material /\
             _stagedIP_value q' = _stagedIP_value material.
Proof.
  apply (handles_are_never_retargeted env_project material_session st_material 1 material).
  vm_compute. reflexivity.
Defined.

(** X10, an instance: the polyline after a read and a command. *)
Lemma commands_keep_handles_witness :
  let ops := [Read first_vertex; Mutate (Commands ["add L 1 2"])] in
  create_plx_proxy_object env_polyline "L" "Point" false None None
    (run_ops env_polyline ops st_polyline)
  = (inr 1%nat, run_ops env_polyline ops st_polyline).
Proof.
  apply (commands_keep_handles env_polyline
           [Read first_vertex; Mutate (Commands ["add L 1 2"])] st_polyline "L" 1);
    vm_compute; reflexivity.
Defined.

(** X11, an instance: the material after [new]. *)
Lemma project_command_forgets_handles_witness :
  let s1 := snd (run_mutation env_project (Project New) st_material) in
  get_proxy_object_if_exists "M1" s1 = (inr None, s1) /\
  forall t l pn o h' s2,
    create_plx_proxy_object env_project "M1" t l pn o s1 = (inr h', s2) ->
    h' <> 1%nat /\
    (exists p', heap s2 !! 1%nat = Some p' /\ _guid p' = _guid material) /\
    (exists p2, heap s2 !! h' = Some p2 /\ _guid p2 = "M1").
Proof.
  apply (project_command_forgets_handles env_project New st_material (VStr "OK") "M1" 1
           material); vm_compute; reflexivity.
Defined.

(** ** Values pinned on a staged property proxy *)

Section Staged.
Context (env : Env).

Lemma _create_stagedIP_proxy_pins ro an s r s1 :
  _create_stagedIP_proxy env ro an s = (inr r, s1) ->
  exists id p v, r = VRef id /\ heap s1 !! id = Some p /\
                 getitem ro JSON_VALUE = inr v /\ _stagedIP_value p = v.
Proof.
  unfold _create_stagedIP_proxy. unfold bind at 1.
  destruct (lift (getitem ro JSON_GUID) s) as [[e|guid_v] s0] eqn:E0; [discriminate|].
  assert (s0 = s) as -> by (destruct (getitem ro JSON_GUID); inversion E0; reflexivity).
  unfold bind at 1.
  destruct (lift (as_str guid_v) s) as [[e|guid] s0] eqn:E1; [discriminate|].
  assert (s0 = s) as -> by (destruct (as_str guid_v); inversion E1; reflexivity).
  unfold bind at 1.
  destruct (lift (getitem ro JSON_TYPE) s) as [[e|ty] s0] eqn:E2; [discriminate|].
  assert (s0 = s) as -> by (destruct (getitem ro JSON_TYPE); inversion E2; reflexivity).
  unfold bind at 1.
  destruct (lift (as_str ty) s) as [[e|pt] s0] eqn:E3; [discriminate|].
  assert (s0 = s) as -> by (destruct (as_str ty); inversion E3; reflexivity).
  unfold bind at 1.
  destruct (_create_plx_proxy_property env guid pt false an None s) as [[e|id] s2] eqn:E4;
    [discriminate|].
  apply _create_plx_proxy_property_fresh in E4 as (_ & _ & c & Hid).
  unfold bind at 1.
  destruct (getitem ro JSON_VALUE) as [e|v] eqn:E5; [discriminate|].
  simpl. unfold bind, update_proxy, modify, ret. simpl.
  intros E. inversion E; subst. eexists id, _, v.
  split; [reflexivity|]. split; [|split; [reflexivity|]].
  - simpl. rewrite list_lookup_alter_eq, Hid. reflexivity.
  - reflexivity.
Qed.

(** X12. The value of a proxy built for a staged primitive is a snapshot.
    The proxy is pinned to the literal that came with the response: reading
    its [value] returns that literal without any request and without any
    change to the session, also after method calls, property sets, command
    batches, project commands and other lookups. *)
Theorem staged_value_is_a_snapshot (returned_object : PyVal) (attr_name : option string)
    (s s1 : State) (id : nat) (v : PyVal) (ops : list Op) :
  _create_stagedIP_proxy env returned_object attr_name s = (inr (VRef id), s1) ->
  getitem returned_object JSON_VALUE = inr v ->
  v <> VNone ->
  let s2 := run_ops env ops s1 in
  value env id s2 = (inr v, s2).
Proof.
  intros Hc Hv Hne s2.
  destruct (_create_stagedIP_proxy_pins _ _ _ _ _ Hc) as (id' & p & v' & Hr & Hp & Hv' & Hpin).
  injection Hr as <-. rewrite Hv in Hv'. injection Hv' as <-.
  destruct (stable_run_ops env ops s1 id p Hp) as (q' & Hq' & Hi).
  fold s2 in Hq'. unfold value, value_. rewrite (bind_deref _ _ _ _ Hq').
  destruct Hi as (_ & _ & _ & _ & _ & Hst). rewrite Hst, Hpin.
  destruct v; try reflexivity. contradiction.
Qed.

End Staged.

(** X12, an instance: the staged stiffness is read, then set by a
    command; the proxy still gives the value it was built with. *)
Lemma staged_value_witness :
  let ro := VDict [("guid", VStr "S1"); ("type", VStr "Number"); ("value", VInt 5)] in
  let s1 := snd (_create_stagedIP_proxy env_staged ro (Some "EA") st_staged) in
  let s2 := run_ops env_staged [Mutate (Commands ["set S1 7"])] s1 in
  value env_staged 3 s2 = (inr (VInt 5), s2).
Proof.
  apply (staged_value_is_a_snapshot env_staged
           (VDict [("guid", VStr "S1"); ("type", VStr "Number"); ("value", VInt 5)])
           (Some "EA") st_staged
           (snd (_create_stagedIP_proxy env_staged
                   (VDict [("guid", VStr "S1"); ("type", VStr "Number"); ("value", VInt 5)])
                   (Some "EA") st_staged))
           3 (VInt 5) [Mutate (Commands ["set S1 7"])]).
  - apply pair_eta. vm_compute. reflexivity.
  - reflexivity.
  - discriminate.
Defined.

(** * Enumeration classes *)

(** The classes built by [_create_proxy_enumeration] are still there. *)
Definition enum_kept (s s' : State) : Prop :=
  _proxy_enum_classes s ⊆ _proxy_enum_classes s'.

#[local] Instance enum_kept_preorder : PreOrder enum_kept.
Proof.
  split.
  - intros s. unfold enum_kept. reflexivity.
  - intros s1 s2 s3 H1 H2. unfold enum_kept in *. etransitivity; eassumption.
Qed.

(** A step that does not assign [_proxy_enum_classes]. *)
Lemma enum_kept_same {A} (m : M A) :
  (forall s, _proxy_enum_classes (snd (m s)) = _proxy_enum_classes s) -> keeps enum_kept m.
Proof. intros H s. unfold enum_kept. rewrite H. reflexivity. Qed.

Create HintDb enum_kept.

Ltac enum_prim := apply enum_kept_same; intros ?; reflexivity.
Ltac enum_go := keeps_go; eauto with enum_kept.

#[local] Hint Extern 1 (keeps enum_kept (modify _)) => enum_prim : enum_kept.
#[local] Hint Extern 1 (keeps enum_kept (update_proxy _ _)) => enum_prim : enum_kept.
#[local] Hint Extern 1 (keeps enum_kept (new_proxy _ _ _ _ _)) => enum_prim : enum_kept.
#[local] Hint Extern 1 (keeps enum_kept (add_proxy_to_reset _)) => enum_prim : enum_kept.
#[local] Hint Extern 1 (keeps enum_kept (set_last_response _)) => enum_prim : enum_kept.
#[local] Hint Extern 1 (keeps enum_kept clear_proxy_object_cache) => enum_prim : enum_kept.
#[local] Hint Extern 1 (keeps enum_kept (request _ _)) => enum_prim : enum_kept.

Section EnumKept.
Context (env : Env).

Lemma enum_kept_reset_caches : keeps enum_kept reset_caches.
Proof. apply enum_kept_same. intros s. rewrite reset_caches_eq. reflexivity. Qed.
Hint Resolve enum_kept_reset_caches : enum_kept.

Lemma enum_kept__create_proxy_enumeration g n :
  keeps enum_kept (_create_proxy_enumeration env g n).
Proof.
  intros s. unfold _create_proxy_enumeration. rewrite bind_get. unfold enum_kept.
  destruct (_proxy_enum_classes s !! n) as [c|] eqn:Hn; [reflexivity|].
  unfold request_enumeration, request, bind. simpl.
  destruct (gateway env _ _) as [e|r]; simpl; [reflexivity|].
  destruct (getitem r JSON_QUERIES) as [e|q]; simpl; [reflexivity|].
  destruct (getitem q g) as [e|response]; simpl; [reflexivity|].
  unfold _handle_enumeration_request, bind.
  destruct (getitem response JSON_SUCCESS) as [e|ok]; simpl; [reflexivity|].
  destruct (truthy ok); simpl.
  - destruct (getitem response JSON_ENUMVALUES) as [e|d]; simpl; [reflexivity|].
    destruct d; simpl; try reflexivity.
    apply insert_subseteq. exact Hn.
  - destruct (getitem response JSON_EXTRAINFO) as [e|info]; simpl; reflexivity.
Qed.
Hint Resolve enum_kept__create_proxy_enumeration : enum_kept.

Lemma enum_kept__create_plx_proxy_property g t l pn o :
  keeps enum_kept (_create_plx_proxy_property env g t l pn o).
Proof. unfold _create_plx_proxy_property. enum_go. Qed.
Hint Resolve enum_kept__create_plx_proxy_property : enum_kept.

Lemma enum_kept_create_plx_proxy_object g t l pn o :
  keeps enum_kept (create_plx_proxy_object env g t l pn o).
Proof. unfold create_plx_proxy_object. enum_go. Qed.
Hint Resolve enum_kept_create_plx_proxy_object : enum_kept.

Lemma enum_kept__create_proxy_object_ fetch ro pn o :
  (forall x, keeps enum_kept (fetch x)) ->
  keeps enum_kept (_create_proxy_object_ env fetch ro pn o).
Proof.
  intros Hf. unfold _create_proxy_object_, get_proxy_object_if_exists. enum_go.
Qed.

Lemma enum_kept_members_commands po l d : keeps enum_kept (members_commands po l d).
Proof.
  revert d. induction l as [|x l IH]; intros d; simpl; [keeps_go|].
  destruct x; try (apply keeps_raise; typeclasses eauto). apply IH.
Qed.
Hint Resolve enum_kept_members_commands : enum_kept.

Lemma enum_kept_members_properties po pd names d :
  keeps enum_kept (members_properties env po pd names d).
Proof.
  revert d. induction names as [|n names IH]; intros d; simpl; keeps_go; auto.
  apply enum_kept__create_proxy_object_. intros x. keeps_go.
Qed.
Hint Resolve enum_kept_members_properties : enum_kept.

Lemma enum_kept_handle_members_response r po :
  keeps enum_kept (handle_members_response env r po).
Proof. unfold handle_members_response. enum_go. Qed.
Hint Resolve enum_kept_handle_members_response : enum_kept.

Lemma enum_kept_get_object_attributes po : keeps enum_kept (get_object_attributes env po).
Proof. unfold get_object_attributes, request_members. enum_go. Qed.
Hint Resolve enum_kept_get_object_attributes : enum_kept.

Lemma enum_kept__create_proxy_object ro pn o :
  keeps enum_kept (_create_proxy_object env ro pn o).
Proof. apply enum_kept__create_proxy_object_. intros x. enum_go. Qed.
Hint Resolve enum_kept__create_proxy_object : enum_kept.

Lemma enum_kept_create_one ro : keeps enum_kept (create_one env ro).
Proof. unfold create_one. destruct ro; enum_go. Qed.
Hint Resolve enum_kept_create_one : enum_kept.

Lemma enum_kept__create_proxies_from_returned_objects ros allow :
  keeps enum_kept (_create_proxies_from_returned_objects env ros allow).
Proof. unfold _create_proxies_from_returned_objects. enum_go. Qed.
Hint Resolve enum_kept__create_proxies_from_returned_objects : enum_kept.

Lemma enum_kept_unsuccessful r : keeps enum_kept (unsuccessful r).
Proof. unfold unsuccessful. enum_go. Qed.
Hint Resolve enum_kept_unsuccessful : enum_kept.

Lemma enum_kept__handle_successful_command r :
  keeps enum_kept (_handle_successful_command env r).
Proof. unfold _handle_successful_command. enum_go. Qed.
Hint Resolve enum_kept__handle_successful_command : enum_kept.

Lemma enum_kept_handle_namedobjects_response r :
  keeps enum_kept (handle_namedobjects_response env r).
Proof. unfold handle_namedobjects_response. enum_go. Qed.
Hint Resolve enum_kept_handle_namedobjects_response : enum_kept.

Lemma enum_kept_handle_commands_response r :
  keeps enum_kept (handle_commands_response env r).
Proof. unfold handle_commands_response. enum_go. Qed.
Hint Resolve enum_kept_handle_commands_response : enum_kept.

Lemma enum_kept_handle_list_response r : keeps enum_kept (handle_list_response env r).
Proof. unfold handle_list_response. enum_go. Qed.
Hint Resolve enum_kept_handle_list_response : enum_kept.

Lemma enum_kept__create_stagedIP_proxy ro an :
  keeps enum_kept (_create_stagedIP_proxy env ro an).
Proof. unfold _create_stagedIP_proxy. enum_go. Qed.
Hint Resolve enum_kept__create_stagedIP_proxy : enum_kept.

Lemma enum_kept__get_single_propertyvalues j an ot :
  keeps enum_kept (_get_single_propertyvalues env j an ot).
Proof. unfold _get_single_propertyvalues. enum_go. Qed.
Hint Resolve enum_kept__get_single_propertyvalues : enum_kept.

Lemma enum_kept_handle_propertyvalues_response l an ot :
  keeps enum_kept (handle_propertyvalues_response env l an ot).
Proof. unfold handle_propertyvalues_response. enum_go. Qed.
Hint Resolve enum_kept_handle_propertyvalues_response : enum_kept.

Lemma enum_kept_get_with_cache {K} `{Countable K} (key : K) cache with_cache f :
  (forall c s, _proxy_enum_classes (with_cache c s) = _proxy_enum_classes s) ->
  keeps enum_kept f ->
  keeps enum_kept (__get_with_cache key cache with_cache f).
Proof.
  intros Hw Hf. unfold __get_with_cache. keeps_go.
  apply enum_kept_same. intros s. simpl. apply Hw.
Qed.

Lemma enum_kept_run_lookup l : keeps enum_kept (run_lookup env l).
Proof.
  apply (frame_run_lookup env enum_kept _); eauto with enum_kept;
    try (intros key f Hf; apply enum_kept_get_with_cache; [reflexivity|exact Hf]).
  intros self d. unfold assign_attr_cache. eauto with enum_kept.
Qed.

Lemma enum_kept_call_and_handle_command c : keeps enum_kept (call_and_handle_command env c).
Proof.
  unfold call_and_handle_command, call_and_handle_commands, call_commands, request_commands.
  enum_go.
Qed.
Hint Resolve enum_kept_call_and_handle_command : enum_kept.

Lemma enum_kept_call_plx_object_method po n ps :
  keeps enum_kept (call_plx_object_method env po n ps).
Proof. unfold call_plx_object_method, create_method_call_cmd. enum_go. Qed.
Hint Resolve enum_kept_call_plx_object_method : enum_kept.

Lemma enum_kept_run_mutation m : keeps enum_kept (run_mutation env m).
Proof.
  destruct m as [po n ps|pp pv|cs|c]; simpl.
  - apply enum_kept_call_plx_object_method.
  - unfold set_object_property. enum_go.
  - unfold call_commands, request_commands. enum_go.
  - destruct c; simpl;
      unfold new, recover, open, close, environment_command, request_environment; enum_go.
Qed.

Lemma enum_kept_run_ops ops s : enum_kept s (run_ops env ops s).
Proof.
  revert s. induction ops as [|o ops IH]; intros s; simpl; [reflexivity|].
  etransitivity; [|apply IH].
  destruct o as [m|l]; simpl; [apply enum_kept_run_mutation|apply enum_kept_run_lookup].
Qed.

(** X13. The names of an enumeration are fetched once for its type name
    and for the whole session.  A first [_create_proxy_enumeration] for a
    type name that is not known sends one enumeration request, for the
    property it was called for; after any sequence of method calls,
    property sets, command batches, project commands and lookups, asking
    for the class of the same type name, for whatever property, returns the
    same class without a request and without any change to the session. *)
Theorem enumeration_class_is_fetched_once (proxy_enum_guid proxy_enum_name : string)
    (s s1 : State) (c : ProxyClass) :
  _proxy_enum_classes s !! proxy_enum_name = None ->
  _create_proxy_enumeration env proxy_enum_guid proxy_enum_name s = (inr c, s1) ->
  log s1 = log s ++ [Sent (ReqEnumeration [proxy_enum_guid])] /\
  forall ops other_guid,
    let s2 := run_ops env ops s1 in
    _create_proxy_enumeration env other_guid proxy_enum_name s2 = (inr c, s2).
Proof.
  intros Hn Hc.
  assert (H1 : log s1 = log s ++ [Sent (ReqEnumeration [proxy_enum_guid])] /\
               _proxy_enum_classes s1 !! proxy_enum_name = Some c).
  { revert Hc. unfold _create_proxy_enumeration. rewrite bind_get, Hn.
    unfold request_enumeration, request, bind. simpl.
    destruct (gateway env _ _) as [e|r]; simpl; [discriminate|].
    destruct (getitem r JSON_QUERIES) as [e|q]; simpl; [discriminate|].
    destruct (getitem q proxy_enum_guid) as [e|response]; simpl; [discriminate|].
    unfold _handle_enumeration_request, bind.
    destruct (getitem response JSON_SUCCESS) as [e|ok]; simpl; [discriminate|].
    destruct (truthy ok); simpl.
    - destruct (getitem response JSON_ENUMVALUES) as [e|d]; simpl; [discriminate|].
      destruct d; simpl; try discriminate.
      intros E. inversion E; subst. simpl. split; [reflexivity|apply lookup_insert_eq].
    - destruct (getitem response JSON_EXTRAINFO) as [e|info]; simpl; discriminate. }
  destruct H1 as [Hlog Hstored]. split; [exact Hlog|].
  intros ops other_guid s2.
  assert (Hs2 : _proxy_enum_classes s2 !! proxy_enum_name = Some c).
  { eapply lookup_weaken; [exact Hstored|apply (enum_kept_run_ops ops s1)]. }
  unfold _create_proxy_enumeration. rewrite bind_get, Hs2. reflexivity.
Qed.

End EnumKept.

(** X13, an instance: the enumeration of the property ["Mode"]. *)
Lemma enumeration_class_witness :
  let s1 := snd (_create_proxy_enumeration env_enum "E1" "enumMode" (init_state true)) in
  log s1 = log (init_state true) ++ [Sent (ReqEnumeration ["E1"])] /\
  forall ops other_guid,
    let s2 := run_ops env_enum ops s1 in
    _create_proxy_enumeration env_enum other_guid "enumMode" s2
    = (inr (p_class mode_proxy), s2).
Proof.
  apply (enumeration_class_is_fetched_once env_enum "E1" "enumMode" (init_state true)
           (snd (_create_proxy_enumeration env_enum "E1" "enumMode" (init_state true)))
           (p_class mode_proxy)).
  - reflexivity.
  - apply pair_eta. vm_compute. reflexivity.
Defined.

(** ** The attributes of an enumeration class *)

Lemma dict_get_set_eq {A} k (v : A) d : dict_get k (dict_set k v d) = Some v.
Proof.
  induction d as [|[k' v'] d IH]; simpl.
  - rewrite String.eqb_refl. reflexivity.
  - destruct (String.eqb k k') eqn:E; simpl; rewrite ?String.eqb_refl, ?E; auto.
Qed.

Lemma dict_get_set_ne {A} k k' (v : A) d :
  k <> k' -> dict_get k' (dict_set k v d) = dict_get k' d.
Proof.
  intros Hne. induction d as [|[k0 v0] d IH]; simpl.
  - destruct (String.eqb k' k) eqn:E; [apply String.eqb_eq in E; congruence|reflexivity].
  - destruct (String.eqb k k0) eqn:E; simpl.
    + apply String.eqb_eq in E. subst k0.
      destruct (String.eqb k' k) eqn:E'; [apply String.eqb_eq in E'; congruence|reflexivity].
    + destruct (String.eqb k' k0); auto.
Qed.

Lemma dict_keys_set {A} k (v : A) d :
  dict_keys (dict_set k v d) = if dict_mem k d then dict_keys d else dict_keys d ++ [k].
Proof.
  unfold dict_mem, dict_keys. induction d as [|[k' v'] d IH]; simpl; [reflexivity|].
  destruct (String.eqb k k') eqn:E; simpl.
  - apply String.eqb_eq in E. subst. reflexivity.
  - rewrite IH. destruct (dict_get k d); reflexivity.
Qed.

Lemma dict_mem_In {A} k (d : list (string * A)) :
  dict_mem k d = true <-> In k (dict_keys d).
Proof.
  unfold dict_mem, dict_keys. induction d as [|[k' v'] d IH]; simpl.
  - split; [discriminate|intros []].
  - destruct (String.eqb k k') eqn:E.
    + apply String.eqb_eq in E. subst. split; auto.
    + apply String.eqb_neq in E. rewrite IH. split; [auto|intros [->|H]; [congruence|auto]].
Qed.

Lemma dict_keys_set_NoDup {A} k (v : A) d :
  NoDup (dict_keys d) -> NoDup (dict_keys (dict_set k v d)).
Proof.
  intros Hd. rewrite dict_keys_set. destruct (dict_mem k d) eqn:E; [exact Hd|].
  apply (proj2 (NoDup_app _ _)). split; [exact Hd|]. split.
  - intros x Hx Hk. apply list_elem_of_singleton in Hk. subst x.
    apply list_elem_of_In, dict_mem_In in Hx. congruence.
  - apply NoDup_singleton.
Qed.

Lemma dict_keys_set_In {A} k (v : A) d x :
  In x (dict_keys (dict_set k v d)) <-> x = k \/ In x (dict_keys d).
Proof.
  rewrite dict_keys_set. destruct (dict_mem k d) eqn:E.
  - apply dict_mem_In in E. split; [auto|intros [->|H]; auto].
  - rewrite in_app_iff. simpl. split; [intros [H|[<-|[]]]; auto|intros [->|H]; auto].
Qed.

Lemma str_filter_In f s c :
  In c (list_ascii_of_string (str_filter f s)) -> f c = true.
Proof.
  induction s as [|a s IH]; simpl; [intros []|].
  destruct (f a) eqn:E; simpl; [intros [<-|H]; auto|auto].
Qed.

Lemma enum_class_dict_fold (d acc : list (string * PyVal)) :
  let td := fold_left (fun td kv => dict_set (sanitize_key (fst kv)) (snd kv) td) d acc in
  (NoDup (dict_keys acc) -> NoDup (dict_keys td)) /\
  (forall k, In k (dict_keys td) <->
             In k (dict_keys acc) \/ exists k0 v, In (k0, v) d /\ k = sanitize_key k0).
Proof.
  revert acc. induction d as [|[k0 v0] d IH]; intros acc; simpl.
  - split; [auto|]. intros k. split; [auto|intros [H|(k0 & v & [] & _)]; exact H].
  - destruct (IH (dict_set (sanitize_key k0) v0 acc)) as [IH1 IH2]. split.
    + intros Hacc. apply IH1, dict_keys_set_NoDup, Hacc.
    + intros k. rewrite IH2, dict_keys_set_In. split.
      * intros [[->|H]|(k1 & v1 & H1 & ->)]; [right|left|right]; eauto 6.
      * intros [H|(k1 & v1 & [E|H1] & ->)]; [auto|inversion E; subst; auto|right; eauto].
Qed.

(** X14. The attributes of an enumeration class.  The class has one
    attribute for each name of the enumeration with its non-ASCII characters
    removed, and no other; no attribute name holds a non-ASCII character;
    no name occurs twice; and when two names of the enumeration give the
    same attribute name the later value is kept. *)
Theorem enum_class_dict_attributes (enum_dict : list (string * PyVal)) :
  NoDup (dict_keys (enum_class_dict enum_dict)) /\
  (forall k, In k (dict_keys (enum_class_dict enum_dict)) <->
             exists k0 v, In (k0, v) enum_dict /\ k = sanitize_key k0) /\
  (forall k c, In k (dict_keys (enum_class_dict enum_dict)) ->
               In c (list_ascii_of_string k) -> (nat_of_ascii c < 128)%nat) /\
  (forall k v, dict_get (sanitize_key k) (enum_class_dict (enum_dict ++ [(k, v)])) = Some v).
Proof.
  destruct (enum_class_dict_fold enum_dict []) as [H1 H2].
  assert (Hkeys : forall k, In k (dict_keys (enum_class_dict enum_dict)) <->
                            exists k0 v, In (k0, v) enum_dict /\ k = sanitize_key k0).
  { intros k. unfold enum_class_dict. rewrite H2. simpl. tauto. }
  split; [apply H1; constructor|]. split; [exact Hkeys|]. split.
  - intros k c Hk Hc. apply Hkeys in Hk as (k0 & v & _ & ->).
    apply str_filter_In in Hc. apply Nat.ltb_lt in Hc. exact Hc.
  - intros k v. unfold enum_class_dict. rewrite fold_left_app. simpl.
    apply dict_get_set_eq.
Qed.

(** The type of the first owner is read after the request of the lookup:
    with the global object as owner, the attribute lookup on it asks for a
    named object, fetches the member map and asks again. *)
Definition env_global_values : Env :=
  mkEnv (fun sent r =>
           match r with
           | ReqPropertyValues _ _ _ => inr (property_answer "" "x" (VInt 1))
           | _ => gateway env_global sent r
           end)
        (fun _ => None) repr_str no_ensure no_ensure.

Example global_owner_is_asked_for_its_type :
  let l := PropertyValues [Some 0%nat] (Some "x") None in
  let r := run_lookup env_global_values l (init_state true) in
  lookup_request (init_state true) l = None /\
  fst r = inl (AttributeError "Requested attribute is not present") /\
  log (snd r) = [Sent (ReqPropertyValues [""] (Some "x") "");
                 Sent (ReqNamedObjects ["_plx_type"]); Sent (ReqMembers [""]);
                 Sent (ReqNamedObjects ["_plx_type"])].
Proof. repeat split; vm_compute; reflexivity. Qed.

(** * Attribute caches *)

Section AttrCache.
Context (env : Env).

Lemma read_rel_PlxProxyObject__ensure_cache_is_valid self :
  keeps read_rel (PlxProxyObject__ensure_cache_is_valid env self).
Proof.
  unfold PlxProxyObject__ensure_cache_is_valid.
  keeps_go; auto using read_rel_assign_attr_cache, read_rel_ext, ext_get_object_attributes.
Qed.

(** X15. The members of a proxy whose class inherits
    [PlxProxyObject._ensure_cache_is_valid] (an object proxy that is not
    listable, a material, a property that is neither listable nor
    object-valued) are fetched once, unless it has none.  After a read of
    [attr_cache] that gave a dictionary which is not empty, reading it again
    returns the same dictionary without any request and without any change
    to the session.  After a read that gave an empty dictionary, the next
    read sends the members request again.  The [attr_cache] of the global
    object is its member map as it is: reading it asks nothing. *)
Theorem members_are_fetched_once (self : nat) (s : State) (p0 : Proxy) :
  heap s !! self = Some p0 ->
  (ensures_as_PlxProxyObject (p_class p0) = true ->
   forall d s1,
     attr_cache env self s = (inr (Some d), s1) ->
     (d <> [] -> attr_cache env self s1 = (inr (Some d), s1)) /\
     (d = [] -> forall p, heap s1 !! self = Some p ->
        exists evs, log (snd (attr_cache env self s1))
                    = log s1 ++ Sent (ReqMembers [_guid p]) :: evs)) /\
  (p_class p0 = PlxProxyGlobalObject ->
   attr_cache env self s = (inr (_attr_cache p0), s)).
Proof.
  intros Hp0. split.
  - intros Hc0 d s1 Hr.
    assert (Hp : exists p, heap s1 !! self = Some p /\ _attr_cache p = Some d /\
                           p_class p = p_class p0).
    { revert Hr. rewrite (attr_cache_PlxProxyObject env self p0 s Hp0 Hc0). unfold bind at 1.
      pose proof (read_rel_PlxProxyObject__ensure_cache_is_valid self s) as Hrel.
      destruct (PlxProxyObject__ensure_cache_is_valid env self s) as [[e|[]] s0];
        [discriminate|]. simpl in Hrel.
      destruct (read_heap _ _ Hrel _ _ Hp0) as (p & Hp & Hcl & _).
      rewrite (bind_deref _ _ _ _ Hp). unfold ret. intros E. inversion E; subst. eauto. }
    destruct Hp as (p & Hp & Hc & Hcl).
    assert (Hens : ensures_as_PlxProxyObject (p_class p) = true) by (rewrite Hcl; exact Hc0).
    split.
    + intros Hd. apply (attr_cache_kept env self p d s1 Hp Hens Hc Hd).
    + intros -> p' Hp'. rewrite Hp in Hp'. injection Hp' as <-.
      apply (attr_cache_refetch env self p s1 Hp Hens). right. exact Hc.
  - intros Hg. unfold attr_cache. rewrite (bind_deref _ _ _ _ Hp0), Hg. reflexivity.
Qed.

End AttrCache.

(** X15, an instance: the members of the soil ["G1"], and the member map of
    the global object. *)
Lemma members_are_fetched_once_witness :
  (([("Mode", VRef 2)] <> [] ->
      attr_cache env_enum 1 st_enum = (inr (Some [("Mode", VRef 2)]), st_enum)) /\
   ([("Mode", VRef 2)] = [] -> forall p, heap st_enum !! 1%nat = Some p ->
      exists evs, log (snd (attr_cache env_enum 1 st_enum))
                  = log st_enum ++ Sent (ReqMembers [_guid p]) :: evs)) /\
  attr_cache env_enum 0 st_enum = (inr (_attr_cache global_proxy), st_enum).
Proof.
  split.
  - refine (proj1 (members_are_fetched_once env_enum 1
             (snd (create_plx_proxy_object env_enum "G1" "Soil" false None None
                     (init_state true)))
             (mkProxy PlxProxyObject "G1" "Soil" (Some []) None None VNone) _)
             eq_refl [("Mode", VRef 2)] st_enum _).
    + vm_compute. reflexivity.
    + apply (pair_eta (attr_cache env_enum 1
               (snd (create_plx_proxy_object env_enum "G1" "Soil" false None None
                       (init_state true)))) (inr (Some [("Mode", VRef 2)]))).
      vm_compute. reflexivity.
  - refine (proj2 (members_are_fetched_once env_enum 0 st_enum global_proxy _) eq_refl).
    vm_compute. reflexivity.
Defined.

(** * The selection *)

Section SelectionCommands.
Context (env : Env).

Lemma ext_any_selection command gs :
  keeps ext_any (bind (request env (ReqSelection command gs))
                      (handle_selection_response env)).
Proof.
  apply keeps_bind; [typeclasses eauto|apply ext_any_request|intros v].
  eapply keeps_weaken; [apply ext_ext_any|apply ext_handle_selection_response].
Qed.

(** X16. A selection command ([get], [set], [append], [remove]) sends one
    selection request with the tokens of its objects, in their order; it
    does not invalidate: the three query caches are as they were; and what
    it returns is a list, also when the selection is empty or holds one
    object. *)
Theorem selection_command_outcome (command : string) (objects : list nat) (s : State)
    (gs : list string) :
  guids (heap s) (map Some objects) = Some gs ->
  let r := call_selection_command env command objects s in
  (exists aux, log (snd r) = log s ++ Sent (ReqSelection command gs) :: aux /\
               Forall is_aux aux) /\
  globals_cache (snd r) = globals_cache s /\ values_cache (snd r) = values_cache s /\
  listables_cache (snd r) = listables_cache s /\
  (forall v, fst r = inr v -> exists l, v = VList l).
Proof.
  intros Hgs r.
  assert (Hr : r = bind (request env (ReqSelection command gs))
                        (handle_selection_response env) s).
  { subst r. unfold call_selection_command. rewrite (bind_guids_of _ _ _ _ Hgs). reflexivity. }
  rewrite Hr. split; [|split; [|split; [|split]]].
  - apply bind_request_aux. intros v. apply ext_handle_selection_response.
  - assert (He : keeps ext_any (bind (request env (ReqSelection command gs))
                                     (handle_selection_response env))).
    { apply ext_any_selection. }
    apply (ext_globals (He s)).
  - assert (He : keeps ext_any (bind (request env (ReqSelection command gs))
                                     (handle_selection_response env))).
    { apply ext_any_selection. }
    apply (ext_values (He s)).
  - assert (He : keeps ext_any (bind (request env (ReqSelection command gs))
                                     (handle_selection_response env))).
    { apply ext_any_selection. }
    apply (ext_listables (He s)).
  - intros v. unfold bind.
    destruct (request env (ReqSelection command gs) s) as [[e|resp] s0]; [discriminate|].
    destruct (handle_selection_response env resp s0) as [[e|w] s2] eqn:E; [discriminate|].
    simpl. intros Hv. inversion Hv; subst. eapply selection_is_list. exact E.
Qed.

End SelectionCommands.

(** A connection that holds an empty selection. *)
Definition env_selection : Env :=
  mkEnv (fun _ r =>
           match r with
           | ReqSelection _ _ => inr (VDict [("selection", VList [])])
           | _ => inl (PlxScriptingError "Bad Request")
           end)
        (fun _ => None) repr_str no_ensure no_ensure.

(** X16, an instance: the polyline is removed from the selection, which is
    empty afterwards. *)
Lemma selection_command_witness :
  let r := call_selection_command env_selection "remove" [1%nat] st_polyline in
  (exists aux, log (snd r) = log st_polyline ++ Sent (ReqSelection "remove" ["L"]) :: aux /\
               Forall is_aux aux) /\
  globals_cache (snd r) = globals_cache st_polyline /\
  values_cache (snd r) = values_cache st_polyline /\
  listables_cache (snd r) = listables_cache st_polyline /\
  (forall v, fst r = inr v -> exists l, v = VList l).
Proof.
  apply (selection_command_outcome env_selection "remove" [1%nat] st_polyline ["L"]).
  vm_compute. reflexivity.
Defined.

(** * The number of round trips of an iteration *)

Lemma page_plan_length fuel cache_start length :
  length - cache_start <= Z.of_nat fuel ->
  Z.of_nat (List.length (page_plan fuel cache_start length))
  = (Z.max 0 (length - cache_start) + (ITER_CACHE_COUNT - 1)) / ITER_CACHE_COUNT.
Proof.
  unfold ITER_CACHE_COUNT.
  revert cache_start. induction fuel as [|fuel IH]; intros cs Hf; simpl.
  - destruct (cs <? length) eqn:E; [apply Z.ltb_lt in E; lia|].
    apply Z.ltb_ge in E. simpl. rewrite Z.max_l by lia. reflexivity.
  - destruct (cs <? length) eqn:E.
    + apply Z.ltb_lt in E. simpl List.length. rewrite Nat2Z.inj_succ.
      unfold ITER_CACHE_COUNT in *. rewrite IH by lia.
      rewrite (Z.max_r 0 (length - cs)) by lia.
      destruct (Z.min_spec (cs + 100) length) as [[Hlt ->]|[Hge ->]].
      * rewrite Z.max_r by lia.
        replace (length - cs + (100 - 1)) with ((length - (cs + 100) + (100 - 1)) + 1 * 100)
          by lia.
        rewrite Z.div_add by lia. lia.
      * rewrite Z.max_l by lia.
        replace (Z.succ ((0 + (100 - 1)) / 100)) with 1 by reflexivity.
        apply Z.div_unique with (r := length - cs - 1); lia.
    + apply Z.ltb_ge in E. simpl. rewrite Z.max_l by lia. reflexivity.
Qed.

Section RoundTrips.
Context (env : Env) (self : nat).

(** X17. An iteration over a collection of length N is the length query
    followed by sublist queries for ceil(N / 100) windows: none when the
    collection is empty, one for up to 100 elements. *)
Theorem iteration_round_trips (s : State) :
  __iter__ env self s
  = bind (len env self)
      (fun n => fetch_pages env self (page_plan (Z.to_nat n) 0 n)) s /\
  forall n, 0 <= n ->
    Z.of_nat (List.length (page_plan (Z.to_nat n) 0 n))
    = (n + (ITER_CACHE_COUNT - 1)) / ITER_CACHE_COUNT.
Proof.
  split; [apply iter_plan|].
  intros n Hn. rewrite page_plan_length by lia.
  rewrite Z.sub_0_r, Z.max_r by lia. reflexivity.
Qed.

End RoundTrips.

(** * The attribute dictionary of a proxy *)

Lemma insert_sorted_In x y l : In x (insert_sorted y l) <-> x = y \/ In x l.
Proof.
  induction l as [|z l IH]; simpl; [intuition|].
  destruct (String.leb y z); simpl; [intuition|]. rewrite IH. intuition.
Qed.

Lemma sorted_In x l : In x (sorted l) <-> In x l.
Proof.
  unfold sorted. induction l as [|y l IH]; simpl; [reflexivity|].
  rewrite insert_sorted_In, IH. intuition.
Qed.

Section Members.
Context (env : Env).

Lemma members_commands_keys po cmds acc s attrs s' :
  members_commands po cmds acc s = (inr attrs, s') ->
  forall k, In k (dict_keys attrs) <->
            In k (dict_keys acc) \/ exists m, In (VStr m) cmds /\ k = exposed_name m.
Proof.
  revert acc. induction cmds as [|x cmds IH]; intros acc; simpl.
  - intros E k. inversion E; subst. split; [auto|intros [H|(m & [] & _)]; exact H].
  - destruct x as [| | |m| | | |]; try discriminate.
    intros E k. rewrite (IH _ E k), dict_keys_set_In. split.
    + intros [[->|H]|(m' & Hm' & ->)]; [right|left|right]; eauto.
    + intros [H|(m' & [Hm'|Hm'] & ->)]; [auto|inversion Hm'; subst; auto|right; eauto].
Qed.

Lemma members_properties_keys po pd names acc s attrs s' :
  members_properties env po pd names acc s = (inr attrs, s') ->
  forall k, In k (dict_keys attrs) <-> In k (dict_keys acc) \/ In k names.
Proof.
  revert acc s. induction names as [|n names IH]; intros acc s; simpl.
  - intros E k. inversion E; subst. tauto.
  - unfold bind at 1. destruct (lift (getitem pd n) s) as [[e|ro] s0]; [discriminate|].
    unfold bind at 1.
    destruct (_create_proxy_object_ env (fun _ => ret tt) ro (Some n) (Some po) s0)
      as [[e|ip] s1]; [discriminate|].
    intros E k. rewrite (IH _ _ E k), dict_keys_set_In. intuition.
Qed.

Lemma handle_members_response_dict rd po s :
  handle_members_response env (VDict rd) po s =
  bind (match dict_get JSON_COMMANDS rd with
        | Some commands_list =>
            bind (lift (py_iter commands_list)) (fun l => members_commands po l [])
        | None => ret []
        end)
       (fun proxy_attributes =>
          match dict_get JSON_PROPERTIES rd with
          | Some properties_dict =>
              match properties_dict with
              | VDict d =>
                  members_properties env po properties_dict (sorted (dict_keys d))
                    proxy_attributes
              | _ => raise (AttributeError "object has no attribute 'keys'")
              end
          | None => ret proxy_attributes
          end) s.
Proof.
  unfold handle_members_response. simpl. unfold dict_mem.
  destruct (dict_get JSON_COMMANDS rd) as [c|];
    destruct (dict_get JSON_PROPERTIES rd) as [p|]; reflexivity.
Qed.

(** X18. The attribute dictionary built from a members response holds
    every property of the response under its name and every command under
    its exposed name (two leading underscores removed, a trailing
    underscore added to a Python keyword), and nothing else. *)
Theorem members_are_all_exposed (members_response : PyVal) (proxy_obj : nat)
    (s s' : State) (attrs : list (string * PyVal)) :
  handle_members_response env members_response proxy_obj s = (inr attrs, s') ->
  forall k, In k (dict_keys attrs) <->
    (exists commands_list l m,
        getitem members_response JSON_COMMANDS = inr commands_list /\
        py_iter commands_list = inr l /\ In (VStr m) l /\ k = exposed_name m) \/
    (exists d, getitem members_response JSON_PROPERTIES = inr (VDict d) /\
               In k (dict_keys d)).
Proof.
  destruct members_response as [| | |x|l0|rd| |]; try discriminate.
  - (* a string: no key can be read from it *)
    unfold handle_members_response. simpl.
    destruct (str_contains x JSON_COMMANDS); [discriminate|]. simpl.
    destruct (str_contains x JSON_PROPERTIES); [discriminate|]. simpl.
    intros E k. inversion E; subst. simpl.
    split; [intros []|intros [(c & l & m & H & _)|(d & H & _)]; discriminate].
  - unfold handle_members_response. simpl.
    destruct (existsb _ l0); [discriminate|]. simpl.
    destruct (existsb _ l0); [discriminate|]. simpl.
    intros E k. inversion E; subst. simpl.
    split; [intros []|intros [(c & l & m & H & _)|(d & H & _)]; discriminate].
  - rewrite handle_members_response_dict. unfold bind at 1. simpl getitem.
    destruct (dict_get JSON_COMMANDS rd) as [c|] eqn:Ec.
    + unfold bind at 1. destruct (py_iter c) as [e|l] eqn:El; [discriminate|]. simpl.
      destruct (members_commands proxy_obj l [] s) as [[e|pa] s0] eqn:Em; [discriminate|].
      pose proof (members_commands_keys _ _ _ _ _ _ Em) as Hpa.
      destruct (dict_get JSON_PROPERTIES rd) as [p|] eqn:Ep.
      * destruct p as [| | | | |d| |]; try discriminate.
        intros E k. rewrite (members_properties_keys _ _ _ _ _ _ _ E k), Hpa, sorted_In.
        simpl. split.
        -- intros [[[]|(m & Hm & ->)]|Hk]; [left; eauto 10|right; eauto].
        -- intros [(c' & l' & m & Hc & Hl & Hm & ->)|(d' & Hd & Hk)].
           ++ inversion Hc; subst c'. rewrite El in Hl. inversion Hl; subst l'. eauto.
           ++ inversion Hd; subst d'. auto.
      * intros E k. inversion E; subst. rewrite Hpa. simpl. split.
        -- intros [[]|(m & Hm & ->)]. left; eauto 10.
        -- intros [(c' & l' & m & Hc & Hl & Hm & ->)|(d' & Hd & _)]; [|discriminate].
           inversion Hc; subst c'. rewrite El in Hl. inversion Hl; subst l'. eauto.
    + simpl. destruct (dict_get JSON_PROPERTIES rd) as [p|] eqn:Ep.
      * destruct p as [| | | | |d| |]; try discriminate.
        intros E k. rewrite (members_properties_keys _ _ _ _ _ _ _ E k), sorted_In.
        simpl. split.
        -- intros [[]|Hk]. right; eauto.
        -- intros [(c' & l' & m & Hc & _)|(d' & Hd & Hk)]; [discriminate|].
           inversion Hd; subst d'. auto.
      * intros E k. inversion E; subst. simpl.
        split; [intros []|intros [(c & l & m & H & _)|(d & H & _)]; discriminate].
Qed.

End Members.

(** X18, an instance: three commands, one of them a Python keyword and
    one with two leading underscores. *)
Lemma members_are_all_exposed_witness :
  let r := VDict [("commands", VList [VStr "delete"; VStr "import"; VStr "__rename"]);
                  ("properties", VDict [])] in
  In "import_" (dict_keys [("delete", VMethod 1 "delete"); ("import_", VMethod 1 "import");
                           ("rename", VMethod 1 "__rename")]) <->
    (exists commands_list l m,
        getitem r JSON_COMMANDS = inr commands_list /\
        py_iter commands_list = inr l /\ In (VStr m) l /\ "import_" = exposed_name m) \/
    (exists d, getitem r JSON_PROPERTIES = inr (VDict d) /\ In "import_" (dict_keys d)).
Proof.
  apply (members_are_all_exposed env_ok
           (VDict [("commands", VList [VStr "delete"; VStr "import"; VStr "__rename"]);
                   ("properties", VDict [])])
           1 (init_state true) (init_state true)
           [("delete", VMethod 1 "delete"); ("import_", VMethod 1 "import");
            ("rename", VMethod 1 "__rename")]).
  vm_compute. reflexivity.
Defined.

(** * The result of a command *)

Lemma requests_of_app evs evs' :
  requests_of (evs ++ evs') = requests_of evs ++ requests_of evs'.
Proof.
  induction evs as [|[|r] evs IH]; simpl; [reflexivity|exact IH|f_equal; exact IH].
Qed.

Section CommandResult.
Context (env : Env).

Lemma handle_commands_response_not_None r s v s' :
  handle_commands_response env r s = (inr v, s') -> v <> VNone.
Proof.
  unfold handle_commands_response. unfold bind at 1.
  destruct (lift (getitem r JSON_SUCCESS) s) as [[e|ok] s0]; [discriminate|].
  unfold bind at 1.
  destruct (lift (getitem r JSON_EXTRAINFO) s0) as [[e|info] s1]; [discriminate|].
  unfold bind at 1. unfold set_last_response, modify.
  destruct (truthy ok).
  - apply _handle_successful_command_not_None.
  - unfold unsuccessful, bind.
    destruct (lift (getitem r JSON_EXTRAINFO) _) as [[e|i] s2]; [discriminate|].
    destruct (lift (str_plus _ i) s2) as [[e|m] s3]; discriminate.
Qed.

(** X19. A command returns [None] only when the reply of the connection
    holds no feedback.  When the connection answers the command line and
    the call returns, the result is [None] if and only if the reply has no
    [commands] entry or an empty one; with a feedback, the result is what
    the first feedback gives, which is never [None]. *)
Theorem command_result_is_None_only_without_feedback (command : string) (s s' : State)
    (reply v : PyVal) :
  gateway env (requests_of (log s)) (ReqCommands [command]) = inr reply ->
  call_and_handle_command env command s = (inr v, s') ->
  (v = VNone <->
   exists c, dict_get_default reply JSON_COMMANDS (VList []) = inr c /\ py_iter c = inr []).
Proof.
  intros Hg. unfold call_and_handle_command, call_and_handle_commands, call_commands.
  rewrite !bind_assoc. unfold bind at 1. rewrite reset_caches_eq.
  rewrite bind_assoc. unfold request_commands, request. unfold bind at 1.
  assert (Hreq : requests_of (log (reset_state s)) = requests_of (log s))
    by (simpl; rewrite requests_of_app; simpl; apply app_nil_r).
  rewrite Hreq, Hg.
  unfold bind at 1.
  destruct (dict_get_default reply JSON_COMMANDS (VList [])) as [e|c] eqn:Ec;
    [discriminate|]. simpl lift. unfold ret at 1.
  rewrite bind_assoc. unfold bind at 1.
  destruct (py_iter c) as [e|l] eqn:El; [discriminate|]. simpl lift. unfold ret at 1.
  unfold bind at 1.
  match goal with |- context [mapM ?f l ?st] =>
    destruct (mapM f l st) as [[e|ys] s2] eqn:Em; [discriminate|] end.
  destruct l as [|r l].
  - simpl in Em. inversion Em; subst. intros E. inversion E; subst.
    split; [eauto|reflexivity].
  - simpl in Em. unfold bind at 1 in Em.
    match type of Em with context [bind ?m ?k ?st] =>
      destruct (bind m k st) as [[e|y] s3] eqn:Ey; [discriminate|] end.
    unfold bind at 1 in Em.
    match type of Em with context [mapM ?f l s3] =>
      destruct (mapM f l s3) as [[e|ys'] s4]; [discriminate|] end.
    inversion Em; subst. intros E. inversion E; subst.
    assert (Hy : v <> VNone).
    { revert Ey. unfold bind at 1.
      match goal with |- context [lift ?x ?st] =>
        destruct (lift x st) as [[e|fb] s5]; [discriminate|] end.
      apply handle_commands_response_not_None. }
    split; [intros ->; contradiction|].
    intros (c' & Hc' & Hl). inversion Hc'; subst c'. rewrite El in Hl. discriminate.
Qed.

End CommandResult.

(** A connection whose replies hold no feedback. *)
Definition env_silent : Env :=
  mkEnv (fun _ r =>
           match r with
           | ReqCommands _ => inr (VDict [])
           | _ => inl (PlxScriptingError "Bad Request")
           end)
        (fun _ => None) repr_str no_ensure no_ensure.

(** X19, an instance: a reply without feedback. *)
Lemma command_result_witness :
  VNone = VNone <->
  exists c, dict_get_default (VDict []) JSON_COMMANDS (VList []) = inr c /\ py_iter c = inr [].
Proof.
  apply (command_result_is_None_only_without_feedback env_silent "gotomesh"
           (init_state true)
           (snd (call_and_handle_command env_silent "gotomesh" (init_state true)))
           (VDict []) VNone).
  - reflexivity.
  - apply pair_eta. vm_compute. reflexivity.
Defined.

(** * The registry of volatile proxies *)

(** The registry is the same. *)
Definition registry_same (s s' : State) : Prop :=
  _proxies_to_reset s' = _proxies_to_reset s.

#[local] Instance registry_same_preorder : PreOrder registry_same.
Proof.
  split.
  - intros s. reflexivity.
  - intros s1 s2 s3 H1 H2. unfold registry_same in *. congruence.
Qed.

Section Registry.
Context (env : Env).

Lemma registry_same_new_proxy c g t pn o : keeps registry_same (new_proxy c g t pn o).
Proof. intros s. reflexivity. Qed.

Lemma registry_same__create_proxy_enumeration g n :
  keeps registry_same (_create_proxy_enumeration env g n).
Proof.
  unfold _create_proxy_enumeration, _handle_enumeration_request, request_enumeration.
  keeps_go; intros s; reflexivity.
Qed.

Lemma registry_same__create_plx_proxy_property g t l pn o :
  keeps registry_same (_create_plx_proxy_property env g t l pn o).
Proof.
  unfold _create_plx_proxy_property.
  keeps_go; auto using registry_same_new_proxy, registry_same__create_proxy_enumeration.
Qed.

(** X20. Which proxies are volatile.  [create_plx_proxy_object] registers
    the object it returns for a reset at every invalidation exactly when it
    builds it (the token was not in the identity cache), without an owner,
    for the type [SoilMat]; the new reference is then the last entry of the
    registry.  In every other case, among them a [SoilMat] object that has an
    owner and a token that is already known, the registry is as it was. *)
Theorem volatile_registration (guid plx_type : string) (is_listable : bool)
    (property_name : option string) (owner : option nat) (s s' : State) (h : nat) :
  create_plx_proxy_object env guid plx_type is_listable property_name owner s = (inr h, s') ->
  _proxies_to_reset s' =
  match proxy_object_cache s !! guid, owner with
  | None, None =>
      if String.eqb plx_type "SoilMat" then _proxies_to_reset s ++ [h] else _proxies_to_reset s
  | _, _ => _proxies_to_reset s
  end.
Proof.
  unfold create_plx_proxy_object. rewrite bind_get.
  destruct (proxy_object_cache s !! guid) as [existing|] eqn:Hg.
  - intros E. inversion E; subst. reflexivity.
  - destruct owner as [o|].
    + unfold bind at 1.
      pose proof (registry_same__create_plx_proxy_property guid plx_type is_listable
                    property_name (Some o) s) as Hr.
      destruct (_create_plx_proxy_property env guid plx_type is_listable property_name
                  (Some o) s) as [[e|id] s1]; [discriminate|].
      simpl in Hr. unfold bind, modify, ret. simpl. intros E. inversion E; subst.
      simpl. exact Hr.
    + destruct (String.eqb plx_type "PlxValues") eqn:E1.
      * apply String.eqb_eq in E1. subst plx_type. simpl.
        unfold bind, new_proxy, alloc, modify, ret. simpl.
        intros E. inversion E; subst. reflexivity.
      * destruct (String.eqb plx_type "SoilMat") eqn:E2.
        -- unfold bind, new_proxy, alloc, add_proxy_to_reset, modify, ret. simpl.
           intros E. inversion E; subst. reflexivity.
        -- destruct is_listable; unfold bind, new_proxy, alloc, modify, ret; simpl;
             intros E; inversion E; subst; reflexivity.
Qed.

End Registry.

(** X20, an instance: the material ["M1"]. *)
Lemma volatile_registration_witness :
  _proxies_to_reset (snd (create_plx_proxy_object env_ok "M1" "SoilMat" false None None
                            (init_state true)))
  = match proxy_object_cache (init_state true) !! "M1", @None nat with
    | None, None =>
        if String.eqb "SoilMat" "SoilMat"
        then _proxies_to_reset (init_state true) ++ [1%nat]
        else _proxies_to_reset (init_state true)
    | _, _ => _proxies_to_reset (init_state true)
    end.
Proof.
  apply (volatile_registration env_ok "M1" "SoilMat" false None None (init_state true)
           (snd (create_plx_proxy_object env_ok "M1" "SoilMat" false None None
                   (init_state true))) 1).
  apply pair_eta. vm_compute. reflexivity.
Defined.

(** * Assignment by index *)

Section IndexAssignment.
Context (env : Env).

(** [Server.set_object_property] applied to whatever [self[key]] gave.  A
    proxy is the target of the [set] command; [None] is no target; any other
    value has no [get_cmd_line_repr], which [create_method_call_cmd] finds
    out after it has converted the parameters. *)
Definition set_object_property_on (target : PyVal) (prop_value : list PyVal) : M PyVal :=
  match target with
  | VRef proxy_property => set_object_property env proxy_property prop_value
  | VNone =>
      reset_caches ;;; reset_caches ;;;
      method_call_cmd <- create_method_call_cmd env None "set" prop_value ;;
      call_and_handle_command env method_call_cmd
  | _ =>
      reset_caches ;;; reset_caches ;;;
      s <- get ;;
      _ <- lift (params_to_string env (heap s) prop_value) ;;
      raise (AttributeError "object has no attribute 'get_cmd_line_repr'")
  end.

(** [PlxProxyListable.__setitem__] *)
Definition PlxProxyListable___setitem__ (self : nat) (key : Key) (value : PyVal) : M PyVal :=
  item <- __getitem__ env self key ;;
  set_object_property_on item [value].

(** The command line of a parameter does not depend on attribute caches. *)
Lemma param_to_string_reset_heap l h :
  forall v, param_to_string env (reset_heap l h) v = param_to_string env h v.
Proof.
  fix IH 1. intros [| | | |lst| |id|]; simpl; try reflexivity.
  - assert (Hgo : forall lst0,
      (fix go (l0 : list PyVal) : Exn + list string :=
         match l0 with
         | [] => inr []
         | x :: l' => match param_to_string env (reset_heap l h) x with
                      | inl e => inl e
                      | inr sx => match go l' with
                                  | inl e => inl e
                                  | inr r => inr (sx :: r)
                                  end
                      end
         end) lst0 =
      (fix go (l0 : list PyVal) : Exn + list string :=
         match l0 with
         | [] => inr []
         | x :: l' => match param_to_string env h x with
                      | inl e => inl e
                      | inr sx => match go l' with
                                  | inl e => inl e
                                  | inr r => inr (sx :: r)
                                  end
                      end
         end) lst0).
    { clear lst. fix IHl 1. intros [|x lst0]; [reflexivity|].
      rewrite (IH x), (IHl lst0). reflexivity. }
    rewrite Hgo. reflexivity.
  - rewrite reset_heap_lookup. destruct (h !! id) as [p|]; simpl; [|reflexivity].
    destruct (bool_decide (id ∈ l)); destruct p; reflexivity.
Qed.

Lemma params_to_string_reset_heap l h params :
  params_to_string env (reset_heap l h) params = params_to_string env h params.
Proof.
  unfold params_to_string.
  assert (H : params_to_strings env (reset_heap l h) params = params_to_strings env h params).
  { induction params as [|x params IH]; simpl; [reflexivity|].
    rewrite param_to_string_reset_heap, IH. reflexivity. }
  rewrite H. reflexivity.
Qed.

(** A command line is sent right after an invalidation. *)
Lemma call_and_handle_command_log c s :
  exists evs, log (snd (call_and_handle_command env c s))
              = log s ++ Invalidate :: Sent (ReqCommands [c]) :: evs.
Proof.
  unfold call_and_handle_command, call_and_handle_commands, call_commands.
  rewrite !bind_assoc. unfold bind at 1. rewrite reset_caches_eq.
  rewrite bind_assoc. unfold request_commands.
  destruct (bind_request_log env (ReqCommands [c])
              (fun a => bind (lift (dict_get_default a JSON_COMMANDS (VList [])))
                 (fun a0 => bind (bind (lift (py_iter a0))
                    (fun l => mapM (fun r => bind (lift (getitem r JSON_FEEDBACK))
                                               (handle_commands_response env)) l))
                    (fun response => match response with
                                     | [] => ret VNone
                                     | r :: _ => ret r
                                     end)))
              (reset_state s)) as [evs Hl].
  { intros v. keeps_go.
    eapply keeps_weaken; [apply ext_log_grows|apply ext_handle_commands_response]. }
  exists evs. etransitivity; [exact Hl|]. simpl. rewrite <- app_assoc. reflexivity.
Qed.

(** X21. Assignment by index, [self[key] = value], case by case on what
    [self[key]] gives.  When the read raises (a key that is neither an
    integer nor a slice, an integer beyond the end, a failed query) the
    assignment raises the same exception and nothing is invalidated or
    sent.  A proxy is the target of a property set.  [None], which is what
    an empty slice gives, is no target: the command line [set] followed by
    the value goes out after three invalidations.  Any other value (a
    number, a text, a list of several elements) raises before anything is
    sent, with the caches invalidated. *)
Theorem index_assignment (self : nat) (key : Key) (value : PyVal) (s : State) :
  let r := PlxProxyListable___setitem__ self key value s in
  match __getitem__ env self key s with
  | (inl e, s1) => r = (inl e, s1)
  | (inr (VRef p), s1) => r = set_object_property env p [value] s1
  | (inr VNone, s1) =>
      match params_to_string env (heap s1) [value] with
      | inl e => r = (inl e, reset_state (reset_state s1))
      | inr ps =>
          exists evs,
            log (snd r)
            = log s1 ++ Invalidate :: Invalidate :: Invalidate
                 :: Sent (ReqCommands
                            [str_join " " ("set" :: if negb (String.eqb ps "") then [ps] else [])])
                 :: evs
      end
  | (inr _, s1) => is_error (fst r) /\ snd r = reset_state (reset_state s1)
  end.
Proof.
  intros r. destruct (__getitem__ env self key s) as [[e|item] s1] eqn:Eg.
  { subst r. unfold PlxProxyListable___setitem__, bind. rewrite Eg. reflexivity. }
  assert (Hr : r = set_object_property_on item [value] s1).
  { subst r. unfold PlxProxyListable___setitem__, bind. rewrite Eg. reflexivity. }
  rewrite Hr. clear Hr r Eg.
  assert (Hother : forall t,
    exists e,
      bind reset_caches (fun _ => bind reset_caches (fun _ =>
        bind get (fun s0 => bind (lift (params_to_string env (heap s0) [value]))
          (fun _ => @raise PyVal (AttributeError t))))) s1
      = (inl e, reset_state (reset_state s1))).
  { intros t. unfold bind at 1. rewrite reset_caches_eq.
    unfold bind at 1. rewrite reset_caches_eq. rewrite bind_get.
    unfold bind, lift.
    destruct (params_to_string env (heap (reset_state (reset_state s1))) [value]);
      simpl; eauto. }
  destruct item as [| | | | | |p|];
    try (simpl set_object_property_on;
         match goal with |- context [AttributeError ?t] =>
           destruct (Hother t) as [e0 ->] end; simpl; auto; fail);
    [|reflexivity].
  simpl set_object_property_on.
  assert (Hps : params_to_string env (heap (reset_state (reset_state s1))) [value]
                = params_to_string env (heap s1) [value]).
  { simpl. rewrite !params_to_string_reset_heap. reflexivity. }
  assert (Hrun : forall k : string -> M PyVal,
    bind reset_caches (fun _ => bind reset_caches (fun _ =>
      bind (create_method_call_cmd env None "set" [value]) k)) s1
    = match params_to_string env (heap s1) [value] with
      | inl e => (inl e, reset_state (reset_state s1))
      | inr ps => k (str_join " " ("set" :: if negb (String.eqb ps "") then [ps] else []))
                    (reset_state (reset_state s1))
      end).
  { intros k. unfold bind at 1. rewrite reset_caches_eq.
    unfold bind at 1. rewrite reset_caches_eq.
    unfold create_method_call_cmd. rewrite bind_assoc, bind_get, bind_assoc, Hps.
    destruct (params_to_string env (heap s1) [value]) as [e|ps]; [reflexivity|].
    rewrite bind_lift_inr, bind_assoc, bind_ret, bind_ret. reflexivity. }
  rewrite Hrun.
  destruct (params_to_string env (heap s1) [value]) as [e|ps]; [reflexivity|].
  destruct (call_and_handle_command_log
              (str_join " " ("set" :: if negb (String.eqb ps "") then [ps] else []))
              (reset_state (reset_state s1))) as [evs Hl].
  exists evs. etransitivity; [exact Hl|]. simpl. rewrite <- !app_assoc. reflexivity.
Qed.

End IndexAssignment.

(** X21, an instance: an assignment to the empty slice [V[1:1]] of the
    values object sends the command line [set 7]. *)
Lemma index_assignment_witness :
  exists evs,
    log (snd (PlxProxyListable___setitem__ env_numbers 1 (KSlice (Some 1) (Some 1)) (VInt 7)
                st_numbers))
    = log (snd (__getitem__ env_numbers 1 (KSlice (Some 1) (Some 1)) st_numbers))
        ++ Invalidate :: Invalidate :: Invalidate :: Sent (ReqCommands ["set 7"]) :: evs.
Proof.
  pose proof (index_assignment env_numbers 1 (KSlice (Some 1) (Some 1)) (VInt 7) st_numbers)
    as H.
  cbv zeta in H.
  rewrite (pair_eta (__getitem__ env_numbers 1 (KSlice (Some 1) (Some 1)) st_numbers)
             (inr VNone)) in H by (vm_compute; reflexivity).
  assert (Ep : params_to_string env_numbers
                 (heap (snd (__getitem__ env_numbers 1 (KSlice (Some 1) (Some 1)) st_numbers)))
                 [VInt 7] = inr "7") by (vm_compute; reflexivity).
  rewrite Ep in H. exact H.
Defined.
